(** * Chat widget client: language detector, session store, retrying
      transport and submission controller.

    A shallow embedding of [static/i18n_widget.js] and of the [widget.js]
    script stored in the same source file.  JavaScript strings are sequences
    of UTF-16 code units; module-level variables, [localStorage] and the DOM
    nodes the scripts touch are fields of an explicit world; an [async]
    function is a resumption that stops at every [await]. *)

From Stdlib Require Import ZArith Bool Ascii String List Lia.
From stdpp Require Import base option list strings pretty gmap.

Local Open Scope Z_scope.

(* ===================================================================== *)
(** ** static/i18n_widget.js *)
(* ===================================================================== *)

Module I18nWidget.

(** A JavaScript string: its UTF-16 code units, each in [0, 0xFFFF]. *)
Definition jsstring : Type := list Z.

Definition in_range (lo hi c : Z) : bool := (lo <=? c) && (c <=? hi).

(** The character class of [AR_RE]: U+0600-06FF, U+0750-077F, U+08A0-08FF,
    U+FB50-FDFF and U+FE70-FEFF. *)
Definition AR_class (c : Z) : bool :=
  in_range 0x0600 0x06FF c || in_range 0x0750 0x077F c ||
  in_range 0x08A0 0x08FF c || in_range 0xFB50 0xFDFF c ||
  in_range 0xFE70 0xFEFF c.

(** The character class [[A-Za-z]]. *)
Definition latin_class (c : Z) : bool :=
  in_range 0x41 0x5A c || in_range 0x61 0x7A c.

(** ECMAScript WhiteSpace and LineTerminator code points, the characters
    [String.prototype.trim] strips. *)
Definition is_js_space (c : Z) : bool :=
  in_range 0x09 0x0D c || (c =? 0x20) || (c =? 0xA0) || (c =? 0x1680) ||
  in_range 0x2000 0x200A c || (c =? 0x2028) || (c =? 0x2029) ||
  (c =? 0x202F) || (c =? 0x205F) || (c =? 0x3000) || (c =? 0xFEFF).

Fixpoint drop_space (s : jsstring) : jsstring :=
  match s with
  | c :: s' => if is_js_space c then drop_space s' else s
  | [] => []
  end.

(** [text.trim()] *)
Definition trim (s : jsstring) : jsstring :=
  rev (drop_space (rev (drop_space s))).

(** [text.match(re)] for a regular expression WITHOUT the [g] flag whose
    pattern is one character class and has no capture group: [null] when
    nothing matches, otherwise the result of a single [exec], an array
    holding the first matched substring only. *)
Definition match_first (cls : Z -> bool) (text : jsstring)
  : option (list jsstring) :=
  match List.find cls text with
  | Some c => Some [[c]]
  | None => None
  end.

(** [text.match(re)] for a regular expression WITH the [g] flag: [null]
    when nothing matches, otherwise the array of all matched substrings. *)
Definition match_all (cls : Z -> bool) (text : jsstring)
  : option (list jsstring) :=
  match List.filter cls text with
  | [] => None
  | ms => Some (map (fun c => [c]) ms)
  end.

(** [(m || [])] for an array-or-null [m]. *)
Definition or_empty {A : Type} (m : option (list A)) : list A :=
  match m with Some l => l | None => [] end.

(** [AR_RE] has no flag; the Latin pattern in the detector is [/[A-Za-z]/g]. *)
Definition AR_RE_match : jsstring -> option (list jsstring) := match_first AR_class.
Definition latin_match : jsstring -> option (list jsstring) := match_all latin_class.

Definition detectClientLangFromInput (text : jsstring) : option string :=
  if match text with [] => true | _ => false end
     || (Z.of_nat (length (trim text)) =? 0)
  then None
  else
    let arMatches := Z.of_nat (length (or_empty (AR_RE_match text))) in
    let latinMatches := Z.of_nat (length (or_empty (latin_match text))) in
    if (arMatches >=? 2) && (arMatches >=? latinMatches) then Some "ar"%string
    else if (latinMatches >=? 2) && (latinMatches >=? arMatches) then Some "en"%string
    else None.

(** The counts the specification speaks of: the number of characters of the
    text in the Arabic ranges, and in the basic Latin alphabet. *)
Definition arabicCount (text : jsstring) : Z :=
  Z.of_nat (length (List.filter AR_class text)).
Definition latinCount (text : jsstring) : Z :=
  Z.of_nat (length (List.filter latin_class text)).

(** Sample inputs. *)
Definition marhaba : jsstring := [0x645; 0x631; 0x62D; 0x628; 0x627].
Definition abc : jsstring := [0x61; 0x62; 0x63].
Definition digits1234 : jsstring := [0x31; 0x32; 0x33; 0x34].
Definition ab_marhaba : jsstring := [0x61; 0x62] ++ marhaba.
Definition three_spaces : jsstring := [0x20; 0x20; 0x20].
Definition two_bom : jsstring := [0xFEFF; 0xFEFF].

End I18nWidget.

(* ===================================================================== *)
(** ** widget.js: data *)
(* ===================================================================== *)

Module Widget.

Local Open Scope string_scope.

Definition API_CHAT : string := "/api/chat".
Definition STORAGE_KEY : string := "chat_widget_session".
Definition MAX_RETRIES : nat := 4.

(** Truthiness of a string, and of a string-or-null. *)
Definition truthy (s : string) : bool :=
  match s with EmptyString => false | String _ _ => true end.

Definition truthy_opt (o : option string) : bool :=
  match o with Some s => truthy s | None => false end.

(** JavaScript numbers, as far as this script computes with them: integers
    (exact below 2^53) and [NaN]. *)
Inductive JSNumber : Type :=
| NaN
| Num (z : Z).

Definition js_mul (a b : JSNumber) : JSNumber :=
  match a, b with
  | Num x, Num y => Num (x * y)
  | _, _ => NaN
  end.

(** The session object [{ session_id, created_at }]. *)
Record Session : Type := { session_id : string; created_at : string }.

(** [session.session_id = v] *)
Definition set_session_id (v : string) (s : Session) : Session :=
  {| session_id := v; created_at := created_at s |}.

(** [JSON.stringify] and [JSON.parse] at the session object.  [JSON_parse]
    answers [None] where [JSON.parse] throws a [SyntaxError].  The two laws
    are the ones the platform gives: the text written for an object reads
    back as that object, and it is never the empty string. *)
Class JSONCodec : Type := {
  JSON_stringify : Session -> string;
  JSON_parse : string -> option Session;
  JSON_parse_stringify : forall s, JSON_parse (JSON_stringify s) = Some s;
  JSON_stringify_truthy : forall s, truthy (JSON_stringify s) = true
}.

(** A [File] from the file input. *)
Record File : Type := { name : string; contents : string }.

(** The three members the script reads of a parsed response body, at the
    shape it documents: [{ reply: "...", session_id?: "...", ... }], and
    [error] on failures.  A member that is missing is [None]. *)
Module Data.
Record t : Type := { reply : option string; session_id : option string; error : option string }.
Definition empty : t := {| reply := None; session_id := None; error := None |}.
End Data.

(** What [resp.json()] resolves to: [null] (the body is the text [null]), or
    any other value, taken with the members it has (none of the three for a
    number, a string, a boolean or an array). *)
Inductive Parsed : Type :=
| ParsedNull
| ParsedValue (data : Data.t).

Record Response : Type := {
  status : Z;
  statusText : string;
  resp_headers : gmap string string;
  (** what [resp.json()] resolves to; [None] when the body does not parse
      and the promise rejects *)
  json : option Parsed
}.

(** [resp.ok]: the status is in the range 200-299. *)
Definition ok (resp : Response) : bool := (200 <=? status resp)%Z && (status resp <=? 299)%Z.

(** [resp.headers.get(name)] *)
Definition headers_get (resp : Response) (name : string) : option string :=
  resp_headers resp !! name.

Inductive FormValue : Type :=
| FormFile (f : File)
| FormText (s : string).

Inductive JSONValue : Type :=
| JSONNull
| JSONString (s : string).

(** A request body: a [FormData] (its entries in [append] order), or the text
    [JSON.stringify] writes for an object literal, kept as the members of
    that object in order. *)
Inductive Body : Type :=
| BodyFormData (entries : list (string * FormValue))
| BodyJSON (members : list (string * JSONValue)).

(** The [opts] object of [fetch]. *)
Record RequestInit : Type := {
  method : string;
  headers : option (gmap string string);
  body : Body
}.

Inductive Exn : Type :=
| TypeError (msg : string)
| SyntaxError (msg : string).

(** How the promise of [fetch] settles: with a response of any status, or
    rejected on a network failure. *)
Inductive FetchOutcome : Type :=
| Responds (resp : Response)
| Rejects (e : Exn).

Inductive Sender : Type := user | bot.

Record Message : Type := { sender : Sender; text : string }.

(** Everything the script reads and writes. *)
Record World : Type := {
  localStorage : gmap string string;
  session : Session;                   (* [let session] *)
  inFlight : bool;                     (* [let inFlight] *)
  messages : list Message;             (* children of [messagesEl] *)
  langSelect_value : string;           (* [langSelect.value] *)
  meta_token : option string;          (* content of the token meta tag *)
  CHAT_WIDGET_TOKEN : option string;   (* [window.CHAT_WIDGET_TOKEN] *)
  focus_calls : nat;                   (* calls of [inputEl.focus()] *)
  console : list Exn;                  (* [console.error] *)
  fetch_log : list (string * RequestInit);  (* calls of [fetch] *)
  timer_log : list JSNumber            (* delays given to [setTimeout] *)
}.

Definition set_localStorage (v : gmap string string) (w : World) : World :=
  {| localStorage := v; session := session w; inFlight := inFlight w;
     messages := messages w; langSelect_value := langSelect_value w;
     meta_token := meta_token w; CHAT_WIDGET_TOKEN := CHAT_WIDGET_TOKEN w;
     focus_calls := focus_calls w; console := console w;
     fetch_log := fetch_log w; timer_log := timer_log w |}.

Definition set_session (v : Session) (w : World) : World :=
  {| localStorage := localStorage w; session := v; inFlight := inFlight w;
     messages := messages w; langSelect_value := langSelect_value w;
     meta_token := meta_token w; CHAT_WIDGET_TOKEN := CHAT_WIDGET_TOKEN w;
     focus_calls := focus_calls w; console := console w;
     fetch_log := fetch_log w; timer_log := timer_log w |}.

Definition set_inFlight (v : bool) (w : World) : World :=
  {| localStorage := localStorage w; session := session w; inFlight := v;
     messages := messages w; langSelect_value := langSelect_value w;
     meta_token := meta_token w; CHAT_WIDGET_TOKEN := CHAT_WIDGET_TOKEN w;
     focus_calls := focus_calls w; console := console w;
     fetch_log := fetch_log w; timer_log := timer_log w |}.

Definition set_messages (v : list Message) (w : World) : World :=
  {| localStorage := localStorage w; session := session w; inFlight := inFlight w;
     messages := v; langSelect_value := langSelect_value w;
     meta_token := meta_token w; CHAT_WIDGET_TOKEN := CHAT_WIDGET_TOKEN w;
     focus_calls := focus_calls w; console := console w;
     fetch_log := fetch_log w; timer_log := timer_log w |}.

Definition set_focus_calls (v : nat) (w : World) : World :=
  {| localStorage := localStorage w; session := session w; inFlight := inFlight w;
     messages := messages w; langSelect_value := langSelect_value w;
     meta_token := meta_token w; CHAT_WIDGET_TOKEN := CHAT_WIDGET_TOKEN w;
     focus_calls := v; console := console w;
     fetch_log := fetch_log w; timer_log := timer_log w |}.

Definition set_console (v : list Exn) (w : World) : World :=
  {| localStorage := localStorage w; session := session w; inFlight := inFlight w;
     messages := messages w; langSelect_value := langSelect_value w;
     meta_token := meta_token w; CHAT_WIDGET_TOKEN := CHAT_WIDGET_TOKEN w;
     focus_calls := focus_calls w; console := v;
     fetch_log := fetch_log w; timer_log := timer_log w |}.

Definition set_fetch_log (v : list (string * RequestInit)) (w : World) : World :=
  {| localStorage := localStorage w; session := session w; inFlight := inFlight w;
     messages := messages w; langSelect_value := langSelect_value w;
     meta_token := meta_token w; CHAT_WIDGET_TOKEN := CHAT_WIDGET_TOKEN w;
     focus_calls := focus_calls w; console := console w;
     fetch_log := v; timer_log := timer_log w |}.

Definition set_timer_log (v : list JSNumber) (w : World) : World :=
  {| localStorage := localStorage w; session := session w; inFlight := inFlight w;
     messages := messages w; langSelect_value := langSelect_value w;
     meta_token := meta_token w; CHAT_WIDGET_TOKEN := CHAT_WIDGET_TOKEN w;
     focus_calls := focus_calls w; console := console w;
     fetch_log := fetch_log w; timer_log := v |}.

(* --------------------------------------------------------------------- *)
(** *** Asynchronous computations *)

(** What a call of an [async] function has done when control comes back to
    the event loop: it has returned, it has thrown, or it waits at an
    [await] with the rest of its body as a continuation.  The continuation
    runs in the world it finds when the awaited promise settles. *)
Inductive Res (A : Type) : Type :=
| Ret (w : World) (a : A)
| Throw (w : World) (e : Exn)
| AwaitFetch (w : World) (url : string) (opts : RequestInit)
    (k : FetchOutcome -> World -> Res A)
| AwaitTimeout (w : World) (ms : JSNumber) (k : World -> Res A)
| AwaitJson (w : World) (resp : Response) (k : option Parsed -> World -> Res A).

Arguments Ret {A} w a.
Arguments Throw {A} w e.
Arguments AwaitFetch {A} w url opts k.
Arguments AwaitTimeout {A} w ms k.
Arguments AwaitJson {A} w resp k.

Definition M (A : Type) : Type := World -> Res A.

Fixpoint res_bind {A B : Type} (r : Res A) (f : A -> M B) : Res B :=
  match r with
  | Ret w a => f a w
  | Throw w e => Throw w e
  | AwaitFetch w url opts k => AwaitFetch w url opts (fun o w' => res_bind (k o w') f)
  | AwaitTimeout w ms k => AwaitTimeout w ms (fun w' => res_bind (k w') f)
  | AwaitJson w resp k => AwaitJson w resp (fun d w' => res_bind (k d w') f)
  end.

(** [try { r } catch (e) { h e }] *)
Fixpoint res_catch {A : Type} (r : Res A) (h : Exn -> M A) : Res A :=
  match r with
  | Ret w a => Ret w a
  | Throw w e => h e w
  | AwaitFetch w url opts k => AwaitFetch w url opts (fun o w' => res_catch (k o w') h)
  | AwaitTimeout w ms k => AwaitTimeout w ms (fun w' => res_catch (k w') h)
  | AwaitJson w resp k => AwaitJson w resp (fun d w' => res_catch (k d w') h)
  end.

(** [try { r } finally { fin }], for a [finally] block that is a plain
    assignment. *)
Fixpoint res_finally {A : Type} (r : Res A) (fin : World -> World) : Res A :=
  match r with
  | Ret w a => Ret (fin w) a
  | Throw w e => Throw (fin w) e
  | AwaitFetch w url opts k => AwaitFetch w url opts (fun o w' => res_finally (k o w') fin)
  | AwaitTimeout w ms k => AwaitTimeout w ms (fun w' => res_finally (k w') fin)
  | AwaitJson w resp k => AwaitJson w resp (fun d w' => res_finally (k d w') fin)
  end.

Definition ret {A : Type} (a : A) : M A := fun w => Ret w a.
Definition bind {A B : Type} (m : M A) (f : A -> M B) : M B :=
  fun w => res_bind (m w) f.
Definition throw {A : Type} (e : Exn) : M A := fun w => Throw w e.

Declare Scope async_scope.
Delimit Scope async_scope with async.
Notation "x ← m ; k" := (bind m (fun x => k))
  (at level 20, m at level 100, k at level 200, only parsing) : async_scope.
Notation "m ;; k" := (bind m (fun _ => k))
  (at level 100, k at level 200, only parsing, right associativity) : async_scope.
Local Open Scope async_scope.

Definition try_catch {A : Type} (m : M A) (h : Exn -> M A) : M A :=
  fun w => res_catch (m w) h.
Definition try_finally {A : Type} (m : M A) (fin : World -> World) : M A :=
  fun w => res_finally (m w) fin.

Definition read {A : Type} (f : World -> A) : M A := fun w => Ret w (f w).
Definition write (f : World -> World) : M unit := fun w => Ret (f w) tt.

(** [await fetch(url, opts)]: the call is made now, the body goes on when
    the promise settles, and a rejection is thrown at the [await]. *)
Definition fetch (url : string) (opts : RequestInit) : M Response :=
  fun w =>
    AwaitFetch (set_fetch_log (fetch_log w ++ [(url, opts)]) w) url opts
      (fun o w' => match o with
                   | Responds resp => Ret w' resp
                   | Rejects e => Throw w' e
                   end).

(** [await new Promise(r => setTimeout(r, ms))] *)
Definition sleep (ms : JSNumber) : M unit :=
  fun w => AwaitTimeout (set_timer_log (timer_log w ++ [ms]) w) ms (fun w' => Ret w' tt).

(** [await resp.json()] *)
Definition resp_json (resp : Response) : M Parsed :=
  fun w =>
    AwaitJson w resp
      (fun d w' => match d with
                   | Some data => Ret w' data
                   | None => Throw w' (SyntaxError "Unexpected token")
                   end).

(** The [TypeError] of reading a member of [null]. *)
Definition null_body_error : Exn := TypeError "Cannot read properties of null".

(** [data.reply], [data.session_id], [data.error]: reading a member of
    [null] throws; of any other value it gives the member, if there. *)
Definition member (f : Data.t -> option string) (data : Parsed) : M (option string) :=
  match data with
  | ParsedNull => throw null_body_error
  | ParsedValue d => ret (f d)
  end.

(* --------------------------------------------------------------------- *)
(** *** Helpers *)

(** What [getToken()] returns in world [w]. *)
Definition token (w : World) : option string :=
  if truthy_opt (meta_token w) then meta_token w
  else if truthy_opt (CHAT_WIDGET_TOKEN w) then CHAT_WIDGET_TOKEN w
  else None.

Definition getToken : M (option string) := read token.

(** ['sess-' + Math.random().toString(36).slice(2,10)], given the text
    [random36] that [Math.random().toString(36)] produced. *)
Definition genSessionId (random36 : string) : string :=
  "sess-" +:+ substring 2 8 random36.

(** [getSession()], given the random text and the ISO time of the call. *)
Definition getSession `{JSONCodec} (random36 now : string) : M Session :=
  s ← read (fun w => localStorage w !! STORAGE_KEY);
  s ← (if negb (truthy_opt s) then
         let s' := JSON_stringify {| session_id := genSessionId random36;
                                     created_at := now |} in
         write (fun w => set_localStorage (<[STORAGE_KEY := s']> (localStorage w)) w) ;;
         ret s'
       else ret (default "" s));
  match JSON_parse s with
  | Some v => ret v
  | None => throw (SyntaxError "JSON.parse")
  end.

(** [appendMessage({sender, text})] *)
Definition appendMessage (sd : Sender) (txt : string) (w : World) : World :=
  set_messages (messages w ++ [{| sender := sd; text := txt |}]) w.

(** [inputEl.focus()] *)
Definition focus (w : World) : World := set_focus_calls (S (focus_calls w)) w.

(** [console.error("sendMessageToServer error", err)] *)
Definition console_error (err : Exn) (w : World) : World :=
  set_console (console w ++ [err]) w.

(* --------------------------------------------------------------------- *)
(** *** parseInt(s, 10) on a header value *)

Definition is_digit (c : ascii) : bool :=
  (48 <=? nat_of_ascii c)%nat && (nat_of_ascii c <=? 57)%nat.

Definition digit_value (c : ascii) : Z := Z.of_nat (nat_of_ascii c) - 48.

(** White space that [parseInt] skips, among the characters a header value
    can hold. *)
Definition is_space (c : ascii) : bool :=
  let n := nat_of_ascii c in
  ((9 <=? n)%nat && (n <=? 13)%nat) || (n =? 32)%nat || (n =? 160)%nat.

Fixpoint skip_space (s : string) : string :=
  match s with
  | String c s' => if is_space c then skip_space s' else s
  | EmptyString => s
  end.

(** The value of the longest prefix of decimal digits, read left to right. *)
Fixpoint parse_digits (acc : Z) (s : string) : Z :=
  match s with
  | String c s' => if is_digit c then parse_digits (acc * 10 + digit_value c) s' else acc
  | EmptyString => acc
  end.

Definition parseInt10 (s : string) : JSNumber :=
  let s1 := skip_space s in
  let '(sign, s2) :=
    match s1 with
    | String c r =>
        if (nat_of_ascii c =? 45)%nat then (-1, r)
        else if (nat_of_ascii c =? 43)%nat then (1, r)
        else (1, s1)
    | EmptyString => (1, s1)
    end%Z in
  match s2 with
  | String c _ => if is_digit c then Num (sign * parse_digits 0 s2) else NaN
  | EmptyString => NaN
  end.

(** [Math.pow(2, attempt)] *)
Definition Math_pow2 (attempt : nat) : JSNumber := Num (2 ^ Z.of_nat attempt).

(* --------------------------------------------------------------------- *)
(** *** Network helpers *)

Definition opts_headers (opts : RequestInit) : gmap string string :=
  default ∅ (headers opts).

Definition set_header (name value : string) (opts : RequestInit) : RequestInit :=
  {| method := method opts;
     headers := Some (<[name := value]> (opts_headers opts));
     body := body opts |}.

(** The delay before the retry that follows a 429 received at [attempt]. *)
Definition waitMs (resp : Response) (attempt : nat) : JSNumber :=
  let ra := headers_get resp "Retry-After" in
  if truthy_opt ra then js_mul (parseInt10 (default "" ra)) (Num 1000)
  else js_mul (Math_pow2 attempt) (Num 500).

(** [fetchWithRetry(url, opts, attempt)].  The recursion of the source goes
    on while [attempt < MAX_RETRIES]; [fuel] bounds it for the termination
    checker, and [fetchWithRetry] below gives enough of it: more fuel changes
    nothing ([WidgetFacts.fuel_irrelevant]). *)
Fixpoint fetchWithRetry_loop (fuel : nat) (url : string) (opts : RequestInit)
    (attempt : nat) : M Response :=
  token ← getToken;
  let opts := if headers opts is None
              then {| method := method opts; headers := Some ∅; body := body opts |}
              else opts in
  sid ← read (fun w => session_id (session w));
  let opts := set_header "X-Client-Session" sid opts in
  let opts := if truthy_opt token && negb (truthy_opt (opts_headers opts !! "Authorization"))
              then set_header "Authorization" ("Bearer " +:+ default "" token) opts
              else opts in
  resp ← fetch url opts;
  if (status resp =? 429)%Z && (attempt <? MAX_RETRIES)%nat then
    sleep (waitMs resp attempt) ;;
    match fuel with
    | S fuel' => fetchWithRetry_loop fuel' url opts (attempt + 1)
    | O => ret resp
    end
  else ret resp.

Definition fetchWithRetry (url : string) (opts : RequestInit) (attempt : nat)
  : M Response :=
  fetchWithRetry_loop (MAX_RETRIES - attempt) url opts attempt.

(* --------------------------------------------------------------------- *)
(** *** Main send flow *)

Definition busy_notice : string := "Please wait — processing previous message.".
Definition no_reply : string := "No reply from server".
Definition network_error : string := "Network error — please try again.".

(** [langSelect.value || "en"] *)
Definition language (w : World) : string :=
  if truthy (langSelect_value w) then langSelect_value w else "en".

(** The [FormData] built when a file is attached. *)
Definition form_data (file : File) (sid messageText lang : string)
    (intent : option string) : list (string * FormValue) :=
  [("file", FormFile file);
   ("session_id", FormText sid);
   ("message", FormText (if truthy messageText then messageText else ""));
   ("language", FormText lang)]
  ++ (if truthy_opt intent then [("intent", FormText (default "" intent))] else []).

(** The object literal [body] of the JSON branch. *)
Definition json_body (sid messageText lang : string) (intent : option string)
  : list (string * JSONValue) :=
  [("session_id", JSONString sid);
   ("message", JSONString messageText);
   ("language", JSONString lang);
   ("intent", if truthy_opt intent then JSONString (default "" intent) else JSONNull)].

(** The text of the user's own bubble:
    [messageText || (file && file.name) || ''] *)
Definition own_text (messageText : string) (file : option File) : string :=
  if truthy messageText then messageText
  else match file with
       | Some f => if truthy (name f) then name f else ""
       | None => ""
       end.

(** The part of [sendMessageToServer] after [resp] is known.  Only a
    rejected [resp.json()] gives the empty object; a body that parses to
    [null] stays [null], and the first member read of it throws.  (The
    source reads [data.session_id] again where it tests and assigns it; the
    value is the same.) *)
Definition handle_response `{JSONCodec} (resp : Response) : M unit :=
  data ← try_catch (resp_json resp) (fun _ => ret (ParsedValue Data.empty));
  if ok resp then
    r ← member Data.reply data;
    let reply := if truthy_opt r then default "" r else no_reply in
    write (appendMessage bot reply) ;;
    sid ← member Data.session_id data;
    cur ← read (fun w => session_id (session w));
    if truthy_opt sid && negb (String.eqb (default "" sid) cur)
    then
      write (fun w => set_session (set_session_id (default "" sid) (session w)) w) ;;
      write (fun w => set_localStorage
                        (<[STORAGE_KEY := JSON_stringify (session w)]> (localStorage w)) w)
    else ret tt
  else
    e ← member Data.error data;
    let errText :=
      if truthy_opt e then default "" e
      else if truthy (statusText resp) then statusText resp
      else "HTTP " +:+ pretty (status resp) in
    write (appendMessage bot ("Error: " +:+ errText)).

(** The request of the [try] block: multipart when a file is attached, JSON
    otherwise. *)
Definition send_request (messageText : string) (file : option File)
    (intent : option string) : M Response :=
  match file with
  | Some f =>
      sid ← read (fun w => session_id (session w));
      lang ← read language;
      let fd := form_data f sid messageText lang intent in
      let headers := ∅ in
      fetchWithRetry API_CHAT
        {| method := "POST"; body := BodyFormData fd; headers := Some headers |} 0
  | None =>
      let headers := {["Content-Type" := "application/json"]} in
      sid ← read (fun w => session_id (session w));
      lang ← read language;
      let body := json_body sid messageText lang intent in
      fetchWithRetry API_CHAT
        {| method := "POST"; headers := Some headers; body := BodyJSON body |} 0
  end.

Definition sendMessageToServer `{JSONCodec} (messageText : string)
    (file : option File) (intent : option string) : M unit :=
  busy ← read inFlight;
  if busy then write (appendMessage bot busy_notice)
  else if negb (truthy messageText) && negb (bool_decide (is_Some file))
  then write focus
  else
    write (set_inFlight true) ;;
    write (appendMessage user (own_text messageText file)) ;;
    try_finally
      (try_catch
         (resp ← send_request messageText file intent;
          handle_response resp)
         (fun err =>
            write (console_error err) ;;
            write (appendMessage bot network_error)))
      (set_inFlight false).

(* --------------------------------------------------------------------- *)
(** *** The event loop *)

(** A suspended call of [sendMessageToServer]: what it waits for and the
    rest of its body. *)
Inductive Task : Type :=
| TaskFetch (url : string) (opts : RequestInit) (k : FetchOutcome -> World -> Res unit)
| TaskTimeout (ms : JSNumber) (k : World -> Res unit)
| TaskJson (resp : Response) (k : option Parsed -> World -> Res unit).

(** The page: the world and the submissions that are in flight. *)
Record Page : Type := { world : World; pending : list Task }.

(** After a piece of a call has run: a call that returned or threw is gone,
    one that reached an [await] is pending. *)
Definition settle (r : Res unit) (others : list Task) : Page :=
  match r with
  | Ret w _ => {| world := w; pending := others |}
  | Throw w _ => {| world := w; pending := others |}
  | AwaitFetch w url opts k => {| world := w; pending := others ++ [TaskFetch url opts k] |}
  | AwaitTimeout w ms k => {| world := w; pending := others ++ [TaskTimeout ms k] |}
  | AwaitJson w resp k => {| world := w; pending := others ++ [TaskJson resp k] |}
  end.

Inductive Event : Type :=
| Send (messageText : string) (file : option File) (intent : option string)
| FetchSettles (i : nat) (o : FetchOutcome)
| TimerFires (i : nat)
| JsonSettles (i : nat).

(** One turn of the event loop.  [None]: the event cannot happen (no such
    pending task, or it waits for something else). *)
Definition step `{JSONCodec} (p : Page) (ev : Event) : option Page :=
  match ev with
  | Send messageText file intent =>
      Some (settle (sendMessageToServer messageText file intent (world p)) (pending p))
  | FetchSettles i o =>
      match pending p !! i with
      | Some (TaskFetch _ _ k) => Some (settle (k o (world p)) (delete i (pending p)))
      | _ => None
      end
  | TimerFires i =>
      match pending p !! i with
      | Some (TaskTimeout _ k) => Some (settle (k (world p)) (delete i (pending p)))
      | _ => None
      end
  | JsonSettles i =>
      match pending p !! i with
      | Some (TaskJson resp k) => Some (settle (k (json resp) (world p)) (delete i (pending p)))
      | _ => None
      end
  end.

Fixpoint steps `{JSONCodec} (p : Page) (evs : list Event) : option Page :=
  match evs with
  | [] => Some p
  | ev :: evs' => match step p ev with Some p' => steps p' evs' | None => None end
  end.

(** Where a call that runs alone ends: it returned, it threw, or it waits
    for a [fetch] that has not settled. *)
Inductive Ended (A : Type) : Type :=
| Returned (w : World) (a : A)
| Thrown (w : World) (e : Exn)
| Waiting (w : World) (url : string) (opts : RequestInit).

Arguments Returned {A} w a.
Arguments Thrown {A} w e.
Arguments Waiting {A} w url opts.

(** A call running alone against a scripted network: each [fetch] settles
    with the next outcome of [net], timers fire, bodies are read.  The result
    is where the call ends, or the [fetch] it waits at when [net] is used
    up, together with the outcomes that were not used. *)
Fixpoint run_alone {A : Type} (r : Res A) (net : list FetchOutcome)
  : Ended A * list FetchOutcome :=
  match r with
  | Ret w a => (Returned w a, net)
  | Throw w e => (Thrown w e, net)
  | AwaitFetch w url opts k =>
      match net with
      | o :: net' => run_alone (k o w) net'
      | [] => (Waiting w url opts, [])
      end
  | AwaitTimeout w ms k => run_alone (k w) net
  | AwaitJson w resp k => run_alone (k (json resp) w) net
  end.

End Widget.

(* ===================================================================== *)
(** ** A JSON text codec for session objects *)
(* ===================================================================== *)

(** The text [JSON.stringify] writes for [{ session_id, created_at }], and a
    reader of JSON objects whose members are strings.  It is one instance of
    [Widget.JSONCodec]; the results about the widget hold for every
    instance. *)
Module SessionJSON.

Import Widget.
Local Open Scope string_scope.

Definition dquote : ascii := "034"%char.
Definition backslash : ascii := "092"%char.

Definition hex_digit (n : nat) : ascii :=
  if (n <? 10)%nat then ascii_of_nat (48 + n) else ascii_of_nat (87 + n).

(** One character inside a string literal, as [JSON.stringify] quotes it. *)
Definition quote_char (c : ascii) : string :=
  let n := nat_of_ascii c in
  if (n =? 34)%nat then String backslash (String dquote "")
  else if (n =? 92)%nat then String backslash (String backslash "")
  else if (n =? 8)%nat then String backslash "b"
  else if (n =? 12)%nat then String backslash "f"
  else if (n =? 10)%nat then String backslash "n"
  else if (n =? 13)%nat then String backslash "r"
  else if (n =? 9)%nat then String backslash "t"
  else if (n <? 32)%nat then
    String backslash
      (String "u" (String "0" (String "0"
        (String (hex_digit (n / 16)) (String (hex_digit (n mod 16)) "")))))
  else String c "".

Fixpoint quote_body (s : string) : string :=
  match s with
  | EmptyString => ""
  | String c s' => quote_char c +:+ quote_body s'
  end.

Definition quote (s : string) : string :=
  String dquote (quote_body s +:+ String dquote "").

Definition stringify (v : Session) : string :=
  "{" +:+ quote "session_id" +:+ ":" +:+ quote (session_id v) +:+ ","
      +:+ quote "created_at" +:+ ":" +:+ quote (created_at v) +:+ "}".

Definition hex_value (c : ascii) : option nat :=
  let n := nat_of_ascii c in
  if (48 <=? n)%nat && (n <=? 57)%nat then Some (n - 48)%nat
  else if (97 <=? n)%nat && (n <=? 102)%nat then Some (n - 87)%nat
  else if (65 <=? n)%nat && (n <=? 70)%nat then Some (n - 55)%nat
  else None.

(** The character an escape sequence stands for, and the text after it;
    [s] starts after the backslash.  A [\u] escape above 255 has no
    character in the byte strings used here and is not read. *)
Definition unescape (s : string) : option (ascii * string) :=
  match s with
  | String e s' =>
      let n := nat_of_ascii e in
      if (n =? 34)%nat || (n =? 92)%nat || (n =? 47)%nat then Some (e, s')
      else if (n =? 98)%nat then Some (ascii_of_nat 8, s')
      else if (n =? 102)%nat then Some (ascii_of_nat 12, s')
      else if (n =? 110)%nat then Some (ascii_of_nat 10, s')
      else if (n =? 114)%nat then Some (ascii_of_nat 13, s')
      else if (n =? 116)%nat then Some (ascii_of_nat 9, s')
      else if (n =? 117)%nat then
        match s' with
        | String h1 (String h2 (String h3 (String h4 s''))) =>
            match hex_value h1, hex_value h2, hex_value h3, hex_value h4 with
            | Some a, Some b, Some c, Some d =>
                let code := (((a * 16 + b) * 16 + c) * 16 + d)%nat in
                if (code <? 256)%nat then Some (ascii_of_nat code, s'') else None
            | _, _, _, _ => None
            end
        | _ => None
        end
      else None
  | EmptyString => None
  end.

(** The rest of a string literal after its opening quote: the string it
    denotes and the text after the closing quote.  [fuel] bounds the number
    of characters read. *)
Fixpoint read_string (fuel : nat) (s : string) : option (string * string) :=
  match fuel with
  | O => None
  | S fuel' =>
      match s with
      | EmptyString => None
      | String c s' =>
          if (nat_of_ascii c =? 34)%nat then Some ("", s')
          else if (nat_of_ascii c =? 92)%nat then
            match unescape s' with
            | Some (d, s'') =>
                match read_string fuel' s'' with
                | Some (v, rest) => Some (String d v, rest)
                | None => None
                end
            | None => None
            end
          else if (nat_of_ascii c <? 32)%nat then None
          else
            match read_string fuel' s' with
            | Some (v, rest) => Some (String c v, rest)
            | None => None
            end
      end
  end.

Definition is_json_space (c : ascii) : bool :=
  let n := nat_of_ascii c in
  (n =? 32)%nat || (n =? 9)%nat || (n =? 10)%nat || (n =? 13)%nat.

Fixpoint skip_json_space (s : string) : string :=
  match s with
  | String c s' => if is_json_space c then skip_json_space s' else s
  | EmptyString => s
  end.

(** A string literal at the head of [s], after optional white space. *)
Definition read_literal (s : string) : option (string * string) :=
  match skip_json_space s with
  | String c s' =>
      if (nat_of_ascii c =? 34)%nat then read_string (String.length s') s' else None
  | EmptyString => None
  end.

(** The text after character number [n], when [s] starts with it after
    optional white space. *)
Definition expect (n : nat) (s : string) : option string :=
  match skip_json_space s with
  | String c s' => if (nat_of_ascii c =? n)%nat then Some s' else None
  | EmptyString => None
  end.

(** The members of an object after its opening brace. *)
Fixpoint read_members (fuel : nat) (s : string) (acc : list (string * string))
  : option (list (string * string)) :=
  match fuel with
  | O => None
  | S fuel' =>
      match read_literal s with
      | Some (key, s1) =>
          match expect 58 s1 with
          | Some s2 =>
              match read_literal s2 with
              | Some (val, s3) =>
                  match expect 44 s3 with
                  | Some s4 => read_members fuel' s4 (acc ++ [(key, val)])%list
                  | None =>
                      match expect 125 s3 with
                      | Some s4 =>
                          match skip_json_space s4 with
                          | EmptyString => Some (acc ++ [(key, val)])%list
                          | String _ _ => None
                          end
                      | None => None
                      end
                  end
              | None => None
              end
          | None => None
          end
      | None => None
      end
  end.

(** The value of member [key]; the last one wins when it is repeated. *)
Definition member (key : string) (ms : list (string * string)) : option string :=
  snd <$> List.find (fun kv => String.eqb (fst kv) key) (rev ms).

Definition parse (s : string) : option Session :=
  match expect 123 s with
  | Some s1 =>
      match read_members (String.length s1) s1 [] with
      | Some ms =>
          match member "session_id" ms, member "created_at" ms with
          | Some sid, Some ts => Some {| session_id := sid; created_at := ts |}
          | _, _ => None
          end
      | None => None
      end
  | None => None
  end.

End SessionJSON.

(* ===================================================================== *)
(** ** Notions the results are stated with *)
(* ===================================================================== *)

Module WidgetSpec.

Import Widget.
Local Open Scope string_scope.
Local Open Scope list_scope.

(* --------------------------------------------------------------------- *)
(** *** The transport *)

(** The request [fetchWithRetry] hands to [fetch] in world [w]: [opts] with
    the session header set and the bearer header added when a token is
    there and [opts] has none yet. *)
Definition sent (w : World) (opts : RequestInit) : RequestInit :=
  let o := set_header "X-Client-Session" (session_id (session w)) opts in
  if truthy_opt (token w) && negb (truthy_opt (opts_headers o !! "Authorization"))
  then set_header "Authorization" ("Bearer " +:+ default "" (token w)) o
  else o.

Definition after_fetch (url : string) (opts : RequestInit) (w : World) : World :=
  set_fetch_log (fetch_log w ++ [(url, sent w opts)]) w.

Definition after_sleep (ms : JSNumber) (w : World) : World :=
  set_timer_log (timer_log w ++ [ms]) w.

(** The transport-level headers: [base] with the client-session header and,
    when a token is available, the bearer header. *)
Definition transport_headers (w : World) (base : gmap string string)
  : gmap string string :=
  let h := <["X-Client-Session" := session_id (session w)]> base in
  match token w with
  | Some tok => <["Authorization" := "Bearer " +:+ tok]> h
  | None => h
  end.

(** A header value written in whole seconds: decimal digits only. *)
Fixpoint all_digits (s : string) : bool :=
  match s with
  | EmptyString => true
  | String c s' => is_digit c && all_digits s'
  end.

(** The number a string of decimal digits denotes, by position. *)
Fixpoint decimal_value (s : string) : Z :=
  match s with
  | EmptyString => 0
  | String c s' => digit_value c * 10 ^ Z.of_nat (String.length s') + decimal_value s'
  end.

(* --------------------------------------------------------------------- *)
(** *** One submission *)

(** The world once a submission has been accepted: flag set, own bubble
    shown. *)
Definition started (messageText : string) (file : option File) (w : World) : World :=
  appendMessage user (own_text messageText file) (set_inFlight true w).

(** The [opts] object the [try] block builds in world [w]. *)
Definition request_opts (messageText : string) (file : option File)
    (intent : option string) (w : World) : RequestInit :=
  match file with
  | Some f =>
      {| method := "POST";
         body := BodyFormData
                   (form_data f (session_id (session w)) messageText (language w) intent);
         headers := Some ∅ |}
  | None =>
      {| method := "POST";
         headers := Some {["Content-Type" := "application/json"]};
         body := BodyJSON (json_body (session_id (session w)) messageText (language w) intent) |}
  end.

(** The text of the bubble a response whose body is not [null] is shown
    with: on a success status the reply, or the placeholder when the body
    did not parse or has no reply; otherwise ["Error: "] and the error
    member, else the status text, else ["HTTP "] and the status code. *)
Definition rendered (resp : Response) : string :=
  if ok resp then
    match json resp with
    | Some (ParsedValue {| Data.reply := Some (String c s) |}) => String c s
    | _ => "No reply from server"
    end
  else
    "Error: " +:+
      match json resp with
      | Some (ParsedValue {| Data.error := Some (String c s) |}) => String c s
      | _ =>
          match statusText resp with
          | String c s => String c s
          | EmptyString => "HTTP " +:+ pretty (status resp)
          end
      end.

(** The session id a response asks the client to adopt, if any: a
    non-empty [session_id] member of a body that parsed, on a success
    status, different from the current id. *)
Definition adoptable (resp : Response) (current : string) : option string :=
  if ok resp then
    match json resp with
    | Some (ParsedValue {| Data.session_id := Some (String c s) |}) =>
        if decide (String c s = current) then None else Some (String c s)
    | _ => None
    end
  else None.

Section WithCodec.

Context `{codec : JSONCodec}.

(** The world after the response has been handled. *)
Definition handled (resp : Response) (w : World) : World :=
  let w1 := appendMessage bot (rendered resp) w in
  match adoptable resp (session_id (session w)) with
  | Some new =>
      let s' := {| session_id := new; created_at := created_at (session w) |} in
      set_localStorage (<[STORAGE_KEY := JSON_stringify s']> (localStorage w))
        (set_session s' w1)
  | None => w1
  end.

End WithCodec.

(** The world after an error caught by the outer [catch] has been
    reported: a rejected [fetch], or the [TypeError] of a body that is
    [null]. *)
Definition reported (e : Exn) (w : World) : World :=
  appendMessage bot network_error (console_error e w).

(** The body of the response parsed to [null]. *)
Definition null_body (resp : Response) : bool :=
  match json resp with
  | Some ParsedNull => true
  | _ => false
  end.

Section Finished.

Context `{codec : JSONCodec}.

(** The world after a submission has dealt with the response it got:
    handled, or reported when its body is [null]. *)
Definition finished (resp : Response) (w : World) : World :=
  if null_body resp then reported null_body_error w else handled resp w.

End Finished.

(* --------------------------------------------------------------------- *)
(** *** The in-flight flag *)

(** The flag is set, and stays set, until the call ends: in whatever world
    with the flag set the call is resumed, it goes on with the flag set. *)
Inductive busy {A : Type} : Res A -> Prop :=
| busy_ret w a : inFlight w = true -> busy (Ret w a)
| busy_throw w e : inFlight w = true -> busy (Throw w e)
| busy_fetch w url opts k :
    inFlight w = true ->
    (forall o w', inFlight w' = true -> busy (k o w')) ->
    busy (AwaitFetch w url opts k)
| busy_timeout w ms k :
    inFlight w = true ->
    (forall w', inFlight w' = true -> busy (k w')) ->
    busy (AwaitTimeout w ms k)
| busy_json w resp k :
    inFlight w = true ->
    (forall d w', inFlight w' = true -> busy (k d w')) ->
    busy (AwaitJson w resp k).

(** The flag is set while the call waits, and clear when it has ended, by a
    return or by a throw. *)
Inductive releases {A : Type} : Res A -> Prop :=
| releases_ret w a : inFlight w = false -> releases (Ret w a)
| releases_throw w e : inFlight w = false -> releases (Throw w e)
| releases_fetch w url opts k :
    inFlight w = true ->
    (forall o w', inFlight w' = true -> releases (k o w')) ->
    releases (AwaitFetch w url opts k)
| releases_timeout w ms k :
    inFlight w = true ->
    (forall w', inFlight w' = true -> releases (k w')) ->
    releases (AwaitTimeout w ms k)
| releases_json w resp k :
    inFlight w = true ->
    (forall d w', inFlight w' = true -> releases (k d w')) ->
    releases (AwaitJson w resp k).

Definition keeps {A : Type} (m : M A) : Prop :=
  forall w, inFlight w = true -> busy (m w).

(** What a pending task will do when it is resumed with the flag set. *)
Definition task_releases (t : Task) : Prop :=
  match t with
  | TaskFetch _ _ k => forall o w', inFlight w' = true -> releases (k o w')
  | TaskTimeout _ k => forall w', inFlight w' = true -> releases (k w')
  | TaskJson _ k => forall d w', inFlight w' = true -> releases (k d w')
  end.

(** The invariant of the page: the flag is set exactly while one submission
    is pending, and that submission clears it when it ends. *)
Definition single_in_flight (p : Page) : Prop :=
  if inFlight (world p)
  then exists t, pending p = [t] /\ task_releases t
  else pending p = [].

(* --------------------------------------------------------------------- *)
(** *** Worlds that differ by busy notices only *)

Definition is_notice (m : Message) : bool :=
  match sender m with
  | bot => String.eqb (text m) busy_notice
  | user => false
  end.

(** The bubbles of the page without the busy notices. *)
Definition transcript (w : World) : list Message :=
  List.filter (fun m => negb (is_notice m)) (messages w).

(** Two worlds with the same outcome: they agree on everything but the
    message list, and their message lists agree once the busy notices
    are left out. *)
Definition same_outcome (w1 w2 : World) : Prop :=
  set_messages [] w1 = set_messages [] w2 /\ transcript w1 = transcript w2.

(** Two calls that do the same thing in worlds with the same outcome. *)
Inductive sim {A : Type} : Res A -> Res A -> Prop :=
| sim_ret w1 w2 a : same_outcome w1 w2 -> sim (Ret w1 a) (Ret w2 a)
| sim_throw w1 w2 e : same_outcome w1 w2 -> sim (Throw w1 e) (Throw w2 e)
| sim_fetch w1 w2 url opts k1 k2 :
    same_outcome w1 w2 ->
    (forall o w1' w2', same_outcome w1' w2' -> sim (k1 o w1') (k2 o w2')) ->
    sim (AwaitFetch w1 url opts k1) (AwaitFetch w2 url opts k2)
| sim_timeout w1 w2 ms k1 k2 :
    same_outcome w1 w2 ->
    (forall w1' w2', same_outcome w1' w2' -> sim (k1 w1') (k2 w2')) ->
    sim (AwaitTimeout w1 ms k1) (AwaitTimeout w2 ms k2)
| sim_json w1 w2 resp k1 k2 :
    same_outcome w1 w2 ->
    (forall d w1' w2', same_outcome w1' w2' -> sim (k1 d w1') (k2 d w2')) ->
    sim (AwaitJson w1 resp k1) (AwaitJson w2 resp k2).

(** A computation that cannot tell such worlds apart. *)
Definition respects {A : Type} (m : M A) : Prop :=
  forall w1 w2, same_outcome w1 w2 -> sim (m w1) (m w2).

(** Pending tasks that go on in the same way. *)
Inductive task_sim : Task -> Task -> Prop :=
| task_sim_fetch url opts k1 k2 :
    (forall o w1 w2, same_outcome w1 w2 -> sim (k1 o w1) (k2 o w2)) ->
    task_sim (TaskFetch url opts k1) (TaskFetch url opts k2)
| task_sim_timeout ms k1 k2 :
    (forall w1 w2, same_outcome w1 w2 -> sim (k1 w1) (k2 w2)) ->
    task_sim (TaskTimeout ms k1) (TaskTimeout ms k2)
| task_sim_json resp k1 k2 :
    (forall d w1 w2, same_outcome w1 w2 -> sim (k1 d w1) (k2 d w2)) ->
    task_sim (TaskJson resp k1) (TaskJson resp k2).

Definition page_sim (p1 p2 : Page) : Prop :=
  same_outcome (world p1) (world p2) /\ Forall2 task_sim (pending p1) (pending p2).

End WidgetSpec.

(* ===================================================================== *)
(** ** Sample worlds, requests and responses *)
(* ===================================================================== *)

Module Samples.

Import Widget.
Local Open Scope string_scope.

Definition session0 : Session :=
  {| session_id := "sess-4fzyo82m"; created_at := "2024-05-01T10:00:00.000Z" |}.

(** A page that has just loaded: nothing in flight, no token. *)
Definition idle_world : World :=
  {| localStorage := ∅; session := session0; inFlight := false; messages := nil;
     langSelect_value := "en"; meta_token := None; CHAT_WIDGET_TOKEN := None;
     focus_calls := 0; console := nil; fetch_log := nil; timer_log := nil |}.

(** A page whose stored session text was cut short. *)
Definition corrupt_world : World :=
  {| localStorage := {[STORAGE_KEY := "{oops"]}; session := session0;
     inFlight := false; messages := nil;
     langSelect_value := "en"; meta_token := None; CHAT_WIDGET_TOKEN := None;
     focus_calls := 0; console := nil; fetch_log := nil; timer_log := nil |}.

Definition post_opts : RequestInit :=
  {| method := "POST"; headers := Some ∅; body := BodyJSON nil |}.

Definition too_many : Response :=
  {| status := 429; statusText := "Too Many Requests"; resp_headers := ∅;
     json := None |}.

Definition too_many_retry_after_2 : Response :=
  {| status := 429; statusText := "Too Many Requests";
     resp_headers := {["Retry-After" := "2"]}; json := None |}.

Definition server_error : Response :=
  {| status := 500; statusText := "Internal Server Error"; resp_headers := ∅;
     json := None |}.

(** A page with a token in the meta tag. *)
Definition token_world : World :=
  {| localStorage := ∅; session := session0; inFlight := false; messages := nil;
     langSelect_value := "en"; meta_token := Some "t0k3n"; CHAT_WIDGET_TOKEN := None;
     focus_calls := 0; console := nil; fetch_log := nil; timer_log := nil |}.

Definition a_png : File := {| name := "a.png"; contents := "PNG" |}.

Definition data_srv_123 : Data.t :=
  {| Data.reply := Some "Hello!"; Data.session_id := Some "srv-123"; Data.error := None |}.

Definition reply_srv_123 : Response :=
  {| status := 200; statusText := "OK"; resp_headers := ∅;
     json := Some (ParsedValue data_srv_123) |}.

Definition reply_plain : Response :=
  {| status := 200; statusText := "OK"; resp_headers := ∅;
     json := Some (ParsedValue {| Data.reply := Some "Hello!"; Data.session_id := None;
                                  Data.error := None |}) |}.

Definition not_found_bare : Response :=
  {| status := 404; statusText := ""; resp_headers := ∅; json := None |}.

Definition network_down : Exn := TypeError "Failed to fetch".

(** A 200 whose body is not JSON. *)
Definition reply_unparsed : Response :=
  {| status := 200; statusText := "OK"; resp_headers := ∅; json := None |}.

(** A 200 whose body is the text [null]. *)
Definition reply_null : Response :=
  {| status := 200; statusText := "OK"; resp_headers := ∅; json := Some ParsedNull |}.

End Samples.

(* ===================================================================== *)
(** ** The DOM elements the scripts restyle *)
(* ===================================================================== *)

Module Dom.

Local Open Scope string_scope.
Local Open Scope list_scope.

(** An element, as far as the scripts touch it: the tokens of its
    [classList], in order and without repetition, and its attributes other
    than [class].  The [class] attribute is the text of [classList] and
    changes with it; it is not among [attributes], which is read and written
    for other names only. *)
Record Element : Type := {
  classList : list string;
  attributes : gmap string string
}.

Definition contains (token : string) (el : Element) : bool :=
  existsb (String.eqb token) (classList el).

(** [el.classList.add(token)]: a token that is there already is not added
    again. *)
Definition classList_add (token : string) (el : Element) : Element :=
  if contains token el then el
  else {| classList := classList el ++ [token]; attributes := attributes el |}.

(** [el.classList.remove(token)] *)
Definition classList_remove (token : string) (el : Element) : Element :=
  {| classList := List.filter (fun t => negb (String.eqb token t)) (classList el);
     attributes := attributes el |}.

(** [el.setAttribute(name, value)], for a name other than [class] (the
    scripts set [dir] and [lang]). *)
Definition setAttribute (name value : string) (el : Element) : Element :=
  {| classList := classList el; attributes := <[name := value]> (attributes el) |}.

End Dom.

(* ===================================================================== *)
(** ** static/i18n_widget.js: the [window.i18nWidget] object *)
(* ===================================================================== *)

Module I18nWidgetUI.

Import I18nWidget Dom.
Local Open Scope string_scope.

(** [setLanguageOnWidget(containerEl, lang)]; [containerEl] is [None] when
    the caller passes [null]. *)
Definition setLanguageOnWidget (containerEl : option Element) (lang : string)
  : option Element :=
  match containerEl with
  | None => None
  | Some el =>
      if String.eqb lang "ar" then
        Some (setAttribute "lang" "ar" (setAttribute "dir" "rtl" (classList_add "rtl" el)))
      else
        Some (setAttribute "lang" "en" (setAttribute "dir" "ltr" (classList_remove "rtl" el)))
  end.

(** The two states [setLanguageOnWidget] leaves a container in. *)
Definition styled (rtl : bool) (el : Element) : Prop :=
  contains "rtl" el = rtl
  /\ attributes el !! "dir" = Some (if rtl then "rtl" else "ltr")
  /\ attributes el !! "lang" = Some (if rtl then "ar" else "en").

(** [quickDetectAndApply(containerEl, inputText, allowPrompt)]: the
    container after the call and the value returned. *)
Definition quickDetectAndApply (containerEl : option Element) (inputText : jsstring)
    (allowPrompt : bool) : option Element * option string :=
  let lang := detectClientLangFromInput inputText in
  match lang with
  | Some (String c l) =>                        (* [if (lang)] *)
      (setLanguageOnWidget containerEl (String c l), lang)
  | _ =>
      if allowPrompt then (containerEl, None)   (* the branch is empty *)
      else (containerEl, None)
  end.

End I18nWidgetUI.

(* ===================================================================== *)
(** ** widget.js: language, event handlers and the host API *)
(* ===================================================================== *)

Module WidgetUI.

Import I18nWidget Dom Widget.
Local Open Scope string_scope.
Local Open Scope list_scope.

(** The text of an ASCII literal as a JavaScript string. *)
Definition js (s : string) : jsstring :=
  map (fun c => Z.of_nat (nat_of_ascii c)) (list_ascii_of_string s).

(** The two Arabic literals of [applyLanguage], by code unit. *)
Definition title_ar : jsstring := [0x627; 0x644; 0x62F; 0x639; 0x645]%Z.
Definition placeholder_ar : jsstring :=
  [0x627; 0x643; 0x62A; 0x628; 0x20; 0x631; 0x633; 0x627; 0x644; 0x629;
   0x2E; 0x2E; 0x2E]%Z.

(** What [applyLanguage] restyles: the widget element, the text of the
    title and the placeholder of the input. *)
Record Chrome : Type := {
  widget : Element;
  widget_title : jsstring;     (* [#widget-title].innerText *)
  placeholder : jsstring       (* [inputEl.placeholder] *)
}.

(** [applyLanguage(lang)] *)
Definition applyLanguage (lang : string) (c : Chrome) : Chrome :=
  if String.eqb lang "ar" then
    {| widget := setAttribute "lang" "ar"
                   (setAttribute "dir" "rtl" (classList_add "rtl" (widget c)));
       widget_title := title_ar;
       placeholder := placeholder_ar |}
  else
    {| widget := setAttribute "lang" "en"
                   (setAttribute "dir" "ltr" (classList_remove "rtl" (widget c)));
       widget_title := js "Support Chat";
       placeholder := js "Type a message..." |}.

(** [langSelect.value = v], for a value the select has an option for. *)
Definition set_langSelect_value (v : string) (w : World) : World :=
  {| localStorage := localStorage w; session := session w; inFlight := inFlight w;
     messages := messages w; langSelect_value := v;
     meta_token := meta_token w; CHAT_WIDGET_TOKEN := CHAT_WIDGET_TOKEN w;
     focus_calls := focus_calls w; console := console w;
     fetch_log := fetch_log w; timer_log := timer_log w |}.

(** The listener of [langSelect] for [change]; the select holds its new
    value when the listener runs. *)
Definition on_lang_change (st : World * Chrome) : World * Chrome :=
  (fst st, applyLanguage (langSelect_value (fst st)) (snd st)).

(** The character class of [arabicRe] in the listener for [input]:
    U+0600-06FF and U+0750-077F. *)
Definition arabicRe_class (c : Z) : bool :=
  in_range 0x0600 0x06FF c || in_range 0x0750 0x077F c.

(** [arabicRe.test(val)] *)
Definition arabicRe_test (val : jsstring) : bool := existsb arabicRe_class val.

(** The listener of [inputEl] for [input], with [val] the value of the
    input. *)
Definition on_input (val : jsstring) (st : World * Chrome) : World * Chrome :=
  if arabicRe_test val && negb (String.eqb (langSelect_value (fst st)) "ar") then
    (set_langSelect_value "ar" (fst st), applyLanguage "ar" (snd st))
  else st.

(* --------------------------------------------------------------------- *)
(** *** The send button *)

(** The text that stands in [Widget] for a JavaScript string: its UTF-8
    bytes, as the literals of this file are written.  A surrogate pair is
    one code point; a surrogate on its own is written as the three bytes of
    its own code point, so that no two strings share a text. *)
Definition byte (n : Z) : ascii := ascii_of_nat (Z.to_nat n).

Definition utf8_point (p : Z) : list ascii :=
  if (p <? 0x80)%Z then [byte p]
  else if (p <? 0x800)%Z then [byte (0xC0 + p / 0x40)%Z; byte (0x80 + p mod 0x40)%Z]
  else if (p <? 0x10000)%Z then
    [byte (0xE0 + p / 0x1000)%Z; byte (0x80 + (p / 0x40) mod 0x40)%Z;
     byte (0x80 + p mod 0x40)%Z]
  else
    [byte (0xF0 + p / 0x40000)%Z; byte (0x80 + (p / 0x1000) mod 0x40)%Z;
     byte (0x80 + (p / 0x40) mod 0x40)%Z; byte (0x80 + p mod 0x40)%Z].

Fixpoint utf8 (s : jsstring) : list ascii :=
  match s with
  | [] => []
  | hi :: rest =>
      match rest with
      | lo :: rest' =>
          if in_range 0xD800 0xDBFF hi && in_range 0xDC00 0xDFFF lo
          then utf8_point (0x10000 + (hi - 0xD800) * 0x400 + (lo - 0xDC00))%Z ++ utf8 rest'
          else utf8_point hi ++ utf8 rest
      | [] => utf8_point hi
      end
  end.

Definition text_of (s : jsstring) : string := string_of_list_ascii (utf8 s).

(** The text input and the file input. *)
Record Inputs : Type := {
  input_value : jsstring;         (* [inputEl.value] *)
  file_input : option File        (* [fileInput.files[0]] *)
}.

Record UI : Type := { page : Page; inputs : Inputs }.

(** The listener of [sendBtn] for [click].  The value of the input is
    trimmed as [String.prototype.trim] does ([I18nWidget.trim]), and [!text]
    holds of the empty string only.  [sendMessageToServer] runs up to its
    first [await]; the two inputs are cleared after that call has come
    back. *)
Definition on_send_click `{JSONCodec} (u : UI) : UI :=
  let file := file_input (inputs u) in
  let text := trim (input_value (inputs u)) in
  if match text with [] => true | _ => false end && negb (bool_decide (is_Some file)) then
    {| page := {| world := focus (world (page u)); pending := pending (page u) |};
       inputs := inputs u |}
  else
    {| page := settle (sendMessageToServer (text_of text) file None (world (page u)))
                 (pending (page u));
       inputs := {| input_value := []; file_input := None |} |}.

(** The listener of [inputEl] for [keydown]: Enter without Shift clicks the
    send button. *)
Definition on_keydown `{JSONCodec} (key : string) (shiftKey : bool) (u : UI) : UI :=
  if String.eqb key "Enter" && negb shiftKey then on_send_click u else u.

(* --------------------------------------------------------------------- *)
(** *** Start-up and the host API *)

(** [let session = getSession();] *)
Definition load_session `{JSONCodec} (random36 now : string) : M unit :=
  (s ← getSession random36 now;
   write (set_session s))%async.

(** [window.ChatWidget.send(opts)], with the three members of [opts];
    a member that is missing is [None]. *)
Definition ChatWidget_send `{JSONCodec} (message : option string)
    (file : option File) (intent : option string) : M unit :=
  sendMessageToServer
    (if truthy_opt message then default "" message else "")
    file
    (if truthy_opt intent then intent else None).

(** [window.ChatWidget.getSession()]: the session as it is at the call. *)
Definition ChatWidget_getSession : M Session := read session.

End WidgetUI.

(* ===================================================================== *)
(** ** More notions the results are stated with *)
(* ===================================================================== *)

Module ExtraSpec.

Import Widget WidgetSpec.
Local Open Scope string_scope.
Local Open Scope list_scope.

(** The world a call has reached. *)
Definition ended_world {A : Type} (e : Ended A) : World :=
  match e with
  | Returned w _ => w
  | Thrown w _ => w
  | Waiting w _ _ => w
  end.

(** [w'] is [w] but for the log of requests and the log of timers. *)
Definition transport_only (w w' : World) : Prop :=
  localStorage w' = localStorage w /\ session w' = session w
  /\ inFlight w' = inFlight w /\ messages w' = messages w
  /\ langSelect_value w' = langSelect_value w
  /\ meta_token w' = meta_token w /\ CHAT_WIDGET_TOKEN w' = CHAT_WIDGET_TOKEN w
  /\ focus_calls w' = focus_calls w /\ console w' = console w.

(** The stored session text is the session in memory. *)
Definition synced `{JSONCodec} (w : World) : Prop :=
  exists t, localStorage w !! STORAGE_KEY = Some t /\ truthy t = true
            /\ JSON_parse t = Some (session w).

(** The outcome a run of the transport ended with; none when it still
    waits. *)
Definition last_outcome (e : Ended Response) : list FetchOutcome :=
  match e with
  | Returned _ resp => [Responds resp]
  | Thrown _ err => [Rejects err]
  | Waiting _ _ _ => []
  end.

(** The delays before the retries that follow the responses [rs], the first
    of them received at [attempt]. *)
Fixpoint backoff (attempt : nat) (rs : list Response) : list JSNumber :=
  match rs with
  | [] => []
  | r :: rs' => waitMs r attempt :: backoff (attempt + 1) rs'
  end.

(** The text of the bubble a submission ends with, and what it writes to
    the console, by the outcome that ended its transport: a response is
    rendered, unless its body is [null]; that body, like a rejected
    request, is reported as a network error. *)
Definition bubble (o : FetchOutcome) : string :=
  match o with
  | Responds resp => if null_body resp then network_error else rendered resp
  | Rejects _ => network_error
  end.

Definition logged (o : FetchOutcome) : list Exn :=
  match o with
  | Responds resp => if null_body resp then [null_body_error] else []
  | Rejects err => [err]
  end.

(** [P] holds of the world whenever the call hands control back: where it
    waits and where it ends, in whatever world satisfying [P] it is
    resumed. *)
Inductive holds {A : Type} (P : World -> Prop) : Res A -> Prop :=
| holds_ret w a : P w -> holds P (Ret w a)
| holds_throw w e : P w -> holds P (Throw w e)
| holds_fetch w url opts k :
    P w -> (forall o w', P w' -> holds P (k o w')) -> holds P (AwaitFetch w url opts k)
| holds_timeout w ms k :
    P w -> (forall w', P w' -> holds P (k w')) -> holds P (AwaitTimeout w ms k)
| holds_json w resp k :
    P w -> (forall d w', P w' -> holds P (k d w')) -> holds P (AwaitJson w resp k).

Definition maintains {A : Type} (P : World -> Prop) (m : M A) : Prop :=
  forall w, P w -> holds P (m w).

Definition task_holds (P : World -> Prop) (t : Task) : Prop :=
  match t with
  | TaskFetch _ _ k => forall o w', P w' -> holds P (k o w')
  | TaskTimeout _ k => forall w', P w' -> holds P (k w')
  | TaskJson _ k => forall d w', P w' -> holds P (k d w')
  end.

Definition page_holds (P : World -> Prop) (p : Page) : Prop :=
  P (world p) /\ Forall (task_holds P) (pending p).

(** The two assignments that adopt the session id [new]. *)
Definition adopt `{JSONCodec} (new : string) (w : World) : World :=
  let s' := {| session_id := new; created_at := created_at (session w) |} in
  set_localStorage (<[STORAGE_KEY := JSON_stringify s']> (localStorage w))
    (set_session s' w).

(** A property of the world that none of the effects of a submission
    breaks. *)
Record stable `{JSONCodec} (P : World -> Prop) : Prop := {
  stable_fetch : forall x w, P w -> P (set_fetch_log (fetch_log w ++ [x]) w);
  stable_timer : forall x w, P w -> P (set_timer_log (timer_log w ++ [x]) w);
  stable_message : forall sd txt w, P w -> P (appendMessage sd txt w);
  stable_flag : forall b w, P w -> P (set_inFlight b w);
  stable_focus : forall w, P w -> P (focus w);
  stable_console : forall err w, P w -> P (console_error err w);
  stable_adopt : forall new w, P w -> P (adopt new w)
}.

(** What a page keeps of the world [w0] it started in: the creation time of
    the session, the language, the tokens and the other keys of the storage
    are the same, and the messages, the logs and the console have only
    grown. *)
Definition extends (w0 w : World) : Prop :=
  created_at (session w) = created_at (session w0)
  /\ langSelect_value w = langSelect_value w0
  /\ meta_token w = meta_token w0 /\ CHAT_WIDGET_TOKEN w = CHAT_WIDGET_TOKEN w0
  /\ (forall k, k <> STORAGE_KEY -> localStorage w !! k = localStorage w0 !! k)
  /\ (exists l, messages w = messages w0 ++ l)
  /\ (exists l, fetch_log w = fetch_log w0 ++ l)
  /\ (exists l, timer_log w = timer_log w0 ++ l)
  /\ (exists l, console w = console w0 ++ l)
  /\ (focus_calls w0 <= focus_calls w)%nat.

(** A string of white space only. *)
Fixpoint blank (s : string) : bool :=
  match s with
  | String c s' => is_space c && blank s'
  | EmptyString => true
  end.

(** The string does not go on with a digit. *)
Definition no_digit_ahead (s : string) : bool :=
  match s with
  | String c _ => negb (is_digit c)
  | EmptyString => true
  end.

(** A character that can start no number: no digit, no sign, no space. *)
Definition starts_no_number (c : ascii) : bool :=
  negb (is_digit c) && negb (is_space c)
  && negb (nat_of_ascii c =? 45)%nat && negb (nat_of_ascii c =? 43)%nat.

End ExtraSpec.

(** Notions for the listeners of the page. *)
Module UISpec.

Import Dom I18nWidgetUI Widget WidgetUI.
Local Open Scope string_scope.
Local Open Scope list_scope.

(** What the user does to the language of the widget: picks the option
    [v] of the select, or types so that the input holds [val]. *)
Inductive LangEvent : Type :=
| Change (v : string)
| Input (val : I18nWidget.jsstring).

Definition lang_step (st : World * Chrome) (ev : LangEvent) : World * Chrome :=
  match ev with
  | Change v => on_lang_change (set_langSelect_value v (fst st), snd st)
  | Input val => on_input val st
  end.

(** [applyLanguage(langSelect.value);] when the script is loaded. *)
Definition start_up (st : World * Chrome) : World * Chrome :=
  (fst st, applyLanguage (langSelect_value (fst st)) (snd st)).

(** The widget looks as the selected language asks. *)
Definition shown (st : World * Chrome) : Prop :=
  let rtl := String.eqb (langSelect_value (fst st)) "ar" in
  styled rtl (widget (snd st))
  /\ widget_title (snd st) = (if rtl then title_ar else js "Support Chat")
  /\ placeholder (snd st) = (if rtl then placeholder_ar else js "Type a message...").

(** No white space at the head of the string. *)
Definition no_lead (l : I18nWidget.jsstring) : Prop :=
  match l with
  | c :: _ => I18nWidget.is_js_space c = false
  | [] => True
  end.

End UISpec.

(* ===================================================================== *)
(** ** Results: the language detector *)
(* ===================================================================== *)

Module I18nWidgetFacts.

Import I18nWidget.

Lemma drop_space_nil (s : jsstring) :
  drop_space s = [] <-> forallb is_js_space s = true.
Proof.
  induction s as [|c s IH]; simpl; [tauto|].
  destruct (is_js_space c); simpl; [exact IH|].
  split; discriminate.
Qed.

Lemma drop_space_head (s : jsstring) (c : Z) (s' : jsstring) :
  drop_space s = c :: s' -> is_js_space c = false.
Proof.
  induction s as [|d s IH]; simpl; [discriminate|].
  destruct (is_js_space d) eqn:E; [exact IH|].
  intros [= -> ->]. exact E.
Qed.

Lemma forallb_rev {A : Type} (f : A -> bool) (l : list A) :
  forallb f (rev l) = forallb f l.
Proof.
  induction l as [|x l IH]; simpl; [reflexivity|].
  rewrite forallb_app, IH. simpl. rewrite andb_true_r. apply andb_comm.
Qed.

(** [text.trim().length === 0] exactly when every character is white
    space. *)
Lemma trim_nil (s : jsstring) :
  trim s = [] <-> forallb is_js_space s = true.
Proof.
  unfold trim. split.
  - intros H. apply (f_equal (@rev Z)) in H. rewrite rev_involutive in H.
    simpl in H. apply drop_space_nil in H. rewrite forallb_rev in H.
    destruct (drop_space s) as [|c s'] eqn:E.
    + apply drop_space_nil. exact E.
    + apply drop_space_head in E. simpl in H. rewrite E in H. discriminate.
  - intros H. apply drop_space_nil in H. rewrite H. reflexivity.
Qed.

Lemma length_match_all (cls : Z -> bool) (text : jsstring) :
  length (or_empty (match_all cls text)) = length (List.filter cls text).
Proof.
  unfold match_all. destruct (List.filter cls text); simpl; [reflexivity|].
  now rewrite length_map.
Qed.

(** Without the [g] flag the match array never has more than one entry. *)
Lemma length_match_first (cls : Z -> bool) (text : jsstring) :
  (length (or_empty (match_first cls text)) <= 1)%nat.
Proof.
  unfold match_first. destruct (List.find cls text); simpl; lia.
Qed.

Lemma latin_not_space (c : Z) : latin_class c = true -> is_js_space c = false.
Proof.
  unfold latin_class, is_js_space, in_range. intros H.
  rewrite orb_true_iff, !andb_true_iff, !Z.leb_le in H.
  rewrite !orb_false_iff, !andb_false_iff, !Z.leb_gt, !Z.eqb_neq.
  lia.
Qed.

Lemma blank_no_latin (text : jsstring) :
  forallb is_js_space text = true -> List.filter latin_class text = [].
Proof.
  induction text as [|c s IH]; simpl; [reflexivity|].
  intros H. apply andb_prop in H as [Hc Hs].
  destruct (latin_class c) eqn:E; [|auto].
  apply latin_not_space in E. congruence.
Qed.

(** Blank input: [null]. *)
Lemma detect_blank (text : jsstring) :
  forallb is_js_space text = true -> detectClientLangFromInput text = None.
Proof.
  intros H. unfold detectClientLangFromInput.
  apply trim_nil in H. rewrite H. simpl. now rewrite orb_true_r.
Qed.

(** What the detector computes: ["en"] exactly for the texts with at least
    two basic-Latin letters, whatever else they hold. *)
Lemma detect_en_iff (text : jsstring) :
  detectClientLangFromInput text = Some "en"%string <-> latinCount text >= 2.
Proof.
  unfold detectClientLangFromInput, latinCount, latin_match, AR_RE_match.
  rewrite length_match_all.
  pose proof (length_match_first AR_class text) as Har.
  set (a := length (or_empty (match_first AR_class text))) in *.
  set (l := length (List.filter latin_class text)).
  rewrite !Z.geb_leb.
  replace (2 <=? Z.of_nat a) with false by (symmetry; apply Z.leb_gt; lia).
  simpl.
  destruct (Z.of_nat (length (trim text)) =? 0) eqn:Etr.
  - rewrite orb_true_r.
    apply Z.eqb_eq in Etr.
    assert (Hnil : trim text = [])
      by (destruct (trim text); [reflexivity|simpl in Etr; lia]).
    apply trim_nil, blank_no_latin in Hnil. subst l. rewrite Hnil. simpl.
    split; [discriminate|lia].
  - rewrite orb_false_r.
    destruct text as [|c s] eqn:Et; [subst l; simpl; split; [discriminate|lia]|].
    rewrite <- Et in *.
    destruct (Z.leb_spec 2 (Z.of_nat l)) as [H2|H2]; simpl.
    + destruct (Z.leb_spec (Z.of_nat a) (Z.of_nat l)) as [H3|H3]; [|lia].
      split; [lia|reflexivity].
    + split; [discriminate|lia].
Qed.

(** The detector never answers ["ar"]: [AR_RE] has no [g] flag, so
    [arMatches] is 0 or 1. *)
Lemma arMatches_le_1 (text : jsstring) :
  Z.of_nat (length (or_empty (AR_RE_match text))) <= 1.
Proof.
  pose proof (length_match_first AR_class text). unfold AR_RE_match. lia.
Qed.

(** C10 -- For every input string, [detectClientLangFromInput] never returns
    ["ar"]: the Arabic regular expression is not global, the computed Arabic
    match count is at most 1, and [arMatches >= 2] cannot hold. *)
Theorem detect_never_ar (text : jsstring) :
  Z.of_nat (length (or_empty (AR_RE_match text))) <= 1 /\
  detectClientLangFromInput text <> Some "ar"%string.
Proof.
  pose proof (arMatches_le_1 text) as Har. split; [exact Har|].
  unfold detectClientLangFromInput.
  destruct (_ || _); [discriminate|].
  rewrite !Z.geb_leb.
  replace (2 <=? Z.of_nat (length (or_empty (AR_RE_match text)))) with false
    by (symmetry; apply Z.leb_gt; lia).
  simpl. destruct (_ && _); discriminate.
Qed.

(** C1 -- The claim asks for ["ar"] on every text with at least two
    Arabic-range characters and no more Latin ones.  On the five Arabic
    letters of "marhaba" (Arabic count 5, Latin count 0) the detector
    answers [null]. *)
Theorem detect_marhaba_null :
  arabicCount marhaba = 5 /\ latinCount marhaba = 0 /\
  detectClientLangFromInput marhaba = None.
Proof. repeat split; reflexivity. Qed.

(** A text of two U+FEFF characters lies in the last Arabic range and is
    white space for [trim]: the blank-input guard answers [null]. *)
Lemma detect_two_bom_null :
  arabicCount two_bom = 2 /\ latinCount two_bom = 0 /\
  forallb is_js_space two_bom = true /\
  detectClientLangFromInput two_bom = None.
Proof. repeat split; reflexivity. Qed.

(** C8 -- The claim gives ["en"] only when the Latin count is at least the
    Arabic count.  On "ab" followed by the five Arabic letters (Latin count
    2, Arabic count 5) the detector answers ["en"]. *)
Theorem detect_ab_marhaba_en :
  latinCount ab_marhaba = 2 /\ arabicCount ab_marhaba = 5 /\
  detectClientLangFromInput ab_marhaba = Some "en"%string.
Proof. repeat split; reflexivity. Qed.

(** The examples of the claim that hold: the empty text, three spaces and
    "1234" give [null], and "abc" gives ["en"]. *)
Lemma detect_examples :
  detectClientLangFromInput [] = None /\
  detectClientLangFromInput three_spaces = None /\
  detectClientLangFromInput digits1234 = None /\
  detectClientLangFromInput abc = Some "en"%string.
Proof. repeat split; reflexivity. Qed.

End I18nWidgetFacts.

(* ===================================================================== *)
(** ** Results: the JSON text of a session reads back *)
(* ===================================================================== *)

Module SessionJSONFacts.

Import Widget SessionJSON.
Local Open Scope string_scope.
Local Open Scope list_scope.

Lemma append_assoc (a b c : string) : (a +:+ b) +:+ c = a +:+ (b +:+ c).
Proof.
  induction a as [|x a IH]; [reflexivity|].
  change (String x ((a +:+ b) +:+ c) = String x (a +:+ (b +:+ c))). now f_equal.
Qed.

Lemma length_append (a b : string) :
  String.length (a +:+ b) = (String.length a + String.length b)%nat.
Proof.
  induction a as [|x a IH]; [reflexivity|].
  change (S (String.length (a +:+ b)) = S (String.length a + String.length b)).
  now f_equal.
Qed.

Lemma quote_char_length (c : ascii) : (1 <= String.length (quote_char c))%nat.
Proof.
  unfold quote_char.
  repeat match goal with |- context [if ?b then _ else _] => destruct b end;
    simpl; lia.
Qed.

(** One quoted character reads back as that character. *)
Lemma read_string_char (c : ascii) (fuel : nat) (t : string) :
  read_string (S fuel) (quote_char c +:+ t)
  = match read_string fuel t with
    | Some (v, rest) => Some (String c v, rest)
    | None => None
    end.
Proof. destruct c as [[|] [|] [|] [|] [|] [|] [|] [|]]; reflexivity. Qed.

(** Reading a quoted string gives the string back. *)
Lemma read_string_quoted (s : string) :
  forall rest fuel,
    (String.length (quote_body s) < fuel)%nat ->
    read_string fuel (quote_body s +:+ String dquote rest) = Some (s, rest).
Proof.
  induction s as [|c s IH]; intros rest fuel Hf.
  - destruct fuel; [simpl in Hf; lia|]. reflexivity.
  - destruct fuel as [|fuel]; [simpl in Hf; lia|].
    assert (Hs : (String.length (quote_body s) < fuel)%nat).
    { cbn [quote_body] in Hf. rewrite length_append in Hf.
      pose proof (quote_char_length c). lia. }
    cbn [quote_body]. rewrite append_assoc, read_string_char, IH by exact Hs.
    reflexivity.
Qed.

Lemma append_cons (c : ascii) (a b : string) :
  String c a +:+ b = String c (a +:+ b).
Proof. reflexivity. Qed.

Lemma read_literal_quote (s rest : string) :
  read_literal (quote s +:+ rest) = Some (s, rest).
Proof.
  unfold read_literal, quote. rewrite append_cons, append_assoc, append_cons.
  change ("" +:+ rest) with rest.
  cbn [skip_json_space]. change (is_json_space dquote) with false. cbv iota.
  change (nat_of_ascii dquote =? 34)%nat with true. cbv iota.
  apply read_string_quoted. rewrite length_append. simpl. lia.
Qed.

Lemma expect_head (n : nat) (c : ascii) (s : string) :
  is_json_space c = false -> nat_of_ascii c = n -> expect n (String c s) = Some s.
Proof.
  intros Hsp Hc. unfold expect. cbn [skip_json_space]. rewrite Hsp, Hc.
  now rewrite Nat.eqb_refl.
Qed.

Lemma expect_other (n : nat) (c : ascii) (s : string) :
  is_json_space c = false -> nat_of_ascii c <> n -> expect n (String c s) = None.
Proof.
  intros Hsp Hc. unfold expect. cbn [skip_json_space]. rewrite Hsp.
  apply Nat.eqb_neq in Hc. now rewrite Hc.
Qed.

(** [JSON.parse(JSON.stringify(v))] is [v]. *)
Lemma parse_stringify (v : Session) : parse (stringify v) = Some v.
Proof.
  destruct v as [sid ts]. unfold parse, stringify. cbn [session_id created_at].
  rewrite append_cons. change ("" +:+ ?x) with x.
  rewrite expect_head by reflexivity.
  set (tail := quote "session_id" +:+ ":" +:+ quote sid +:+ ","
               +:+ quote "created_at" +:+ ":" +:+ quote ts +:+ "}").
  assert (Hlen : (2 <= String.length tail)%nat).
  { subst tail. unfold quote at 1. rewrite append_cons. simpl String.length.
    rewrite !length_append. simpl. lia. }
  destruct (String.length tail) as [|[|fuel]]; try lia. subst tail.
  cbn [read_members].
  rewrite read_literal_quote.
  rewrite append_cons. change ("" +:+ ?x) with x.
  rewrite expect_head by reflexivity.
  rewrite read_literal_quote.
  rewrite append_cons. change ("" +:+ ?x) with x.
  rewrite expect_head by reflexivity.
  rewrite read_literal_quote.
  rewrite append_cons. change ("" +:+ ?x) with x.
  rewrite expect_head by reflexivity.
  rewrite read_literal_quote.
  rewrite expect_other by (reflexivity || discriminate).
  rewrite expect_head by reflexivity.
  reflexivity.
Qed.

Lemma stringify_truthy (v : Session) : truthy (stringify v) = true.
Proof. reflexivity. Qed.

(** The codec of this module is a [JSONCodec]. *)
#[export] Instance codec : JSONCodec :=
  {| JSON_stringify := stringify;
     JSON_parse := parse;
     JSON_parse_stringify := parse_stringify;
     JSON_stringify_truthy := stringify_truthy |}.

(** Text that is not JSON does not parse. *)
Lemma parse_corrupt : parse "{oops" = None /\ parse "{" = None.
Proof. split; reflexivity. Qed.

End SessionJSONFacts.

(* ===================================================================== *)
(** ** Results: the retrying transport *)
(* ===================================================================== *)

Module WidgetFacts.

Import Widget WidgetSpec.
Local Open Scope string_scope.
Local Open Scope list_scope.

Lemma set_header_init (n v : string) (opts : RequestInit) :
  set_header n v
    (if headers opts is None
     then {| method := method opts; headers := Some ∅; body := body opts |}
     else opts)
  = set_header n v opts.
Proof. destruct opts as [m [h|] b]; reflexivity. Qed.

Lemma run_loop_pending (fuel : nat) url opts attempt w :
  run_alone (fetchWithRetry_loop fuel url opts attempt w) []
  = (Waiting (after_fetch url opts w) url (sent w opts), []).
Proof.
  unfold after_fetch, sent.
  destruct fuel; simpl; rewrite !set_header_init; reflexivity.
Qed.

(** A rejected [fetch] is thrown to the caller: no timer, no second call. *)
Lemma run_loop_rejects (fuel : nat) url opts attempt w e net :
  run_alone (fetchWithRetry_loop fuel url opts attempt w) (Rejects e :: net)
  = (Thrown (after_fetch url opts w) e, net).
Proof.
  unfold after_fetch, sent.
  destruct fuel; simpl; rewrite !set_header_init; reflexivity.
Qed.

(** A response that is not a 429, or one that comes when the retries are
    used up, is returned. *)
Lemma run_loop_returns (fuel : nat) url opts attempt w resp net :
  (status resp =? 429)%Z && (attempt <? MAX_RETRIES)%nat = false ->
  run_alone (fetchWithRetry_loop fuel url opts attempt w) (Responds resp :: net)
  = (Returned (after_fetch url opts w) resp, net).
Proof.
  intros H. unfold after_fetch, sent.
  destruct fuel; simpl; rewrite !set_header_init, H; reflexivity.
Qed.

(** A 429 with retries left: the call sleeps [waitMs] and starts over with
    the same [opts] object and [attempt + 1]. *)
Lemma run_loop_retries (fuel : nat) url opts attempt w resp net :
  (status resp =? 429)%Z && (attempt <? MAX_RETRIES)%nat = true ->
  run_alone (fetchWithRetry_loop (S fuel) url opts attempt w) (Responds resp :: net)
  = run_alone (fetchWithRetry_loop fuel url (sent w opts) (attempt + 1)
                 (after_sleep (waitMs resp attempt) (after_fetch url opts w))) net.
Proof.
  intros H. unfold after_fetch, after_sleep, sent.
  simpl. rewrite !set_header_init, H. reflexivity.
Qed.

(** The fuel [fetchWithRetry] gives is enough: with more of it every run is
    the same, so the branch for used-up fuel is never taken. *)
Lemma fuel_monotone (f1 : nat) :
  forall f2 url opts attempt w net,
    (MAX_RETRIES - attempt <= f1)%nat -> (MAX_RETRIES - attempt <= f2)%nat ->
    run_alone (fetchWithRetry_loop f1 url opts attempt w) net
    = run_alone (fetchWithRetry_loop f2 url opts attempt w) net.
Proof.
  induction f1 as [|f1 IH]; intros f2 url opts attempt w net H1 H2.
  - destruct net as [|[resp|e] net].
    + now rewrite !run_loop_pending.
    + assert (Hc : (status resp =? 429)%Z && (attempt <? MAX_RETRIES)%nat = false).
      { apply andb_false_iff. right. apply Nat.ltb_ge. lia. }
      now rewrite !run_loop_returns.
    + now rewrite !run_loop_rejects.
  - destruct net as [|[resp|e] net].
    + now rewrite !run_loop_pending.
    + destruct ((status resp =? 429)%Z && (attempt <? MAX_RETRIES)%nat) eqn:Hc.
      * destruct f2 as [|f2].
        { apply andb_prop in Hc as [_ Hc]. apply Nat.ltb_lt in Hc. lia. }
        rewrite !run_loop_retries by exact Hc. apply IH; lia.
      * now rewrite !run_loop_returns.
    + now rewrite !run_loop_rejects.
Qed.

Lemma fuel_irrelevant (fuel : nat) url opts attempt w net :
  (MAX_RETRIES - attempt <= fuel)%nat ->
  run_alone (fetchWithRetry_loop fuel url opts attempt w) net
  = run_alone (fetchWithRetry url opts attempt w) net.
Proof. intros H. unfold fetchWithRetry. apply fuel_monotone; [exact H|lia]. Qed.

Lemma retry_cond_true (resp : Response) (attempt : nat) :
  status resp = 429%Z -> (attempt < MAX_RETRIES)%nat ->
  (status resp =? 429)%Z && (attempt <? MAX_RETRIES)%nat = true.
Proof.
  intros -> H. apply andb_true_iff. split; [reflexivity|now apply Nat.ltb_lt].
Qed.

Lemma retry_cond_other (resp : Response) (attempt : nat) :
  status resp <> 429%Z ->
  (status resp =? 429)%Z && (attempt <? MAX_RETRIES)%nat = false.
Proof. intros H. apply andb_false_iff. left. now apply Z.eqb_neq. Qed.

Lemma fetch_log_after_fetch url opts w :
  fetch_log (after_fetch url opts w) = fetch_log w ++ [(url, sent w opts)].
Proof. reflexivity. Qed.

Lemma timer_log_after_fetch url opts w :
  timer_log (after_fetch url opts w) = timer_log w.
Proof. reflexivity. Qed.

Lemma fetch_log_after_sleep ms w : fetch_log (after_sleep ms w) = fetch_log w.
Proof. reflexivity. Qed.

Lemma timer_log_after_sleep ms w : timer_log (after_sleep ms w) = timer_log w ++ [ms].
Proof. reflexivity. Qed.

(** C2 -- The transport retries only on status 429.  Against five 429
    responses in a row it makes exactly [MAX_RETRIES + 1 = 5] requests and
    returns the fifth response to its caller, leaving any further outcome
    unused; a response with another status is returned after one request
    and no wait, at any attempt; a rejected [fetch] is thrown to the caller
    after one request and no wait, at any attempt, also when it follows a
    429. *)
Theorem retries_only_on_429
    (url : string) (opts : RequestInit) (w : World)
    (r0 r1 r2 r3 r4 r : Response) (e : Exn) (attempt : nat)
    (net : list FetchOutcome)
    (H0 : status r0 = 429%Z) (H1 : status r1 = 429%Z) (H2 : status r2 = 429%Z)
    (H3 : status r3 = 429%Z) (H4 : status r4 = 429%Z)
    (Hr : status r <> 429%Z) :
  (exists w',
      run_alone (fetchWithRetry url opts 0 w)
        (Responds r0 :: Responds r1 :: Responds r2 :: Responds r3 :: Responds r4 :: net)
      = (Returned w' r4, net)
      /\ length (fetch_log w') = (length (fetch_log w) + (MAX_RETRIES + 1))%nat)
  /\ (exists w',
      run_alone (fetchWithRetry url opts attempt w) (Responds r :: net)
      = (Returned w' r, net)
      /\ length (fetch_log w') = S (length (fetch_log w))
      /\ timer_log w' = timer_log w)
  /\ (exists w',
      run_alone (fetchWithRetry url opts attempt w) (Rejects e :: net)
      = (Thrown w' e, net)
      /\ length (fetch_log w') = S (length (fetch_log w))
      /\ timer_log w' = timer_log w)
  /\ (exists w',
      run_alone (fetchWithRetry url opts 0 w) (Responds r0 :: Rejects e :: net)
      = (Thrown w' e, net)
      /\ length (fetch_log w') = (length (fetch_log w) + 2)%nat).
Proof.
  repeat split.
  - unfold fetchWithRetry. simpl Nat.sub.
    rewrite run_loop_retries by (apply retry_cond_true; [assumption|unfold MAX_RETRIES; lia]).
    rewrite run_loop_retries by (apply retry_cond_true; [assumption|unfold MAX_RETRIES; simpl; lia]).
    rewrite run_loop_retries by (apply retry_cond_true; [assumption|unfold MAX_RETRIES; simpl; lia]).
    rewrite run_loop_retries by (apply retry_cond_true; [assumption|unfold MAX_RETRIES; simpl; lia]).
    rewrite run_loop_returns by (apply andb_false_iff; right; reflexivity).
    eexists. split; [reflexivity|].
    rewrite !fetch_log_after_fetch, !fetch_log_after_sleep, !fetch_log_after_fetch.
    repeat (rewrite ?fetch_log_after_sleep, ?fetch_log_after_fetch).
    rewrite !length_app. simpl. unfold MAX_RETRIES. lia.
  - unfold fetchWithRetry.
    rewrite run_loop_returns by (now apply retry_cond_other).
    eexists. split; [reflexivity|]. split; [|reflexivity].
    rewrite fetch_log_after_fetch, length_app. simpl. lia.
  - unfold fetchWithRetry. rewrite run_loop_rejects.
    eexists. split; [reflexivity|]. split; [|reflexivity].
    rewrite fetch_log_after_fetch, length_app. simpl. lia.
  - unfold fetchWithRetry. simpl Nat.sub.
    rewrite run_loop_retries by (apply retry_cond_true; [assumption|unfold MAX_RETRIES; lia]).
    rewrite run_loop_rejects.
    eexists. split; [reflexivity|].
    rewrite fetch_log_after_fetch, fetch_log_after_sleep, fetch_log_after_fetch.
    rewrite !length_app. simpl. lia.
Qed.

(* --------------------------------------------------------------------- *)
(** *** Backoff waits *)

Lemma parse_digits_value (s : string) :
  forall acc, all_digits s = true ->
    parse_digits acc s = (acc * 10 ^ Z.of_nat (String.length s) + decimal_value s)%Z.
Proof.
  induction s as [|c s IH]; intros acc H; simpl in *.
  - lia.
  - apply andb_prop in H as [Hc Hs]. rewrite Hc, IH by exact Hs.
    replace (Z.of_nat (S (String.length s))) with (Z.succ (Z.of_nat (String.length s))) by lia.
    rewrite Z.pow_succ_r by lia. lia.
Qed.

Lemma digit_not_space_or_sign (c : ascii) :
  is_digit c = true ->
  is_space c = false /\ (nat_of_ascii c =? 45)%nat = false
  /\ (nat_of_ascii c =? 43)%nat = false.
Proof.
  unfold is_digit, is_space. generalize (nat_of_ascii c). intros n H.
  apply andb_prop in H as [H1 H2]. apply Nat.leb_le in H1, H2.
  repeat split.
  - rewrite !orb_false_iff, andb_false_iff, !Nat.leb_gt, !Nat.eqb_neq. lia.
  - apply Nat.eqb_neq. lia.
  - apply Nat.eqb_neq. lia.
Qed.

(** [parseInt] of a string of digits is the number it denotes. *)
Lemma parseInt10_digits (s : string) :
  s <> "" -> all_digits s = true -> parseInt10 s = Num (decimal_value s).
Proof.
  intros Hne Hd. destruct s as [|c s]; [contradiction|].
  pose proof Hd as Hd'. simpl in Hd'. apply andb_prop in Hd' as [Hc _].
  destruct (digit_not_space_or_sign c Hc) as (Hsp & Hm & Hp).
  unfold parseInt10. cbn [skip_space]. rewrite Hsp, Hm, Hp, Hc.
  rewrite parse_digits_value by exact Hd. f_equal. lia.
Qed.

Lemma waitMs_header (resp : Response) (attempt : nat) (s : string) :
  s <> "" -> all_digits s = true ->
  headers_get resp "Retry-After" = Some s ->
  waitMs resp attempt = Num (decimal_value s * 1000).
Proof.
  intros Hne Hd Hra. unfold waitMs. rewrite Hra. simpl.
  destruct s as [|c s]; [contradiction|]. simpl truthy. cbv iota.
  now rewrite parseInt10_digits.
Qed.

Lemma waitMs_no_header (resp : Response) (attempt : nat) :
  headers_get resp "Retry-After" = None ->
  waitMs resp attempt = Num (2 ^ Z.of_nat attempt * 500).
Proof. intros Hra. unfold waitMs. now rewrite Hra. Qed.

(** C5 -- Before a retry that follows a 429, a [Retry-After] header written
    in whole seconds ([s], a string of digits, within the range where
    JavaScript numbers are exact) makes the wait, the delay handed to
    [setTimeout], exactly that many seconds;
    without the header the wait is [500 * 2^attempt] ms, and a submission
    that uses up its retries on responses without the header waits 500,
    1000, 2000 and 4000 ms. *)
Theorem backoff_waits
    (url : string) (opts : RequestInit) (w : World)
    (resp : Response) (attempt : nat) (s : string)
    (rs : list Response) (net : list FetchOutcome)
    (Hne : s <> "") (Hd : all_digits s = true)
    (Hexact : (decimal_value s * 1000 <= 2 ^ 53)%Z)
    (Hra : headers_get resp "Retry-After" = Some s)
    (H429 : status resp = 429%Z) (Hatt : (attempt < MAX_RETRIES)%nat)
    (Hlen : length rs = 5%nat)
    (Hrs : Forall (fun r => status r = 429%Z /\ headers_get r "Retry-After" = None) rs) :
  (exists w' opts',
      run_alone (fetchWithRetry url opts attempt w) [Responds resp]
      = (Waiting w' url opts', [])
      /\ timer_log w' = timer_log w ++ [Num (decimal_value s * 1000)])
  /\ (forall r, In r rs -> waitMs r attempt = Num (500 * 2 ^ Z.of_nat attempt))
  /\ (exists w' r4,
      run_alone (fetchWithRetry url opts 0 w) (map Responds rs ++ net)
      = (Returned w' r4, net)
      /\ timer_log w' = timer_log w ++ [Num 500; Num 1000; Num 2000; Num 4000]).
Proof.
  split; [|split].
  - unfold fetchWithRetry.
    replace (MAX_RETRIES - attempt)%nat with (S (MAX_RETRIES - attempt - 1)) by lia.
    rewrite run_loop_retries by (now apply retry_cond_true).
    rewrite run_loop_pending. do 2 eexists. split; [reflexivity|].
    rewrite timer_log_after_fetch, timer_log_after_sleep, timer_log_after_fetch.
    now rewrite (waitMs_header resp attempt s).
  - intros r Hin. destruct (proj1 (List.Forall_forall _ _) Hrs r Hin) as [_ Hn].
    rewrite waitMs_no_header by exact Hn. f_equal. lia.
  - destruct rs as [|r0 [|r1 [|r2 [|r3 [|r4 [|r5 rs]]]]]]; try discriminate Hlen.
    repeat match goal with
           | H : Forall _ (_ :: _) |- _ => apply List.Forall_cons_iff in H as [[? ?] H]
           end.
    unfold fetchWithRetry. simpl Nat.sub. cbn [map app].
    rewrite run_loop_retries by (apply retry_cond_true; [assumption|unfold MAX_RETRIES; lia]).
    rewrite run_loop_retries by (apply retry_cond_true; [assumption|unfold MAX_RETRIES; simpl; lia]).
    rewrite run_loop_retries by (apply retry_cond_true; [assumption|unfold MAX_RETRIES; simpl; lia]).
    rewrite run_loop_retries by (apply retry_cond_true; [assumption|unfold MAX_RETRIES; simpl; lia]).
    rewrite run_loop_returns by (apply andb_false_iff; right; reflexivity).
    do 2 eexists. split; [reflexivity|].
    repeat (rewrite ?timer_log_after_sleep, ?timer_log_after_fetch).
    rewrite !waitMs_no_header by assumption.
    rewrite <- !app_assoc. reflexivity.
Qed.

(* --------------------------------------------------------------------- *)
(** *** Running composed calls *)

Lemma run_bind {A B : Type} (r : Res A) (f : A -> M B) :
  forall net,
    run_alone (res_bind r f) net
    = match run_alone r net with
      | (Returned w a, net') => run_alone (f a w) net'
      | (Thrown w e, net') => (Thrown w e, net')
      | (Waiting w url opts, net') => (Waiting w url opts, net')
      end.
Proof.
  induction r as [w a|w e|w url opts k IH|w ms k IH|w resp k IH]; intros net; simpl.
  - reflexivity.
  - reflexivity.
  - destruct net as [|o net]; [reflexivity|apply IH].
  - apply IH.
  - apply IH.
Qed.

Lemma run_catch {A : Type} (r : Res A) (h : Exn -> M A) :
  forall net,
    run_alone (res_catch r h) net
    = match run_alone r net with
      | (Returned w a, net') => (Returned w a, net')
      | (Thrown w e, net') => run_alone (h e w) net'
      | (Waiting w url opts, net') => (Waiting w url opts, net')
      end.
Proof.
  induction r as [w a|w e|w url opts k IH|w ms k IH|w resp k IH]; intros net; simpl.
  - reflexivity.
  - reflexivity.
  - destruct net as [|o net]; [reflexivity|apply IH].
  - apply IH.
  - apply IH.
Qed.

Lemma run_finally {A : Type} (r : Res A) (fin : World -> World) :
  forall net,
    run_alone (res_finally r fin) net
    = match run_alone r net with
      | (Returned w a, net') => (Returned (fin w) a, net')
      | (Thrown w e, net') => (Thrown (fin w) e, net')
      | (Waiting w url opts, net') => (Waiting w url opts, net')
      end.
Proof.
  induction r as [w a|w e|w url opts k IH|w ms k IH|w resp k IH]; intros net; simpl.
  - reflexivity.
  - reflexivity.
  - destruct net as [|o net]; [reflexivity|apply IH].
  - apply IH.
  - apply IH.
Qed.

Lemma run_fetchWithRetry_pending url opts attempt w :
  run_alone (fetchWithRetry url opts attempt w) []
  = (Waiting (after_fetch url opts w) url (sent w opts), []).
Proof. apply run_loop_pending. Qed.

Lemma run_fetchWithRetry_rejects url opts attempt w e net :
  run_alone (fetchWithRetry url opts attempt w) (Rejects e :: net)
  = (Thrown (after_fetch url opts w) e, net).
Proof. apply run_loop_rejects. Qed.

Lemma run_fetchWithRetry_returns url opts attempt w resp net :
  (status resp =? 429)%Z && (attempt <? MAX_RETRIES)%nat = false ->
  run_alone (fetchWithRetry url opts attempt w) (Responds resp :: net)
  = (Returned (after_fetch url opts w) resp, net).
Proof. apply run_loop_returns. Qed.

Lemma run_fetchWithRetry_retries url opts attempt w resp net :
  (status resp =? 429)%Z && (attempt <? MAX_RETRIES)%nat = true ->
  run_alone (fetchWithRetry url opts attempt w) (Responds resp :: net)
  = run_alone (fetchWithRetry url (sent w opts) (attempt + 1)
                 (after_sleep (waitMs resp attempt) (after_fetch url opts w))) net.
Proof.
  intros H. unfold fetchWithRetry.
  assert (Hlt : (attempt < MAX_RETRIES)%nat)
    by (apply andb_prop in H as [_ H]; now apply Nat.ltb_lt).
  replace (MAX_RETRIES - attempt)%nat with (S (MAX_RETRIES - (attempt + 1))) by lia.
  now apply run_loop_retries.
Qed.

#[local] Arguments fetchWithRetry : simpl never.
#[local] Arguments String.eqb : simpl never.

(* --------------------------------------------------------------------- *)
(** *** One submission, step by step *)

Section Submission.

Context `{codec : JSONCodec}.

Lemma bind_read {A B : Type} (g : World -> A) (f : A -> M B) (w : World) :
  bind (read g) f w = f (g w) w.
Proof. reflexivity. Qed.

Lemma bind_write {B : Type} (g : World -> World) (f : unit -> M B) (w : World) :
  bind (write g) f w = f tt (g w).
Proof. reflexivity. Qed.

Lemma send_request_eq messageText file intent w :
  send_request messageText file intent w
  = fetchWithRetry API_CHAT (request_opts messageText file intent w) 0 w.
Proof. destruct file; reflexivity. Qed.

(** Handling a response ends normally, except for a body that is [null]:
    there the first member read throws, before anything is shown. *)
Lemma run_handle_response (resp : Response) (w : World) net :
  run_alone (handle_response resp w) net
  = if null_body resp then (Thrown w null_body_error, net)
    else (Returned (handled resp w) tt, net).
Proof.
  unfold handle_response, handled, rendered, adoptable, null_body, bind, try_catch,
    resp_json, member.
  destruct resp as [st stx hd [[|[rp sid er]]|]]; simpl.
  - destruct (ok _); reflexivity.
  - destruct (ok _); simpl.
    + destruct rp as [[|c rp]|], sid as [[|c' sid]|]; simpl; try reflexivity.
      all: destruct (decide _) as [Heq|Hne]; simpl.
      all: try (rewrite Heq, String.eqb_refl; reflexivity).
      all: apply String.eqb_neq in Hne; unfold appendMessage; simpl; rewrite Hne;
        reflexivity.
    + destruct er as [[|c er]|]; simpl; try reflexivity.
      all: destruct stx; reflexivity.
  - destruct (ok _); simpl; [reflexivity|].
    destruct stx; reflexivity.
Qed.

(** A submission that is accepted runs the transport, then deals with what
    the transport gave: a response, or the error it threw; the flag is
    cleared either way. *)
Lemma run_send (messageText : string) (file : option File) (intent : option string)
    (w : World) net :
  inFlight w = false ->
  truthy messageText || bool_decide (is_Some file) = true ->
  run_alone (sendMessageToServer messageText file intent w) net
  = match run_alone (fetchWithRetry API_CHAT
                       (request_opts messageText file intent (started messageText file w))
                       0 (started messageText file w)) net with
    | (Returned w2 resp, net') => (Returned (set_inFlight false (finished resp w2)) tt, net')
    | (Thrown w2 e, net') => (Returned (set_inFlight false (reported e w2)) tt, net')
    | (Waiting w2 url opts, net') => (Waiting w2 url opts, net')
    end.
Proof.
  intros Hidle Hvalid.
  unfold sendMessageToServer. rewrite bind_read, Hidle.
  apply orb_true_iff in Hvalid.
  replace (negb (truthy messageText) && negb (bool_decide (is_Some file))) with false
    by (destruct Hvalid as [-> | ->]; simpl; rewrite ?andb_false_r; reflexivity).
  cbv iota. rewrite !bind_write. fold (started messageText file w).
  unfold try_finally, try_catch.
  rewrite run_finally, run_catch. unfold bind at 1. rewrite run_bind, send_request_eq.
  destruct (run_alone _ net) as [[w2 resp|w2 e|w2 url opts] net'].
  - rewrite run_handle_response. unfold finished. now destruct (null_body resp).
  - reflexivity.
  - reflexivity.
Qed.

(** A single response that is not a 429 ends the submission. *)
Lemma run_send_one (messageText : string) (file : option File) (intent : option string)
    (w : World) (resp : Response) net :
  inFlight w = false ->
  truthy messageText || bool_decide (is_Some file) = true ->
  status resp <> 429%Z ->
  run_alone (sendMessageToServer messageText file intent w) (Responds resp :: net)
  = (Returned
       (set_inFlight false
          (finished resp
             (after_fetch API_CHAT
                (request_opts messageText file intent (started messageText file w))
                (started messageText file w))))
       tt, net).
Proof.
  intros Hidle Hvalid Hst. rewrite run_send by assumption.
  now rewrite run_fetchWithRetry_returns by (now apply retry_cond_other).
Qed.

Lemma messages_handled (resp : Response) (w : World) :
  messages (handled resp w) = messages w ++ [{| sender := bot; text := rendered resp |}].
Proof. unfold handled. destruct (adoptable _ _); reflexivity. Qed.

(* --------------------------------------------------------------------- *)
(** *** Request composition *)

Lemma token_truthy (w : World) (tok : string) : token w = Some tok -> truthy tok = true.
Proof.
  unfold token.
  destruct (truthy_opt (meta_token w)) eqn:E1; [intros H; rewrite H in E1; exact E1|].
  destruct (truthy_opt (CHAT_WIDGET_TOKEN w)) eqn:E2; [intros H; rewrite H in E2; exact E2|].
  discriminate.
Qed.

(** On an [opts] object without a bearer header, [fetchWithRetry] attaches
    exactly the transport headers. *)
Lemma sent_fresh (w : World) (opts : RequestInit) :
  opts_headers opts !! "Authorization" = None ->
  sent w opts = {| method := method opts;
                   headers := Some (transport_headers w (opts_headers opts));
                   body := body opts |}.
Proof.
  intros Hno. unfold sent, transport_headers, set_header. cbn [method headers body].
  repeat match goal with
         | |- context [opts_headers {| method := ?m; headers := Some ?h; body := ?b |}] =>
             change (opts_headers {| method := m; headers := Some h; body := b |}) with h
         end.
  rewrite lookup_insert_ne by discriminate. rewrite Hno. cbn [truthy_opt negb].
  rewrite andb_true_r.
  destruct (token w) as [tok|] eqn:Et.
  - cbn [truthy_opt default]. rewrite (token_truthy w tok Et). reflexivity.
  - reflexivity.
Qed.

Lemma transport_headers_started messageText file w base :
  transport_headers (started messageText file w) base = transport_headers w base.
Proof. reflexivity. Qed.

(** C9 -- Request composition.  With a file the body is multipart and holds
    [file], [session_id], [message] (the empty string when there is no
    text), [language], and [intent] only when an intent is given (non-null
    and non-empty); without a file the body is the JSON object
    [{session_id, message, language, intent}] with [intent] null when none
    is given, under a JSON content-type header.  Both requests go to the
    chat endpoint by POST with the same transport headers:
    [X-Client-Session] with the id of the current session and, when a token
    is available, [Authorization: Bearer <token>]. *)
Theorem request_composition
    (textWithFile text : string) (f : File) (intent : option string) (w : World)
    (Hidle : inFlight w = false) (Htext : truthy text = true) :
  (exists w',
      run_alone (sendMessageToServer textWithFile (Some f) intent w) []
      = (Waiting w' API_CHAT
           {| method := "POST";
              headers := Some (transport_headers w ∅);
              body := BodyFormData
                ([("file", FormFile f);
                  ("session_id", FormText (session_id (session w)));
                  ("message", FormText textWithFile);
                  ("language", FormText (language w))]
                 ++ match intent with
                    | Some (String c s) => [("intent", FormText (String c s))]
                    | _ => []
                    end) |}, []))
  /\ (exists w',
      run_alone (sendMessageToServer text None intent w) []
      = (Waiting w' API_CHAT
           {| method := "POST";
              headers := Some (transport_headers w {["Content-Type" := "application/json"]});
              body := BodyJSON
                [("session_id", JSONString (session_id (session w)));
                 ("message", JSONString text);
                 ("language", JSONString (language w));
                 ("intent", match intent with
                            | Some (String c s) => JSONString (String c s)
                            | _ => JSONNull
                            end)] |}, []))
  /\ (forall base : gmap string string,
      transport_headers w base !! "X-Client-Session" = Some (session_id (session w))
      /\ transport_headers w base !! "Authorization"
         = match token w with
           | Some tok => Some ("Bearer " +:+ tok)
           | None => base !! "Authorization"
           end
      /\ transport_headers w base !! "Content-Type" = base !! "Content-Type").
Proof.
  split; [|split].
  - rewrite run_send, run_fetchWithRetry_pending by (assumption || apply orb_true_r).
    rewrite sent_fresh by reflexivity.
    eexists. f_equal. f_equal.
    unfold request_opts, form_data. cbn [method headers body opts_headers default].
    rewrite transport_headers_started. f_equal. f_equal.
    destruct textWithFile, intent as [[|c s]|]; reflexivity.
  - rewrite run_send, run_fetchWithRetry_pending
      by (assumption || (rewrite Htext; reflexivity)).
    rewrite sent_fresh by reflexivity.
    eexists. f_equal. f_equal.
    unfold request_opts, json_body. cbn [method headers body opts_headers default].
    rewrite transport_headers_started. f_equal. f_equal.
    destruct intent as [[|c s]|]; reflexivity.
  - intros base. unfold transport_headers. cbv zeta.
    destruct (token w) as [tok|]; repeat split.
    + rewrite lookup_insert_ne by discriminate. apply lookup_insert_eq.
    + apply lookup_insert_eq.
    + now rewrite !lookup_insert_ne by discriminate.
    + apply lookup_insert_eq.
    + now rewrite lookup_insert_ne by discriminate.
    + now rewrite lookup_insert_ne by discriminate.
Qed.

(* --------------------------------------------------------------------- *)
(** *** Session adoption *)

Lemma ok_not_429 (resp : Response) : ok resp = true -> status resp <> 429%Z.
Proof. unfold ok. intros H. apply andb_prop in H as [_ H]. apply Z.leb_le in H. lia. Qed.

Lemma adoptable_new (resp : Response) (d : Data.t) (new current : string) :
  ok resp = true -> json resp = Some (ParsedValue d) -> Data.session_id d = Some new ->
  new <> "" -> new <> current ->
  adoptable resp current = Some new.
Proof.
  intros Hok Hj Hs Hne Hd. unfold adoptable. rewrite Hok, Hj.
  destruct d as [rp sid er]. simpl in Hs. subst sid.
  destruct new as [|c s]; [contradiction|].
  now destruct (decide _).
Qed.

Lemma adoptable_same (resp : Response) (current : string) :
  match json resp with
  | Some (ParsedValue d) => Data.session_id d = None \/ Data.session_id d = Some ""
                            \/ Data.session_id d = Some current
  | Some ParsedNull => True
  | None => True
  end ->
  adoptable resp current = None.
Proof.
  intros H. unfold adoptable. destruct (ok resp); [|reflexivity].
  destruct (json resp) as [[|[rp sid er]]|]; [reflexivity| |reflexivity].
  simpl in H. destruct H as [-> | [-> | ->]]; try reflexivity.
  destruct current as [|c s]; [reflexivity|]. now destruct (decide _).
Qed.

(** Every request carries the id of the session of the moment. *)
Lemma sent_session_header (w : World) (opts : RequestInit) :
  opts_headers (sent w opts) !! "X-Client-Session" = Some (session_id (session w)).
Proof.
  unfold sent. destruct (_ && _); unfold set_header;
    repeat match goal with
           | |- context [opts_headers {| method := ?m; headers := Some ?h; body := ?b |}] =>
               change (opts_headers {| method := m; headers := Some h; body := b |}) with h
           end.
  - rewrite lookup_insert_ne by discriminate. apply lookup_insert_eq.
  - apply lookup_insert_eq.
Qed.

(** C6 -- Session adoption.  After a response with a success status whose
    [session_id] is given and differs from the current id, the id of the
    session is replaced, its [created_at] is kept, the session is written to
    [localStorage] in the same turn, and every later submission sends the
    new id in [X-Client-Session].  When the [session_id] of the response is
    absent (or the body did not parse) or equals the current id, the
    session and [localStorage] stay as they were. *)
Theorem session_adoption
    (messageText : string) (file : option File) (intent : option string)
    (w : World) (net : list FetchOutcome)
    (r_new r_same : Response) (d : Data.t) (new : string)
    (Hidle : inFlight w = false)
    (Hvalid : truthy messageText || bool_decide (is_Some file) = true)
    (Hok : ok r_new = true) (Hjson : json r_new = Some (ParsedValue d))
    (Hsid : Data.session_id d = Some new)
    (Hne : new <> "") (Hdiff : new <> session_id (session w))
    (Hok' : ok r_same = true)
    (Hsame : match json r_same with
             | Some (ParsedValue d') =>
                 Data.session_id d' = None \/ Data.session_id d' = Some ""
                 \/ Data.session_id d' = Some (session_id (session w))
             | Some ParsedNull => True
             | None => True
             end) :
  (exists w',
      run_alone (sendMessageToServer messageText file intent w) (Responds r_new :: net)
      = (Returned w' tt, net)
      /\ session w' = {| session_id := new; created_at := created_at (session w) |}
      /\ localStorage w' = <[STORAGE_KEY := JSON_stringify (session w')]> (localStorage w)
      /\ JSON_parse <$> (localStorage w' !! STORAGE_KEY) = Some (Some (session w'))
      /\ inFlight w' = false
      /\ forall text2 file2 intent2,
           truthy text2 || bool_decide (is_Some file2) = true ->
           exists w'' opts,
             run_alone (sendMessageToServer text2 file2 intent2 w') []
             = (Waiting w'' API_CHAT opts, [])
             /\ opts_headers opts !! "X-Client-Session" = Some new)
  /\ (exists w',
      run_alone (sendMessageToServer messageText file intent w) (Responds r_same :: net)
      = (Returned w' tt, net)
      /\ session w' = session w
      /\ localStorage w' = localStorage w).
Proof.
  split.
  - rewrite run_send_one by (try assumption; now apply ok_not_429).
    unfold finished, null_body. rewrite Hjson.
    eexists. split; [reflexivity|].
    set (w2 := after_fetch _ _ _).
    assert (Hw2 : session w2 = session w /\ localStorage w2 = localStorage w)
      by (split; reflexivity).
    destruct Hw2 as [Hs2 Hl2].
    assert (Had : adoptable r_new (session_id (session w2)) = Some new)
      by (rewrite Hs2; now apply (adoptable_new r_new d)).
    assert (Hsess : session (set_inFlight false (handled r_new w2))
                    = {| session_id := new; created_at := created_at (session w) |}).
    { unfold handled. rewrite Had, Hs2. reflexivity. }
    assert (Hls : localStorage (set_inFlight false (handled r_new w2))
                  = <[STORAGE_KEY := JSON_stringify
                        {| session_id := new; created_at := created_at (session w) |}]>
                      (localStorage w)).
    { unfold handled. rewrite Had, Hs2, <- Hl2. reflexivity. }
    rewrite Hsess, Hls. repeat split.
    + rewrite lookup_insert_eq. simpl. now rewrite JSON_parse_stringify.
    + intros text2 file2 intent2 Hv2.
      rewrite run_send, run_fetchWithRetry_pending by (reflexivity || assumption).
      do 2 eexists. split; [reflexivity|].
      rewrite sent_session_header.
      change (session (started text2 file2 ?x)) with (session x).
      now rewrite Hsess.
  - rewrite run_send_one by (try assumption; now apply ok_not_429).
    eexists. split; [reflexivity|].
    set (w2 := after_fetch _ _ _).
    unfold finished. destruct (null_body r_same); [split; reflexivity|].
    assert (Had : adoptable r_same (session_id (session w2)) = None)
      by (now apply adoptable_same).
    unfold handled. rewrite Had. split; reflexivity.
Qed.

(* --------------------------------------------------------------------- *)
(** *** The session store *)

Lemma getSession_absent (random36 now : string) (w : World) :
  truthy_opt (localStorage w !! STORAGE_KEY) = false ->
  getSession random36 now w
  = Ret (set_localStorage
           (<[STORAGE_KEY := JSON_stringify {| session_id := genSessionId random36;
                                               created_at := now |}]>
              (localStorage w)) w)
        {| session_id := genSessionId random36; created_at := now |}.
Proof.
  intros H. unfold getSession. rewrite bind_read, H. cbn [negb].
  unfold bind at 1. unfold bind at 1. cbn [write res_bind ret].
  rewrite JSON_parse_stringify. reflexivity.
Qed.

Lemma getSession_stored (random36 now : string) (w : World) (t : string) :
  localStorage w !! STORAGE_KEY = Some t -> truthy t = true ->
  getSession random36 now w
  = match JSON_parse t with
    | Some v => Ret w v
    | None => Throw w (SyntaxError "JSON.parse")
    end.
Proof.
  intros H Ht. unfold getSession. rewrite bind_read, H. cbn [truthy_opt].
  rewrite Ht. cbn [negb]. change (default "" (Some t)) with t.
  unfold bind, ret. cbn [res_bind].
  destruct (JSON_parse t); reflexivity.
Qed.

(** C4, as the code has it -- [getSession] synthesizes a session (a fresh
    id, the time of the call), writes it to [localStorage] and returns it
    when nothing is stored under the key (or the empty string is).  When the
    stored text does not parse, [JSON.parse] throws: [getSession] throws the
    error to its caller and writes nothing.  Whenever a call returns a
    session, the next call returns the same session, hence the same
    [session_id]. *)
Theorem getSession_cases
    (random36 now random36' now' : string) (w_none w_bad w : World) (t : string)
    (Hnone : truthy_opt (localStorage w_none !! STORAGE_KEY) = false)
    (Hbad : localStorage w_bad !! STORAGE_KEY = Some t)
    (Ht : truthy t = true) (Hparse : JSON_parse t = None) :
  (exists w' s,
      getSession random36 now w_none = Ret w' s
      /\ s = {| session_id := "sess-" +:+ substring 2 8 random36; created_at := now |}
      /\ localStorage w' = <[STORAGE_KEY := JSON_stringify s]> (localStorage w_none)
      /\ JSON_parse <$> (localStorage w' !! STORAGE_KEY) = Some (Some s))
  /\ getSession random36 now w_bad = Throw w_bad (SyntaxError "JSON.parse")
  /\ (forall w1 s1,
      getSession random36 now w = Ret w1 s1 ->
      getSession random36' now' w1 = Ret w1 s1).
Proof.
  split; [|split].
  - rewrite getSession_absent by exact Hnone. do 2 eexists.
    split; [reflexivity|]. split; [reflexivity|]. split; [reflexivity|].
    cbn [localStorage set_localStorage]. rewrite lookup_insert_eq. simpl.
    now rewrite JSON_parse_stringify.
  - rewrite (getSession_stored _ _ _ t) by assumption. now rewrite Hparse.
  - intros w1 s1 H1.
    destruct (truthy_opt (localStorage w !! STORAGE_KEY)) eqn:E.
    + destruct (localStorage w !! STORAGE_KEY) as [t0|] eqn:El; [|discriminate].
      rewrite (getSession_stored _ _ _ t0) in H1 by assumption.
      destruct (JSON_parse t0) as [v|] eqn:Ep; [|discriminate].
      injection H1 as <- <-.
      rewrite (getSession_stored _ _ _ t0) by assumption. now rewrite Ep.
    + rewrite getSession_absent in H1 by exact E. injection H1 as <- <-.
      rewrite (getSession_stored _ _ _
                 (JSON_stringify {| session_id := genSessionId random36;
                                    created_at := now |})).
      * now rewrite JSON_parse_stringify.
      * cbn [localStorage set_localStorage]. apply lookup_insert_eq.
      * apply JSON_stringify_truthy.
Qed.

End Submission.

(* --------------------------------------------------------------------- *)
(** *** The in-flight flag *)

Lemma busy_bind {A B : Type} (r : Res A) (f : A -> M B) :
  busy r -> (forall a, keeps (f a)) -> busy (res_bind r f).
Proof.
  intros Hr Hf. induction Hr; simpl.
  - now apply Hf.
  - now constructor.
  - constructor; auto.
  - constructor; auto.
  - constructor; auto.
Qed.

Lemma busy_catch {A : Type} (r : Res A) (h : Exn -> M A) :
  busy r -> (forall e, keeps (h e)) -> busy (res_catch r h).
Proof.
  intros Hr Hh. induction Hr; simpl.
  - now constructor.
  - now apply Hh.
  - constructor; auto.
  - constructor; auto.
  - constructor; auto.
Qed.

(** [finally { inFlight = false }] clears the flag on every way out. *)
Lemma releases_finally {A : Type} (r : Res A) :
  busy r -> releases (res_finally r (set_inFlight false)).
Proof.
  intros Hr. induction Hr; simpl.
  - now constructor.
  - now constructor.
  - constructor; auto.
  - constructor; auto.
  - constructor; auto.
Qed.

Lemma keeps_ret {A : Type} (a : A) : keeps (ret a).
Proof. intros w Hw. now constructor. Qed.

Lemma keeps_bind {A B : Type} (m : M A) (f : A -> M B) :
  keeps m -> (forall a, keeps (f a)) -> keeps (bind m f).
Proof. intros Hm Hf w Hw. unfold bind. apply busy_bind; auto. Qed.

Lemma keeps_catch {A : Type} (m : M A) (h : Exn -> M A) :
  keeps m -> (forall e, keeps (h e)) -> keeps (try_catch m h).
Proof. intros Hm Hh w Hw. unfold try_catch. apply busy_catch; auto. Qed.

Lemma keeps_read {A : Type} (g : World -> A) : keeps (read g).
Proof. intros w Hw. now constructor. Qed.

Lemma keeps_write (g : World -> World) :
  (forall w, inFlight (g w) = inFlight w) -> keeps (write g).
Proof. intros Hg w Hw. constructor. now rewrite Hg. Qed.

Lemma keeps_fetch url opts : keeps (fetch url opts).
Proof.
  intros w Hw. constructor; [exact Hw|].
  intros [resp|e] w' Hw'; now constructor.
Qed.

Lemma keeps_sleep ms : keeps (sleep ms).
Proof. intros w Hw. constructor; [exact Hw|]. intros w' Hw'. now constructor. Qed.

Lemma keeps_resp_json resp : keeps (resp_json resp).
Proof.
  intros w Hw. constructor; [exact Hw|].
  intros [d|] w' Hw'; now constructor.
Qed.

Lemma keeps_getToken : keeps getToken.
Proof. apply keeps_read. Qed.

Lemma keeps_member f data : keeps (member f data).
Proof. intros w Hw. destruct data; now constructor. Qed.

Create HintDb keeps discriminated.
#[local] Hint Resolve keeps_ret keeps_read keeps_fetch keeps_sleep keeps_resp_json
  keeps_getToken keeps_member : keeps.

(** Break a computation into its statements. *)
Ltac keeps_step :=
  match goal with
  | |- keeps (bind _ _) => apply keeps_bind; [|intros ?]
  | |- keeps (try_catch _ _) => apply keeps_catch; [|intros ?]
  | |- keeps (write _) => apply keeps_write; intros ?; reflexivity
  | |- keeps (if ?b then _ else _) => destruct b
  | |- keeps (match ?x with _ => _ end) => destruct x
  | |- keeps _ => solve [auto with keeps]
  end.

Lemma keeps_loop (fuel : nat) :
  forall url opts attempt, keeps (fetchWithRetry_loop fuel url opts attempt).
Proof.
  induction fuel as [|fuel IH]; intros url opts attempt; cbn [fetchWithRetry_loop];
    repeat keeps_step.
Qed.

Lemma keeps_fetchWithRetry url opts attempt : keeps (fetchWithRetry url opts attempt).
Proof. apply keeps_loop. Qed.

#[local] Hint Resolve keeps_fetchWithRetry : keeps.

(* --------------------------------------------------------------------- *)
(** *** Worlds that differ by busy notices only *)

Lemma same_outcome_refl (w : World) : same_outcome w w.
Proof. split; reflexivity. Qed.

Lemma same_outcome_notice (w1 w2 : World) :
  same_outcome w1 w2 -> same_outcome w1 (appendMessage bot busy_notice w2).
Proof.
  intros [H1 H2]. split; [exact H1|].
  unfold transcript, appendMessage. cbn [messages set_messages].
  rewrite List.filter_app. cbn [List.filter is_notice sender text].
  rewrite String.eqb_refl. cbn [negb]. now rewrite app_nil_r.
Qed.

(** A state update that neither reads nor writes the message list keeps
    the relation. *)
Lemma same_outcome_frame (g : World -> World) (w1 w2 : World) :
  (forall l w, g (set_messages l w) = set_messages l (g w)) ->
  (forall w, messages (g w) = messages w) ->
  same_outcome w1 w2 -> same_outcome (g w1) (g w2).
Proof.
  intros Hc Hm [H1 H2]. split.
  - now rewrite <- !Hc, H1.
  - unfold transcript. rewrite !Hm. exact H2.
Qed.

Lemma same_outcome_append sd txt (w1 w2 : World) :
  same_outcome w1 w2 -> same_outcome (appendMessage sd txt w1) (appendMessage sd txt w2).
Proof.
  intros [H1 H2]. split; [exact H1|].
  unfold transcript, appendMessage in *. cbn [messages set_messages].
  now rewrite !List.filter_app, H2.
Qed.

Lemma same_outcome_read {A : Type} (g : World -> A) (w1 w2 : World) :
  (forall w, g (set_messages [] w) = g w) ->
  same_outcome w1 w2 -> g w1 = g w2.
Proof. intros Hg [H _]. now rewrite <- (Hg w1), H, Hg. Qed.

Lemma sim_bind {A B : Type} (r1 r2 : Res A) (f : A -> M B) :
  sim r1 r2 -> (forall a, respects (f a)) -> sim (res_bind r1 f) (res_bind r2 f).
Proof.
  intros Hr Hf. induction Hr; simpl.
  - now apply Hf.
  - now constructor.
  - constructor; auto.
  - constructor; auto.
  - constructor; auto.
Qed.

Lemma sim_catch {A : Type} (r1 r2 : Res A) (h : Exn -> M A) :
  sim r1 r2 -> (forall e, respects (h e)) -> sim (res_catch r1 h) (res_catch r2 h).
Proof.
  intros Hr Hh. induction Hr; simpl.
  - now constructor.
  - now apply Hh.
  - constructor; auto.
  - constructor; auto.
  - constructor; auto.
Qed.

Lemma sim_finally {A : Type} (r1 r2 : Res A) (fin : World -> World) :
  sim r1 r2 ->
  (forall w1 w2, same_outcome w1 w2 -> same_outcome (fin w1) (fin w2)) ->
  sim (res_finally r1 fin) (res_finally r2 fin).
Proof.
  intros Hr Hfin. induction Hr; simpl.
  - constructor. auto.
  - constructor. auto.
  - constructor; auto.
  - constructor; auto.
  - constructor; auto.
Qed.

Lemma respects_ret {A : Type} (a : A) : respects (ret a).
Proof. intros w1 w2 H. now constructor. Qed.

Lemma respects_bind {A B : Type} (m : M A) (f : A -> M B) :
  respects m -> (forall a, respects (f a)) -> respects (bind m f).
Proof. intros Hm Hf w1 w2 H. unfold bind. apply sim_bind; auto. Qed.

Lemma respects_catch {A : Type} (m : M A) (h : Exn -> M A) :
  respects m -> (forall e, respects (h e)) -> respects (try_catch m h).
Proof. intros Hm Hh w1 w2 H. unfold try_catch. apply sim_catch; auto. Qed.

Lemma respects_finally {A : Type} (m : M A) (fin : World -> World) :
  respects m ->
  (forall w1 w2, same_outcome w1 w2 -> same_outcome (fin w1) (fin w2)) ->
  respects (try_finally m fin).
Proof. intros Hm Hfin w1 w2 H. unfold try_finally. apply sim_finally; auto. Qed.

Lemma respects_read {A : Type} (g : World -> A) :
  (forall w, g (set_messages [] w) = g w) -> respects (read g).
Proof.
  intros Hg w1 w2 H. unfold read.
  rewrite (same_outcome_read g w1 w2 Hg H). now constructor.
Qed.

Lemma respects_write (g : World -> World) :
  (forall l w, g (set_messages l w) = set_messages l (g w)) ->
  (forall w, messages (g w) = messages w) ->
  respects (write g).
Proof. intros Hc Hm w1 w2 H. constructor. now apply same_outcome_frame. Qed.

Lemma respects_appendMessage sd txt : respects (write (appendMessage sd txt)).
Proof. intros w1 w2 H. constructor. now apply same_outcome_append. Qed.

Lemma respects_fetch url opts : respects (fetch url opts).
Proof.
  intros w1 w2 H. unfold fetch.
  rewrite (same_outcome_read fetch_log w1 w2 (fun _ => eq_refl) H).
  constructor.
  - apply (same_outcome_frame (set_fetch_log _)); [reflexivity|reflexivity|exact H].
  - intros [resp|e] w1' w2' H'; now constructor.
Qed.

Lemma respects_sleep ms : respects (sleep ms).
Proof.
  intros w1 w2 H. unfold sleep.
  rewrite (same_outcome_read timer_log w1 w2 (fun _ => eq_refl) H).
  constructor.
  - apply (same_outcome_frame (set_timer_log _)); [reflexivity|reflexivity|exact H].
  - intros w1' w2' H'. now constructor.
Qed.

Lemma respects_resp_json resp : respects (resp_json resp).
Proof.
  intros w1 w2 H. constructor; [exact H|].
  intros [d|] w1' w2' H'; now constructor.
Qed.

Lemma respects_member f data : respects (member f data).
Proof. intros w1 w2 Hw. destruct data; now constructor. Qed.

Lemma respects_getToken : respects getToken.
Proof. now apply respects_read. Qed.

Create HintDb respects discriminated.
#[local] Hint Resolve respects_ret respects_fetch respects_sleep respects_resp_json
  respects_getToken respects_member respects_appendMessage : respects.

Ltac respects_step :=
  match goal with
  | |- respects (bind _ _) => apply respects_bind; [|intros ?]
  | |- respects (try_catch _ _) => apply respects_catch; [|intros ?]
  | |- respects (read _) => apply respects_read; intros ?; reflexivity
  | |- respects (write (appendMessage _ _)) => apply respects_appendMessage
  | |- respects (write _) => apply respects_write; intros; reflexivity
  | |- respects (if ?b then _ else _) => destruct b
  | |- respects (match ?x with _ => _ end) => destruct x
  | |- respects _ => solve [auto with respects]
  end.

Lemma respects_loop (fuel : nat) :
  forall url opts attempt, respects (fetchWithRetry_loop fuel url opts attempt).
Proof.
  induction fuel as [|fuel IH]; intros url opts attempt; cbn [fetchWithRetry_loop];
    repeat respects_step.
Qed.

Lemma respects_fetchWithRetry url opts attempt :
  respects (fetchWithRetry url opts attempt).
Proof. apply respects_loop. Qed.

#[local] Hint Resolve respects_fetchWithRetry : respects.

Section SingleInFlight.

Context `{codec : JSONCodec}.

Lemma respects_handle_response resp : respects (handle_response resp).
Proof. unfold handle_response. repeat respects_step. Qed.

Lemma respects_send_request messageText file intent :
  respects (send_request messageText file intent).
Proof. unfold send_request. repeat respects_step. Qed.

Lemma respects_send messageText file intent :
  respects (sendMessageToServer messageText file intent).
Proof.
  unfold sendMessageToServer. repeat respects_step.
  apply respects_finally.
  - repeat respects_step.
    + apply respects_send_request.
    + apply respects_handle_response.
  - intros w1 w2 H. now apply (same_outcome_frame (set_inFlight false)).
Qed.

Lemma keeps_handle_response resp : keeps (handle_response resp).
Proof. unfold handle_response. repeat keeps_step. Qed.

Lemma keeps_send_request messageText file intent :
  keeps (send_request messageText file intent).
Proof. unfold send_request. repeat keeps_step. Qed.

(** An accepted submission holds the flag until it ends and then clears
    it. *)
Lemma send_releases (messageText : string) (file : option File)
    (intent : option string) (w : World) :
  inFlight w = false ->
  truthy messageText || bool_decide (is_Some file) = true ->
  releases (sendMessageToServer messageText file intent w).
Proof.
  intros Hidle Hvalid.
  unfold sendMessageToServer. rewrite bind_read, Hidle.
  apply orb_true_iff in Hvalid.
  replace (negb (truthy messageText) && negb (bool_decide (is_Some file))) with false
    by (destruct Hvalid as [-> | ->]; simpl; rewrite ?andb_false_r; reflexivity).
  cbv iota. rewrite !bind_write.
  unfold try_finally. apply releases_finally.
  assert (Hk : keeps (try_catch
                        (bind (send_request messageText file intent) handle_response)
                        (fun err => bind (write (console_error err))
                                      (fun _ => write (appendMessage bot network_error))))).
  { repeat keeps_step.
    - apply keeps_send_request.
    - apply keeps_handle_response. }
  apply Hk. reflexivity.
Qed.

(** The busy guard: with the flag set, a call does nothing but show the
    notice. *)
Lemma send_busy (messageText : string) (file : option File)
    (intent : option string) (w : World) :
  inFlight w = true ->
  sendMessageToServer messageText file intent w
  = Ret (appendMessage bot busy_notice w) tt.
Proof. intros H. unfold sendMessageToServer. rewrite bind_read, H. reflexivity. Qed.

(** Nothing to send: the input gets the focus and that is all. *)
Lemma send_empty (intent : option string) (w : World) :
  inFlight w = false ->
  sendMessageToServer "" None intent w = Ret (focus w) tt.
Proof. intros H. unfold sendMessageToServer. rewrite bind_read, H. reflexivity. Qed.

Lemma invalid_empty (messageText : string) (file : option File) :
  truthy messageText || bool_decide (is_Some file) = false ->
  messageText = "" /\ file = None.
Proof.
  intros H. apply orb_false_iff in H as [H1 H2].
  destruct messageText; [|discriminate]. destruct file; [|easy].
  rewrite bool_decide_eq_false in H2. destruct H2. eauto.
Qed.

Lemma settle_releases (r : Res unit) :
  releases r -> single_in_flight (settle r []).
Proof.
  intros Hr. unfold single_in_flight.
  destruct Hr as [w a H|w e H|w url opts k H Hk|w ms k H Hk|w resp k H Hk];
    cbn [settle world pending]; rewrite H; eauto.
Qed.

Lemma step_single_in_flight (p p' : Page) (ev : Event) :
  single_in_flight p -> step p ev = Some p' -> single_in_flight p'.
Proof.
  unfold single_in_flight at 1. intros Hinv Hstep.
  destruct ev as [messageText file intent|i o|i|i]; cbn [step] in Hstep.
  - injection Hstep as <-.
    destruct (inFlight (world p)) eqn:Hf.
    + rewrite send_busy by exact Hf. unfold single_in_flight.
      cbn [settle world pending appendMessage set_messages inFlight]. now rewrite Hf.
    + rewrite Hinv.
      destruct (truthy messageText || bool_decide (is_Some file)) eqn:Hv.
      * apply settle_releases. now apply send_releases.
      * apply invalid_empty in Hv as [-> ->]. rewrite send_empty by exact Hf.
        unfold single_in_flight. cbn [settle world pending focus set_focus_calls inFlight].
        now rewrite Hf.
  - destruct (inFlight (world p)) eqn:Hf; [|rewrite Hinv in Hstep; discriminate].
    destruct Hinv as (t & Hp & Ht). rewrite Hp in Hstep.
    destruct i as [|i]; [|discriminate]. cbn in Hstep.
    destruct t as [url opts k|ms k|resp k]; try discriminate.
    injection Hstep as <-. apply settle_releases. now apply Ht.
  - destruct (inFlight (world p)) eqn:Hf; [|rewrite Hinv in Hstep; discriminate].
    destruct Hinv as (t & Hp & Ht). rewrite Hp in Hstep.
    destruct i as [|i]; [|discriminate]. cbn in Hstep.
    destruct t as [url opts k|ms k|resp k]; try discriminate.
    injection Hstep as <-. apply settle_releases. now apply Ht.
  - destruct (inFlight (world p)) eqn:Hf; [|rewrite Hinv in Hstep; discriminate].
    destruct Hinv as (t & Hp & Ht). rewrite Hp in Hstep.
    destruct i as [|i]; [|discriminate]. cbn in Hstep.
    destruct t as [url opts k|ms k|resp k]; try discriminate.
    injection Hstep as <-. apply settle_releases. now apply Ht.
Qed.

Lemma steps_single_in_flight (evs : list Event) :
  forall p p', single_in_flight p -> steps p evs = Some p' -> single_in_flight p'.
Proof.
  induction evs as [|ev evs IH]; intros p p' Hinv Hsteps; cbn [steps] in Hsteps.
  - now injection Hsteps as <-.
  - destruct (step p ev) as [p1|] eqn:Hstep; [|discriminate].
    eapply IH; [|exact Hsteps]. eapply step_single_in_flight; eauto.
Qed.

Lemma settle_sim (r1 r2 : Res unit) (o1 o2 : list Task) :
  sim r1 r2 -> Forall2 task_sim o1 o2 -> page_sim (settle r1 o1) (settle r2 o2).
Proof.
  intros Hr Ho. destruct Hr; cbn [settle]; split; cbn [world pending]; auto.
  - apply Forall2_app; [exact Ho|]. repeat constructor. assumption.
  - apply Forall2_app; [exact Ho|]. repeat constructor. assumption.
  - apply Forall2_app; [exact Ho|]. repeat constructor. assumption.
Qed.

Lemma step_sim (p1 p2 p1' : Page) (ev : Event) :
  page_sim p1 p2 -> step p1 ev = Some p1' ->
  exists p2', step p2 ev = Some p2' /\ page_sim p1' p2'.
Proof.
  intros [Hw Hp] Hstep.
  destruct ev as [messageText file intent|i o|i|i]; cbn [step] in *.
  - injection Hstep as <-. eexists. split; [reflexivity|].
    apply settle_sim; [|exact Hp]. now apply respects_send.
  - destruct (pending p1 !! i) as [t1|] eqn:Ht1; [|discriminate].
    destruct (Forall2_lookup_l _ _ _ _ _ Hp Ht1) as (t2 & Ht2 & Hts).
    rewrite Ht2. destruct Hts as [url opts k1 k2 Hk|ms k1 k2 Hk|resp k1 k2 Hk];
      try discriminate.
    injection Hstep as <-. eexists. split; [reflexivity|].
    apply settle_sim; [now apply Hk|now apply Forall2_delete].
  - destruct (pending p1 !! i) as [t1|] eqn:Ht1; [|discriminate].
    destruct (Forall2_lookup_l _ _ _ _ _ Hp Ht1) as (t2 & Ht2 & Hts).
    rewrite Ht2. destruct Hts as [url opts k1 k2 Hk|ms k1 k2 Hk|resp k1 k2 Hk];
      try discriminate.
    injection Hstep as <-. eexists. split; [reflexivity|].
    apply settle_sim; [now apply Hk|now apply Forall2_delete].
  - destruct (pending p1 !! i) as [t1|] eqn:Ht1; [|discriminate].
    destruct (Forall2_lookup_l _ _ _ _ _ Hp Ht1) as (t2 & Ht2 & Hts).
    rewrite Ht2. destruct Hts as [url opts k1 k2 Hk|ms k1 k2 Hk|resp k1 k2 Hk];
      try discriminate.
    injection Hstep as <-. eexists. split; [reflexivity|].
    apply settle_sim; [now apply Hk|now apply Forall2_delete].
Qed.

Lemma steps_sim (evs : list Event) :
  forall p1 p2 p1',
    page_sim p1 p2 -> steps p1 evs = Some p1' ->
    exists p2', steps p2 evs = Some p2' /\ page_sim p1' p2'.
Proof.
  induction evs as [|ev evs IH]; intros p1 p2 p1' Hsim Hsteps; cbn [steps] in *.
  - injection Hsteps as <-. eauto.
  - destruct (step p1 ev) as [q1|] eqn:Hstep; [|discriminate].
    destruct (step_sim _ _ _ _ Hsim Hstep) as (q2 & Hstep2 & Hsim2).
    rewrite Hstep2. eapply IH; eauto.
Qed.

(** Every page that can be reached is related to itself: its pending tasks
    cannot tell apart worlds with the same outcome. *)
Lemma steps_self_sim (evs : list Event) (w0 : World) (p : Page) :
  steps {| world := w0; pending := [] |} evs = Some p -> page_sim p p.
Proof.
  intros Hsteps.
  assert (H0 : page_sim {| world := w0; pending := [] |} {| world := w0; pending := [] |})
    by (split; [apply same_outcome_refl|constructor]).
  destruct (steps_sim evs _ _ _ H0 Hsteps) as (p2 & Hsteps2 & Hsim).
  rewrite Hsteps in Hsteps2. now injection Hsteps2 as <-.
Qed.

(** Where a call that clears its flag ends, the flag is clear; where it
    still waits, the flag is set. *)
Lemma releases_run {A : Type} (r : Res A) :
  releases r ->
  forall net,
    match run_alone r net with
    | (Returned w' _, _) => inFlight w' = false
    | (Thrown w' _, _) => inFlight w' = false
    | (Waiting w' _ _, _) => inFlight w' = true
    end.
Proof.
  intros Hr. induction Hr as [w a H|w e H|w url opts k H Hk IH|w ms k H Hk IH|w resp k H Hk IH];
    intros net; cbn [run_alone].
  - exact H.
  - exact H.
  - destruct net as [|o net]; [exact H|]. now apply IH.
  - now apply IH.
  - now apply IH.
Qed.

(** With more outcomes at hand than retries left, the transport ends. *)
Lemma run_loop_ends (fuel : nat) :
  forall url opts attempt w net,
    (fuel < length net)%nat ->
    match run_alone (fetchWithRetry_loop fuel url opts attempt w) net with
    | (Waiting _ _ _, _) => False
    | _ => True
    end.
Proof.
  induction fuel as [|fuel IH]; intros url opts attempt w net Hlen;
    (destruct net as [|[resp|e] net]; [simpl in Hlen; lia| |now rewrite run_loop_rejects]);
    destruct ((status resp =? 429)%Z && (attempt <? MAX_RETRIES)%nat) eqn:Hc;
    try (now rewrite run_loop_returns).
  - simpl. rewrite !set_header_init, Hc. exact I.
  - rewrite run_loop_retries by exact Hc. apply IH. simpl in Hlen. lia.
Qed.

(** C3 -- Single in flight.  On a page started idle, at any moment [p] when
    a submission is in flight: a new call of [sendMessageToServer] only
    appends the busy notice and returns (it reaches no [await], so it makes
    no network call, and it leaves the session, the storage, the flag and
    the pending submission as they are); whatever happens later ([evs']),
    the page ends with the same outcome with or without that call.  At every
    moment [q] at most one submission is pending, and none is pending
    exactly when the flag is clear.  An accepted submission running against
    any network script [net] never throws: it ends with the flag clear, or
    it still waits with the flag set, which needs a script shorter than
    [MAX_RETRIES + 1]. *)
Theorem single_in_flight_guard
    (w0 : World) (evs evs' evs_q : list Event) (p p1 q : Page)
    (messageText : string) (file : option File) (intent : option string)
    (w : World) (text2 : string) (file2 : option File) (intent2 : option string)
    (net : list FetchOutcome)
    (Hidle0 : inFlight w0 = false)
    (Hreach : steps {| world := w0; pending := [] |} evs = Some p)
    (Hbusy : inFlight (world p) = true)
    (Hlater : steps p evs' = Some p1)
    (Hq : steps {| world := w0; pending := [] |} evs_q = Some q)
    (Hidle : inFlight w = false)
    (Hvalid : truthy text2 || bool_decide (is_Some file2) = true) :
  sendMessageToServer messageText file intent (world p)
  = Ret (appendMessage bot busy_notice (world p)) tt
  /\ step p (Send messageText file intent)
     = Some {| world := appendMessage bot busy_notice (world p); pending := pending p |}
  /\ (exists p2,
        steps p (Send messageText file intent :: evs') = Some p2
        /\ same_outcome (world p1) (world p2)
        /\ length (pending p2) = length (pending p1))
  /\ ((length (pending q) <= 1)%nat
      /\ (pending q = [] <-> inFlight (world q) = false))
  /\ ((exists w' net',
         run_alone (sendMessageToServer text2 file2 intent2 w) net = (Returned w' tt, net')
         /\ inFlight w' = false)
      \/ (exists w' url opts net',
         run_alone (sendMessageToServer text2 file2 intent2 w) net
         = (Waiting w' url opts, net')
         /\ inFlight w' = true /\ (length net < MAX_RETRIES + 1)%nat)).
Proof.
  assert (Hinv0 : single_in_flight {| world := w0; pending := [] |})
    by (unfold single_in_flight; cbn [world pending]; now rewrite Hidle0).
  pose proof (steps_single_in_flight _ _ _ Hinv0 Hq) as Hinvq.
  split; [now apply send_busy|].
  split; [cbn [step]; now rewrite send_busy|].
  split; [|split].
  - cbn [steps step]. rewrite send_busy by exact Hbusy. cbn [settle].
    assert (Hsim : page_sim p {| world := appendMessage bot busy_notice (world p);
                                 pending := pending p |}).
    { destruct (steps_self_sim _ _ _ Hreach) as [Hw Hp]. split; cbn [world pending].
      - now apply same_outcome_notice.
      - exact Hp. }
    destruct (steps_sim _ _ _ _ Hsim Hlater) as (p2 & Hsteps2 & Hw & Hp).
    exists p2. split; [exact Hsteps2|]. split; [exact Hw|].
    symmetry. eapply Forall2_length. exact Hp.
  - unfold single_in_flight in Hinvq.
    destruct (inFlight (world q)).
    + destruct Hinvq as (t1 & -> & _). split; [simpl; lia|]. split; discriminate.
    + rewrite Hinvq. split; [simpl; lia|]. split; reflexivity.
  - pose proof (releases_run _ (send_releases text2 file2 intent2 w Hidle Hvalid) net) as Hrel.
    pose proof (run_send text2 file2 intent2 w net Hidle Hvalid) as Hrun.
    pose proof (run_loop_ends (MAX_RETRIES - 0) API_CHAT
                  (request_opts text2 file2 intent2 (started text2 file2 w)) 0
                  (started text2 file2 w) net) as Hends.
    fold (fetchWithRetry API_CHAT
            (request_opts text2 file2 intent2 (started text2 file2 w)) 0
            (started text2 file2 w)) in Hends.
    rewrite Hrun in Hrel |- *.
    destruct (run_alone (fetchWithRetry _ _ _ _) net) as [[w2 resp|w2 e|w2 url opts] net'].
    + left. eauto.
    + left. eauto.
    + right. exists w2, url, opts, net'. split; [reflexivity|]. split; [exact Hrel|].
      destruct (Nat.lt_ge_cases (length net) (MAX_RETRIES + 1)) as [Hshort|Hlong];
        [exact Hshort|].
      exfalso. apply Hends. unfold MAX_RETRIES in *. simpl in *. lia.
Qed.

End SingleInFlight.

(* --------------------------------------------------------------------- *)
(** *** The results at sample inputs *)

#[local] Existing Instance SessionJSONFacts.codec.

(** Five 429s and then a 500; a 500 and a rejected [fetch] at the third
    attempt; a 429 followed by a rejected [fetch]. *)
Lemma retries_only_on_429_witness :
  (exists w',
      run_alone (fetchWithRetry API_CHAT Samples.post_opts 0 Samples.idle_world)
        (Responds Samples.too_many :: Responds Samples.too_many
         :: Responds Samples.too_many :: Responds Samples.too_many
         :: Responds Samples.too_many :: [Responds Samples.server_error])
      = (Returned w' Samples.too_many, [Responds Samples.server_error])
      /\ length (fetch_log w') = 5%nat)
  /\ (exists w',
      run_alone (fetchWithRetry API_CHAT Samples.post_opts 2 Samples.idle_world)
        [Responds Samples.server_error; Responds Samples.server_error]
      = (Returned w' Samples.server_error, [Responds Samples.server_error])
      /\ length (fetch_log w') = 1%nat
      /\ timer_log w' = [])
  /\ (exists w',
      run_alone (fetchWithRetry API_CHAT Samples.post_opts 2 Samples.idle_world)
        [Rejects Samples.network_down; Responds Samples.server_error]
      = (Thrown w' Samples.network_down, [Responds Samples.server_error])
      /\ length (fetch_log w') = 1%nat
      /\ timer_log w' = [])
  /\ (exists w',
      run_alone (fetchWithRetry API_CHAT Samples.post_opts 0 Samples.idle_world)
        [Responds Samples.too_many; Rejects Samples.network_down;
         Responds Samples.server_error]
      = (Thrown w' Samples.network_down, [Responds Samples.server_error])
      /\ length (fetch_log w') = 2%nat).
Proof.
  apply (retries_only_on_429 API_CHAT Samples.post_opts Samples.idle_world
           Samples.too_many Samples.too_many Samples.too_many Samples.too_many
           Samples.too_many Samples.server_error Samples.network_down 2
           [Responds Samples.server_error]);
    try reflexivity.
  simpl. discriminate.
Defined.

(** [Retry-After: 2] at the first attempt: a wait of exactly 2000 ms, where
    the exponential schedule would give 500. *)
Lemma backoff_waits_witness :
  (exists w' opts',
      run_alone (fetchWithRetry API_CHAT Samples.post_opts 0 Samples.idle_world)
        [Responds Samples.too_many_retry_after_2]
      = (Waiting w' API_CHAT opts', [])
      /\ timer_log w' = timer_log Samples.idle_world ++ [Num 2000])
  /\ (forall r, In r (repeat Samples.too_many 5) -> waitMs r 0 = Num 500)
  /\ (exists w' r4,
      run_alone (fetchWithRetry API_CHAT Samples.post_opts 0 Samples.idle_world)
        (map Responds (repeat Samples.too_many 5) ++ [])
      = (Returned w' r4, [])
      /\ timer_log w' = timer_log Samples.idle_world
                        ++ [Num 500; Num 1000; Num 2000; Num 4000]).
Proof.
  apply (backoff_waits API_CHAT Samples.post_opts Samples.idle_world
           Samples.too_many_retry_after_2 0 "2" (repeat Samples.too_many 5) []).
  - discriminate.
  - reflexivity.
  - vm_compute. discriminate.
  - reflexivity.
  - reflexivity.
  - unfold MAX_RETRIES. lia.
  - reflexivity.
  - repeat constructor.
Defined.

(** C7, at a body that is [null] -- A response with status 200 whose body
    is the text [null] parses, to [null]: nothing is caught where the body
    is read, so [data] is not replaced by the empty object, and reading
    [data.reply] throws a [TypeError].  The outer [catch] reports it: the
    bubble shown is the network-error text and not the placeholder, and the
    error is on the console.  With the same status, a body that does not
    parse at all gets the placeholder. *)
Theorem response_null_body_fails :
  ok Samples.reply_null = true
  /\ json Samples.reply_null = Some ParsedNull
  /\ run_alone (handle_response Samples.reply_null Samples.idle_world) []
     = (Thrown Samples.idle_world null_body_error, [])
  /\ (exists w',
        run_alone (sendMessageToServer "hi" None None Samples.idle_world)
          [Responds Samples.reply_null]
        = (Returned w' tt, [])
        /\ messages w' = [{| sender := user; text := "hi" |};
                          {| sender := bot; text := network_error |}]
        /\ console w' = [null_body_error]
        /\ inFlight w' = false)
  /\ network_error <> no_reply
  /\ (exists w',
        run_alone (sendMessageToServer "hi" None None Samples.idle_world)
          [Responds Samples.reply_unparsed]
        = (Returned w' tt, [])
        /\ messages w' = [{| sender := user; text := "hi" |};
                          {| sender := bot; text := no_reply |}]
        /\ console w' = []).
Proof.
  split; [reflexivity|]. split; [reflexivity|].
  split; [now rewrite run_handle_response|].
  split; [|split; [discriminate|]].
  - rewrite run_send_one by (reflexivity || (simpl; lia)).
    eexists. split; [reflexivity|]. repeat split.
  - rewrite run_send_one by (reflexivity || (simpl; lia)).
    eexists. split; [reflexivity|]. repeat split.
Qed.

(** With a token in the meta tag, a file "a.png" and the intent "faq". *)
Lemma request_composition_witness :
  inFlight Samples.token_world = false
  /\ truthy "hello" = true
  /\ (exists w',
        run_alone (sendMessageToServer "" (Some Samples.a_png) (Some "faq")
                     Samples.token_world) []
        = (Waiting w' API_CHAT
             {| method := "POST";
                headers := Some (transport_headers Samples.token_world ∅);
                body := BodyFormData
                          [("file", FormFile Samples.a_png);
                           ("session_id", FormText "sess-4fzyo82m");
                           ("message", FormText "");
                           ("language", FormText "en");
                           ("intent", FormText "faq")] |}, []))
  /\ (exists w',
        run_alone (sendMessageToServer "hello" None None Samples.token_world) []
        = (Waiting w' API_CHAT
             {| method := "POST";
                headers := Some (transport_headers Samples.token_world
                                   {["Content-Type" := "application/json"]});
                body := BodyJSON
                          [("session_id", JSONString "sess-4fzyo82m");
                           ("message", JSONString "hello");
                           ("language", JSONString "en");
                           ("intent", JSONNull)] |}, []))
  /\ transport_headers Samples.token_world ∅ !! "X-Client-Session" = Some "sess-4fzyo82m"
  /\ transport_headers Samples.token_world ∅ !! "Authorization" = Some "Bearer t0k3n".
Proof.
  assert (H1 : inFlight Samples.token_world = false) by reflexivity.
  assert (H2 : truthy "hello" = true) by reflexivity.
  split; [exact H1|]. split; [exact H2|].
  destruct (request_composition "" "hello" Samples.a_png (Some "faq")
              Samples.token_world H1 H2) as (Hform & _ & Hh).
  destruct (request_composition "" "hello" Samples.a_png None
              Samples.token_world H1 H2) as (_ & Hjson & _).
  split; [exact Hform|]. split; [exact Hjson|].
  destruct (Hh ∅) as (Hs & Ha & _). split; [exact Hs|exact Ha].
Defined.

(** The server answers with the session id "srv-123". *)
Lemma session_adoption_witness :
  inFlight Samples.idle_world = false
  /\ ok Samples.reply_srv_123 = true
  /\ json Samples.reply_srv_123 = Some (ParsedValue Samples.data_srv_123)
  /\ "srv-123" <> session_id (session Samples.idle_world)
  /\ ok Samples.reply_plain = true
  /\ (exists w',
        run_alone (sendMessageToServer "hi" None None Samples.idle_world)
          [Responds Samples.reply_srv_123]
        = (Returned w' tt, [])
        /\ session w' = {| session_id := "srv-123";
                           created_at := "2024-05-01T10:00:00.000Z" |}
        /\ (exists w'' opts,
              run_alone (sendMessageToServer "again" None None w') []
              = (Waiting w'' API_CHAT opts, [])
              /\ opts_headers opts !! "X-Client-Session" = Some "srv-123"))
  /\ (exists w',
        run_alone (sendMessageToServer "hi" None None Samples.idle_world)
          [Responds Samples.reply_plain]
        = (Returned w' tt, [])
        /\ session w' = session Samples.idle_world
        /\ localStorage w' = localStorage Samples.idle_world).
Proof.
  assert (H1 : inFlight Samples.idle_world = false) by reflexivity.
  assert (H2 : truthy "hi" || bool_decide (is_Some (@None File)) = true) by reflexivity.
  assert (H3 : ok Samples.reply_srv_123 = true) by reflexivity.
  assert (H4 : json Samples.reply_srv_123 = Some (ParsedValue Samples.data_srv_123))
    by reflexivity.
  assert (H5 : Data.session_id Samples.data_srv_123 = Some "srv-123") by reflexivity.
  assert (H6 : "srv-123" <> "") by discriminate.
  assert (H7 : "srv-123" <> session_id (session Samples.idle_world)) by discriminate.
  assert (H8 : ok Samples.reply_plain = true) by reflexivity.
  assert (H9 : match json Samples.reply_plain with
               | Some (ParsedValue d') =>
                   Data.session_id d' = None \/ Data.session_id d' = Some ""
                   \/ Data.session_id d' = Some (session_id (session Samples.idle_world))
               | Some ParsedNull => True
               | None => True
               end) by (left; reflexivity).
  destruct (session_adoption (codec := SessionJSONFacts.codec)
              "hi" None None Samples.idle_world []
              Samples.reply_srv_123 Samples.reply_plain Samples.data_srv_123 "srv-123"
              H1 H2 H3 H4 H5 H6 H7 H8 H9)
    as ((w' & Hrun & Hsess & _ & _ & _ & Hnext) & Hsame).
  repeat (split; [assumption|]).
  split; [|exact Hsame].
  exists w'. split; [exact Hrun|]. split; [exact Hsess|].
  exact (Hnext "again" None None eq_refl).
Defined.

(** The page while "hi" is in flight, and after its reply has come. *)
Definition page_busy : Page :=
  settle (sendMessageToServer "hi" None None Samples.idle_world) [].

Definition reply_events : list Event :=
  [FetchSettles 0 (Responds Samples.reply_plain); JsonSettles 0].

Definition page_done : Page := default page_busy (steps page_busy reply_events).

(** A second message sent while "hi" is in flight. *)
Lemma single_in_flight_guard_witness :
  inFlight Samples.idle_world = false
  /\ steps {| world := Samples.idle_world; pending := [] |} [Send "hi" None None]
     = Some page_busy
  /\ inFlight (world page_busy) = true
  /\ steps page_busy reply_events = Some page_done
  /\ step page_busy (Send "second" None None)
     = Some {| world := appendMessage bot busy_notice (world page_busy);
               pending := pending page_busy |}
  /\ (exists p2,
        steps page_busy (Send "second" None None :: reply_events) = Some p2
        /\ same_outcome (world page_done) (world p2)
        /\ length (pending p2) = length (pending page_done))
  /\ (length (pending page_busy) <= 1)%nat
  /\ (pending page_busy = [] <-> inFlight (world page_busy) = false)
  /\ inFlight (world page_done) = false.
Proof.
  assert (H1 : inFlight Samples.idle_world = false) by reflexivity.
  assert (H2 : steps {| world := Samples.idle_world; pending := [] |}
                 [Send "hi" None None] = Some page_busy) by reflexivity.
  assert (H3 : inFlight (world page_busy) = true) by reflexivity.
  assert (H4 : steps page_busy reply_events = Some page_done) by reflexivity.
  assert (H5 : truthy "hi" || bool_decide (is_Some (@None File)) = true) by reflexivity.
  destruct (single_in_flight_guard Samples.idle_world [Send "hi" None None] reply_events
              [Send "hi" None None] page_busy page_done page_busy "second" None None
              Samples.idle_world "hi" None None [Responds Samples.reply_plain]
              H1 H2 H3 H4 H2 H1 H5)
    as (_ & Hstep & Hsame & (Hone & Hiff) & _).
  repeat (split; [assumption|]).
  reflexivity.
Defined.

(** An empty store, and a store whose text was cut short. *)
Lemma getSession_cases_witness :
  truthy_opt (localStorage Samples.idle_world !! STORAGE_KEY) = false
  /\ localStorage Samples.corrupt_world !! STORAGE_KEY = Some "{oops"
  /\ JSON_parse (JSONCodec := SessionJSONFacts.codec) "{oops" = None
  /\ (exists w' s,
        getSession (H := SessionJSONFacts.codec) "0.4fzyo82mvyr" "2024-05-01T10:00:00.000Z"
          Samples.idle_world = Ret w' s
        /\ s = {| session_id := "sess-4fzyo82m"; created_at := "2024-05-01T10:00:00.000Z" |})
  /\ getSession (H := SessionJSONFacts.codec) "0.4fzyo82mvyr" "2024-05-01T10:00:00.000Z"
       Samples.corrupt_world
     = Throw Samples.corrupt_world (SyntaxError "JSON.parse").
Proof.
  assert (H1 : truthy_opt (localStorage Samples.idle_world !! STORAGE_KEY) = false)
    by reflexivity.
  assert (H2 : localStorage Samples.corrupt_world !! STORAGE_KEY = Some "{oops")
    by reflexivity.
  assert (H3 : truthy "{oops" = true) by reflexivity.
  assert (H4 : JSON_parse (JSONCodec := SessionJSONFacts.codec) "{oops" = None)
    by reflexivity.
  destruct (getSession_cases (codec := SessionJSONFacts.codec)
              "0.4fzyo82mvyr" "2024-05-01T10:00:00.000Z" "0.zzzzzzzzzz" "2024-05-02"
              Samples.idle_world Samples.corrupt_world Samples.idle_world "{oops"
              H1 H2 H3 H4)
    as ((w' & s & Hrun & Hs & _) & Hbad & _).
  repeat (split; [assumption|]).
  split; [|exact Hbad].
  exists w', s. split; [exact Hrun|exact Hs].
Defined.

(** C4, against the claim as written -- With the text "{oops" stored under
    the key, [getSession] does not synthesize, persist and return a new
    session: it throws the [SyntaxError] of [JSON.parse] and leaves the
    store as it was. *)
Lemma getSession_corrupt_throws :
  localStorage Samples.corrupt_world !! STORAGE_KEY = Some "{oops"
  /\ JSON_parse (JSONCodec := SessionJSONFacts.codec) "{oops" = None
  /\ getSession (H := SessionJSONFacts.codec) "0.4fzyo82mvyr" "2024-05-01T10:00:00.000Z"
       Samples.corrupt_world
     = Throw Samples.corrupt_world (SyntaxError "JSON.parse")
  /\ ~ (exists w' s,
          getSession (H := SessionJSONFacts.codec) "0.4fzyo82mvyr"
            "2024-05-01T10:00:00.000Z" Samples.corrupt_world = Ret w' s).
Proof.
  assert (Hrun : getSession (H := SessionJSONFacts.codec) "0.4fzyo82mvyr"
                   "2024-05-01T10:00:00.000Z" Samples.corrupt_world
                 = Throw Samples.corrupt_world (SyntaxError "JSON.parse"))
    by reflexivity.
  repeat split; try reflexivity.
  intros (w' & s & H). rewrite Hrun in H. discriminate.
Qed.

End WidgetFacts.

(* ===================================================================== *)
(** ** More results: the language detector and the container *)
(* ===================================================================== *)

Module I18nExtraFacts.

Import I18nWidget Dom I18nWidgetUI I18nWidgetFacts.
Local Open Scope string_scope.
Local Open Scope list_scope.

Lemma detect_cases (text : jsstring) :
  detectClientLangFromInput text = None
  \/ detectClientLangFromInput text = Some "en".
Proof.
  pose proof (arMatches_le_1 text) as Har.
  unfold detectClientLangFromInput.
  destruct (_ || _); [now left|].
  rewrite !Z.geb_leb.
  replace (2 <=? Z.of_nat (length (or_empty (AR_RE_match text))))%Z with false
    by (symmetry; apply Z.leb_gt; lia).
  simpl. destruct (_ && _); [now right|now left].
Qed.

Lemma detect_by_latinCount (text : jsstring) :
  detectClientLangFromInput text
  = if (2 <=? latinCount text)%Z then Some "en" else None.
Proof.
  destruct (Z.leb_spec 2 (latinCount text)) as [H|H].
  - apply detect_en_iff. lia.
  - destruct (detect_cases text) as [H0|H0]; [exact H0|].
    apply detect_en_iff in H0. lia.
Qed.

(** X1 -- What the detector computes, for every text: ["en"] when the text
    has at least two letters of A-Z a-z, [null] otherwise. *)
Theorem detect_characterised (text : jsstring) :
  detectClientLangFromInput text
  = if (2 <=? latinCount text)%Z then Some "en" else None.
Proof. apply detect_by_latinCount. Qed.

Lemma filter_latin_drop_space (s : jsstring) :
  List.filter latin_class (drop_space s) = List.filter latin_class s.
Proof.
  induction s as [|c s IH]; simpl; [reflexivity|].
  destruct (is_js_space c) eqn:E; [|reflexivity].
  rewrite IH. destruct (latin_class c) eqn:El; [|reflexivity].
  apply latin_not_space in El. congruence.
Qed.

Lemma filter_rev {A : Type} (f : A -> bool) (l : list A) :
  List.filter f (rev l) = rev (List.filter f l).
Proof.
  induction l as [|x l IH]; simpl; [reflexivity|].
  rewrite List.filter_app, IH. simpl. destruct (f x); simpl; [reflexivity|].
  now rewrite app_nil_r.
Qed.

Lemma latinCount_trim (text : jsstring) : latinCount (trim text) = latinCount text.
Proof.
  unfold latinCount, trim.
  now rewrite filter_rev, filter_latin_drop_space, filter_rev, rev_involutive,
    filter_latin_drop_space.
Qed.

Lemma filter_idem {A : Type} (f : A -> bool) (l : list A) :
  List.filter f (List.filter f l) = List.filter f l.
Proof.
  induction l as [|x l IH]; simpl; [reflexivity|].
  destruct (f x) eqn:E; simpl; [rewrite E, IH; reflexivity|exact IH].
Qed.

Lemma filter_Permutation {A : Type} (f : A -> bool) (l l' : list A) :
  Permutation l l' -> Permutation (List.filter f l) (List.filter f l').
Proof.
  induction 1 as [|x l l' H IH|x y l|l l' l'' H1 IH1 H2 IH2]; simpl.
  - constructor.
  - destruct (f x); [now constructor|exact IH].
  - destruct (f x), (f y); try reflexivity. constructor.
  - etransitivity; eauto.
Qed.

(** X2 -- The answer of the detector depends on nothing but the letters of
    A-Z a-z in the text: it is the same for the text with every other
    character taken out, for the trimmed text, and for any rearrangement of
    the text. *)
Theorem detect_ignores_all_but_latin (text text' : jsstring)
    (Hperm : Permutation text text') :
  detectClientLangFromInput (List.filter latin_class text)
  = detectClientLangFromInput text
  /\ detectClientLangFromInput (trim text) = detectClientLangFromInput text
  /\ detectClientLangFromInput text' = detectClientLangFromInput text.
Proof.
  rewrite !detect_by_latinCount. repeat split.
  - unfold latinCount. now rewrite filter_idem.
  - now rewrite latinCount_trim.
  - unfold latinCount.
    now rewrite (Permutation_length (filter_Permutation latin_class _ _ Hperm)).
Qed.

Lemma detect_ignores_all_but_latin_witness :
  Permutation ab_marhaba (marhaba ++ [0x62; 0x61]%Z)
  /\ detectClientLangFromInput (marhaba ++ [0x62; 0x61]%Z)
     = detectClientLangFromInput ab_marhaba
  /\ detectClientLangFromInput (List.filter latin_class ab_marhaba) = Some "en".
Proof.
  assert (H : Permutation ab_marhaba (marhaba ++ [0x62; 0x61]%Z)).
  { unfold ab_marhaba. rewrite Permutation_app_comm. apply Permutation_app_head.
    constructor. }
  destruct (detect_ignores_all_but_latin ab_marhaba _ H) as (H1 & _ & H3).
  split; [exact H|]. split; [exact H3|]. rewrite H1. reflexivity.
Defined.

(* --------------------------------------------------------------------- *)
(** *** Class list and attributes *)

Lemma eqb_sym (a b : string) : String.eqb a b = String.eqb b a.
Proof.
  destruct (String.eqb_spec a b) as [->|H]; [now rewrite String.eqb_refl|].
  symmetry. apply String.eqb_neq. congruence.
Qed.

Lemma contains_add (t u : string) (el : Element) :
  contains u (classList_add t el) = String.eqb u t || contains u el.
Proof.
  unfold classList_add. destruct (contains t el) eqn:E.
  - destruct (String.eqb_spec u t) as [->|H]; [now rewrite E|reflexivity].
  - unfold contains in *. cbn [classList]. rewrite existsb_app. simpl.
    rewrite orb_false_r. apply orb_comm.
Qed.

Lemma contains_remove (t u : string) (el : Element) :
  contains u (classList_remove t el) = negb (String.eqb u t) && contains u el.
Proof.
  unfold contains, classList_remove. cbn [classList].
  induction (classList el) as [|x l IH]; simpl; [now rewrite andb_false_r|].
  destruct (String.eqb_spec t x) as [->|Htx]; simpl.
  - rewrite IH. destruct (String.eqb_spec u x) as [->|Hux]; simpl; [|reflexivity].
    reflexivity.
  - rewrite IH. destruct (String.eqb_spec u x) as [->|Hux]; simpl; [|reflexivity].
    destruct (String.eqb_spec x t) as [->|_]; [contradiction|reflexivity].
Qed.

Lemma attributes_add (t : string) (el : Element) :
  attributes (classList_add t el) = attributes el.
Proof. unfold classList_add. now destruct (contains t el). Qed.

Lemma insert_pair_again (m : gmap string string) (a x b y : string) :
  <[a:=x]> (<[b:=y]> (<[a:=x]> (<[b:=y]> m))) = <[a:=x]> (<[b:=y]> m).
Proof.
  apply map_eq. intros k. rewrite !lookup_insert. repeat case_decide; reflexivity.
Qed.

Lemma element_eq (el1 el2 : Element) :
  classList el1 = classList el2 -> attributes el1 = attributes el2 -> el1 = el2.
Proof. destruct el1, el2. simpl. congruence. Qed.

Lemma classList_add_tokens (t : string) (el : Element) :
  classList (classList_add t el)
  = if existsb (String.eqb t) (classList el) then classList el else classList el ++ [t].
Proof. unfold classList_add, contains. now destruct (existsb _ _). Qed.

Lemma NoDup_add (t : string) (el : Element) :
  NoDup (classList el) -> NoDup (classList (classList_add t el)).
Proof.
  intros H. unfold classList_add. destruct (contains t el) eqn:E; [exact H|].
  cbn [classList]. apply NoDup_app. split; [exact H|]. split; [|repeat constructor; set_solver].
  intros x Hx Hin. apply list_elem_of_singleton in Hin. subst x.
  unfold contains in E. apply not_true_iff_false in E. apply E.
  apply existsb_exists. exists t. split; [now apply list_elem_of_In|apply String.eqb_refl].
Qed.

Lemma NoDup_remove (t : string) (el : Element) :
  NoDup (classList el) -> NoDup (classList (classList_remove t el)).
Proof.
  intros H. unfold classList_remove. cbn [classList].
  induction H as [|x l Hx H IH]; simpl; [constructor|].
  destruct (negb (String.eqb t x)); [|exact IH].
  constructor; [|exact IH]. rewrite list_elem_of_In, List.filter_In.
  intros [Hin _]. apply Hx. now apply list_elem_of_In.
Qed.

Lemma set_language_state (el : Element) (lang : string) :
  exists el',
    setLanguageOnWidget (Some el) lang = Some el'
    /\ styled (String.eqb lang "ar") el'
    /\ (forall t, t <> "rtl" -> contains t el' = contains t el)
    /\ (forall n, n <> "class" -> n <> "dir" -> n <> "lang" ->
          attributes el' !! n = attributes el !! n)
    /\ (NoDup (classList el) -> NoDup (classList el'))
    /\ setLanguageOnWidget (Some el') lang = Some el'
    /\ setLanguageOnWidget None lang = None.
Proof.
  unfold setLanguageOnWidget, styled, setAttribute.
  destruct (String.eqb lang "ar") eqn:E; eexists; (split; [reflexivity|]);
    cbn [classList attributes]; repeat split.
  - unfold contains at 1. cbn [classList]. fold (contains "rtl" (classList_add "rtl" el)).
    rewrite contains_add, String.eqb_refl. reflexivity.
  - rewrite lookup_insert_ne by discriminate. apply lookup_insert_eq.
  - apply lookup_insert_eq.
  - intros t Ht. unfold contains at 1. cbn [classList].
    fold (contains t (classList_add "rtl" el)). rewrite contains_add.
    apply String.eqb_neq in Ht. now rewrite Ht.
  - intros n _ H1 H2. rewrite !lookup_insert_ne by congruence. now rewrite attributes_add.
  - apply NoDup_add.
  - f_equal.
    assert (Hc : contains "rtl" (classList_add "rtl" el) = true)
      by (rewrite contains_add, String.eqb_refl; reflexivity).
    apply element_eq; cbn [classList attributes].
    + rewrite classList_add_tokens. cbn [classList]. unfold contains in Hc.
      now rewrite Hc.
    + rewrite attributes_add. cbn [attributes]. apply insert_pair_again.
  - unfold contains at 1. cbn [classList]. fold (contains "rtl" (classList_remove "rtl" el)).
    rewrite contains_remove, String.eqb_refl. reflexivity.
  - rewrite lookup_insert_ne by discriminate. apply lookup_insert_eq.
  - apply lookup_insert_eq.
  - intros t Ht. unfold contains at 1. cbn [classList].
    fold (contains t (classList_remove "rtl" el)). rewrite contains_remove.
    apply String.eqb_neq in Ht. now rewrite Ht.
  - intros n _ H1 H2. now rewrite !lookup_insert_ne by congruence.
  - apply NoDup_remove.
  - f_equal. unfold classList_remove. cbn [classList attributes].
    rewrite filter_idem. f_equal. apply insert_pair_again.
Qed.

(** X3 -- [setLanguageOnWidget] leaves the container in one of two states:
    for ["ar"] the class [rtl] with [dir="rtl"] and [lang="ar"], for every
    other language (known or not) no class [rtl] with [dir="ltr"] and
    [lang="en"].  The other classes are kept, and so are the attributes
    other than [class], [dir] and [lang]; no class is duplicated, a second
    call with the same language changes nothing, and a [null] container is
    left alone. *)
Theorem setLanguageOnWidget_state (el : Element) (lang : string) :
  exists el',
    setLanguageOnWidget (Some el) lang = Some el'
    /\ styled (String.eqb lang "ar") el'
    /\ (forall t, t <> "rtl" -> contains t el' = contains t el)
    /\ (forall n, n <> "class" -> n <> "dir" -> n <> "lang" ->
          attributes el' !! n = attributes el !! n)
    /\ (NoDup (classList el) -> NoDup (classList el'))
    /\ setLanguageOnWidget (Some el') lang = Some el'
    /\ setLanguageOnWidget None lang = None.
Proof. apply set_language_state. Qed.

(** X4 -- [quickDetectAndApply] returns the answer of the detector,
    whatever [allowPrompt] is.  On [null] the container is left as it was;
    otherwise the container is set to the left-to-right state: the call
    never returns ["ar"] and never puts the class [rtl] on a container that
    does not have it. *)
Theorem quickDetectAndApply_effect (el : Element) (inputText : jsstring)
    (allowPrompt : bool) :
  snd (quickDetectAndApply (Some el) inputText allowPrompt)
  = detectClientLangFromInput inputText
  /\ quickDetectAndApply (Some el) inputText allowPrompt
     = quickDetectAndApply (Some el) inputText (negb allowPrompt)
  /\ (detectClientLangFromInput inputText = None ->
      fst (quickDetectAndApply (Some el) inputText allowPrompt) = Some el)
  /\ (detectClientLangFromInput inputText = Some "en" ->
      exists el', fst (quickDetectAndApply (Some el) inputText allowPrompt) = Some el'
                  /\ styled false el')
  /\ (contains "rtl" el = false ->
      exists el', fst (quickDetectAndApply (Some el) inputText allowPrompt) = Some el'
                  /\ contains "rtl" el' = false).
Proof.
  unfold quickDetectAndApply.
  destruct (detect_cases inputText) as [H|H]; rewrite H.
  - split; [now destruct allowPrompt|].
    split; [now destruct allowPrompt|].
    split; [intros _; now destruct allowPrompt|].
    split; [discriminate|].
    intros Hc. exists el. now destruct allowPrompt.
  - destruct (set_language_state el "en") as (el' & He & Hs & _).
    cbn [fst snd].
    split; [reflexivity|]. split; [reflexivity|]. split; [discriminate|].
    split; intros _; exists el'; (split; [exact He|]); [exact Hs|apply Hs].
Qed.

End I18nExtraFacts.

(* ===================================================================== *)
(** ** More results: the transport *)
(* ===================================================================== *)

Module TransportFacts.

Import Widget WidgetSpec ExtraSpec WidgetFacts.
Local Open Scope string_scope.
Local Open Scope list_scope.

#[local] Arguments fetchWithRetry : simpl never.

Lemma transport_only_trans (w1 w2 w3 : World) :
  transport_only w1 w2 -> transport_only w2 w3 -> transport_only w1 w3.
Proof. unfold transport_only. intuition congruence. Qed.

Lemma transport_only_after_fetch url opts w : transport_only w (after_fetch url opts w).
Proof. repeat split. Qed.

Lemma transport_only_after_sleep ms w : transport_only w (after_sleep ms w).
Proof. repeat split. Qed.

(** The request depends on the world through the session and the token
    only. *)
Lemma sent_frame (w w' : World) (opts : RequestInit) :
  transport_only w w' -> sent w' opts = sent w opts.
Proof.
  intros (_ & Hs & _ & _ & _ & Hm & Hg & _). unfold sent, token.
  now rewrite Hs, Hm, Hg.
Qed.

Lemma opts_headers_set (n v : string) (opts : RequestInit) :
  opts_headers (set_header n v opts) = <[n := v]> (opts_headers opts).
Proof. reflexivity. Qed.

Lemma set_header_same (n v : string) (opts : RequestInit) :
  opts_headers opts !! n = Some v -> headers opts <> None ->
  set_header n v opts = opts.
Proof.
  destruct opts as [m [h|] b]; [|contradiction]. unfold set_header, opts_headers.
  cbn. intros H _. now rewrite insert_id.
Qed.

Lemma bearer_truthy (tok : string) : truthy ("Bearer " +:+ tok) = true.
Proof. reflexivity. Qed.

(** Attaching the headers a second time changes nothing. *)
Lemma sent_idem (w : World) (opts : RequestInit) :
  sent w (sent w opts) = sent w opts.
Proof.
  set (o := set_header "X-Client-Session" (session_id (session w)) opts).
  assert (Ho : opts_headers o !! "X-Client-Session" = Some (session_id (session w)))
    by (subst o; rewrite opts_headers_set; apply lookup_insert_eq).
  assert (Hs : sent w opts
               = if truthy_opt (token w)
                    && negb (truthy_opt (opts_headers o !! "Authorization"))
                 then set_header "Authorization" ("Bearer " +:+ default "" (token w)) o
                 else o) by reflexivity.
  rewrite Hs. clear Hs.
  destruct (truthy_opt (token w) && negb (truthy_opt (opts_headers o !! "Authorization")))
    eqn:Hc; unfold sent.
  - rewrite (set_header_same "X-Client-Session" _ (set_header "Authorization" _ o)).
    + rewrite opts_headers_set, lookup_insert_eq. cbn [truthy_opt].
      rewrite bearer_truthy. cbn [negb]. now rewrite andb_false_r.
    + rewrite opts_headers_set, lookup_insert_ne by discriminate. exact Ho.
    + discriminate.
  - rewrite (set_header_same "X-Client-Session" _ o Ho) by (subst o; discriminate).
    now rewrite Hc.
Qed.

(** What a run of the retry loop does, whatever the network does: it uses
    up 429 responses, one request and one sleep for each, until an outcome
    that ends it, the end of the script or the last retry. *)
Lemma loop_trace :
  forall fuel url opts attempt w net e rest,
    (MAX_RETRIES - attempt <= fuel)%nat ->
    run_alone (fetchWithRetry_loop fuel url opts attempt w) net = (e, rest) ->
    exists rs,
      Forall (fun r => status r = 429%Z) rs
      /\ (length rs <= MAX_RETRIES - attempt)%nat
      /\ net = map Responds rs ++ last_outcome e ++ rest
      /\ fetch_log (ended_world e)
         = fetch_log w ++ replicate (S (length rs)) (url, sent w opts)
      /\ timer_log (ended_world e) = timer_log w ++ backoff attempt rs
      /\ transport_only w (ended_world e)
      /\ match e with
         | Returned _ resp => status resp = 429%Z -> length rs = (MAX_RETRIES - attempt)%nat
         | Thrown _ _ => True
         | Waiting _ url' o' => url' = url /\ o' = sent w opts /\ rest = []
         end.
Proof.
  assert (Hbase : forall url opts attempt w net e rest,
    match net with
    | [] => True
    | Responds resp :: _ => (status resp =? 429)%Z && (attempt <? MAX_RETRIES)%nat = false
    | Rejects _ :: _ => True
    end ->
    forall fuel,
    run_alone (fetchWithRetry_loop fuel url opts attempt w) net = (e, rest) ->
    exists rs,
      Forall (fun r => status r = 429%Z) rs
      /\ (length rs <= MAX_RETRIES - attempt)%nat
      /\ net = map Responds rs ++ last_outcome e ++ rest
      /\ fetch_log (ended_world e)
         = fetch_log w ++ replicate (S (length rs)) (url, sent w opts)
      /\ timer_log (ended_world e) = timer_log w ++ backoff attempt rs
      /\ transport_only w (ended_world e)
      /\ match e with
         | Returned _ resp => status resp = 429%Z -> length rs = (MAX_RETRIES - attempt)%nat
         | Thrown _ _ => True
         | Waiting _ url' o' => url' = url /\ o' = sent w opts /\ rest = []
         end).
  { intros url opts attempt w net e rest Hnet fuel Hrun. exists [].
    destruct net as [|[resp|err] net].
    - rewrite run_loop_pending in Hrun. injection Hrun as <- <-.
      cbn [ended_world last_outcome backoff length map app]. rewrite app_nil_r.
      repeat split; try constructor; lia.
    - rewrite run_loop_returns in Hrun by exact Hnet. injection Hrun as <- <-.
      cbn [ended_world last_outcome backoff length map app]. rewrite app_nil_r.
      repeat split; try constructor; try lia.
      intros H429. apply andb_false_iff in Hnet as [Hnet|Hnet].
      + apply Z.eqb_neq in Hnet. contradiction.
      + apply Nat.ltb_ge in Hnet. lia.
    - rewrite run_loop_rejects in Hrun. injection Hrun as <- <-.
      cbn [ended_world last_outcome backoff length map app]. rewrite app_nil_r.
      repeat split; try constructor; lia. }
  induction fuel as [|fuel IH]; intros url opts attempt w net e rest Hfuel Hrun.
  - apply (Hbase url opts attempt w net e rest) with (fuel := 0%nat); [|exact Hrun].
    destruct net as [|[resp|err] net]; try exact I.
    destruct ((status resp =? 429)%Z && (attempt <? MAX_RETRIES)%nat) eqn:Hc; [|reflexivity].
    apply andb_prop in Hc as [_ Hc]. apply Nat.ltb_lt in Hc. lia.
  - destruct net as [|[resp|err] net];
      try (apply (Hbase url opts attempt w _ e rest) with (fuel := S fuel);
           [exact I|exact Hrun]).
    destruct ((status resp =? 429)%Z && (attempt <? MAX_RETRIES)%nat) eqn:Hc;
      [|apply (Hbase url opts attempt w _ e rest) with (fuel := S fuel);
        [exact Hc|exact Hrun]].
    rewrite run_loop_retries in Hrun by exact Hc.
    apply andb_prop in Hc as [H429 Hlt].
    apply Z.eqb_eq in H429. apply Nat.ltb_lt in Hlt.
    assert (Hfuel' : (MAX_RETRIES - (attempt + 1) <= fuel)%nat) by lia.
    destruct (IH _ _ _ _ _ _ _ Hfuel' Hrun) as (rs & Hrs & Hlen & Hnet & Hf & Ht & Hto & He).
    set (w2 := after_sleep (waitMs resp attempt) (after_fetch url opts w)) in *.
    assert (Hw2 : transport_only w w2) by (repeat split).
    rewrite (sent_frame w w2) in Hf, He by exact Hw2. rewrite sent_idem in Hf, He.
    exists (resp :: rs).
    split; [now constructor|].
    split; [simpl; lia|].
    split; [simpl; now rewrite Hnet|].
    split; [rewrite Hf; subst w2; simpl; now rewrite <- app_assoc|].
    split; [rewrite Ht; subst w2; simpl; now rewrite <- app_assoc|].
    split; [eapply transport_only_trans; eauto|].
    destruct e as [w' r|w' err|w' url' o']; [|exact I|exact He].
    intros Hr. specialize (He Hr). simpl. lia.
Qed.

Lemma fetchWithRetry_trace url opts attempt w net e rest :
  run_alone (fetchWithRetry url opts attempt w) net = (e, rest) ->
  exists rs,
    Forall (fun r => status r = 429%Z) rs
    /\ (length rs <= MAX_RETRIES - attempt)%nat
    /\ net = map Responds rs ++ last_outcome e ++ rest
    /\ fetch_log (ended_world e)
       = fetch_log w ++ replicate (S (length rs)) (url, sent w opts)
    /\ timer_log (ended_world e) = timer_log w ++ backoff attempt rs
    /\ transport_only w (ended_world e)
    /\ match e with
       | Returned _ resp => status resp = 429%Z -> length rs = (MAX_RETRIES - attempt)%nat
       | Thrown _ _ => True
       | Waiting _ url' o' => url' = url /\ o' = sent w opts /\ rest = []
       end.
Proof. intros Hrun. exact (loop_trace _ _ _ _ _ _ _ _ (Nat.le_refl _) Hrun). Qed.

Lemma sent_keeps (w : World) (opts : RequestInit) :
  method (sent w opts) = method opts /\ body (sent w opts) = body opts
  /\ opts_headers (sent w opts) !! "X-Client-Session" = Some (session_id (session w))
  /\ (forall name, name <> "X-Client-Session" -> name <> "Authorization" ->
        opts_headers (sent w opts) !! name = opts_headers opts !! name).
Proof.
  unfold sent. destruct (_ && _); repeat split;
    rewrite ?opts_headers_set; try (intros name H1 H2);
    rewrite ?lookup_insert_ne by congruence; try reflexivity; apply lookup_insert_eq.
Qed.

(** X5 -- Whatever the network does, one call of [fetchWithRetry] uses up
    the 429 responses at the head of the script, at most
    [MAX_RETRIES - attempt] of them, and ends with the outcome that follows
    them: a response it returns, a rejection it throws, or the end of the
    script, where it waits.  It makes one request for each outcome it uses
    (so at most five from attempt 0), sleeps once after each of those 429s,
    for the delay that response asks for, and returns a 429 to its caller
    only when the retries are used up. *)
Theorem transport_trace (url : string) (opts : RequestInit) (attempt : nat)
    (w : World) (net : list FetchOutcome) :
  exists rs e rest,
    run_alone (fetchWithRetry url opts attempt w) net = (e, rest)
    /\ Forall (fun r => status r = 429%Z) rs
    /\ (length rs <= MAX_RETRIES - attempt)%nat
    /\ net = map Responds rs ++ last_outcome e ++ rest
    /\ length (fetch_log (ended_world e)) = (length (fetch_log w) + length rs + 1)%nat
    /\ timer_log (ended_world e) = timer_log w ++ backoff attempt rs
    /\ match e with
       | Returned _ resp => status resp = 429%Z -> length rs = (MAX_RETRIES - attempt)%nat
       | Thrown _ _ => True
       | Waiting _ url' _ => url' = url /\ rest = []
       end.
Proof.
  destruct (run_alone (fetchWithRetry url opts attempt w) net) as [e rest] eqn:Hrun.
  destruct (fetchWithRetry_trace _ _ _ _ _ _ _ Hrun)
    as (rs & Hrs & Hlen & Hnet & Hf & Ht & _ & He).
  exists rs, e, rest. rewrite Hf, length_app, length_replicate.
  repeat (split; [first [reflexivity|assumption|lia]|]).
  destruct e; intuition.
Qed.

(** X6 -- Every request of one call is the same request: the url, method
    and body it was called with, the id of the current session in
    [X-Client-Session], and the caller's other headers.  Besides the log of
    requests and the log of timers the call changes nothing: not the
    session, the storage, the flag or the messages. *)
Theorem transport_repeats_request (url : string) (opts : RequestInit) (attempt : nat)
    (w : World) (net : list FetchOutcome) :
  exists n o',
    fetch_log (ended_world (fst (run_alone (fetchWithRetry url opts attempt w) net)))
    = fetch_log w ++ replicate n (url, o')
    /\ method o' = method opts /\ body o' = body opts
    /\ opts_headers o' !! "X-Client-Session" = Some (session_id (session w))
    /\ (forall name, name <> "X-Client-Session" -> name <> "Authorization" ->
          opts_headers o' !! name = opts_headers opts !! name)
    /\ transport_only w
         (ended_world (fst (run_alone (fetchWithRetry url opts attempt w) net))).
Proof.
  destruct (run_alone (fetchWithRetry url opts attempt w) net) as [e rest] eqn:Hrun.
  destruct (fetchWithRetry_trace _ _ _ _ _ _ _ Hrun)
    as (rs & _ & _ & _ & Hf & _ & Hto & _).
  destruct (sent_keeps w opts) as (Hm & Hb & Hs & Ho).
  exists (S (length rs)), (sent w opts). cbn [fst]. auto 10.
Qed.

(** X7 -- The [Authorization] header of a request: a non-empty one given by
    the caller is kept; otherwise it is [Bearer] and the content of the
    token meta tag when that is non-empty, else [Bearer] and
    [window.CHAT_WIDGET_TOKEN] when that is non-empty, else what the caller
    gave (nothing, or the empty string). *)
Theorem authorization_header (url : string) (opts : RequestInit) (attempt : nat)
    (w : World) :
  exists w' o',
    run_alone (fetchWithRetry url opts attempt w) [] = (Waiting w' url o', [])
    /\ opts_headers o' !! "Authorization"
       = match opts_headers opts !! "Authorization" with
         | Some (String c a) => Some (String c a)
         | given =>
             match meta_token w with
             | Some (String c m) => Some ("Bearer " +:+ String c m)
             | _ =>
                 match CHAT_WIDGET_TOKEN w with
                 | Some (String c g) => Some ("Bearer " +:+ String c g)
                 | _ => given
                 end
             end
         end.
Proof.
  rewrite run_fetchWithRetry_pending. do 2 eexists. split; [reflexivity|].
  unfold sent, token. rewrite opts_headers_set, lookup_insert_ne by discriminate.
  destruct (opts_headers opts !! "Authorization") as [[|c a]|] eqn:Ha;
    destruct (meta_token w) as [[|c1 m]|], (CHAT_WIDGET_TOKEN w) as [[|c2 g]|];
    cbn [truthy_opt truthy negb andb default];
    rewrite ?opts_headers_set, ?lookup_insert_eq, ?lookup_insert_ne by discriminate;
    try exact Ha; reflexivity.
Qed.

Lemma skip_space_blank (pre s : string) :
  blank pre = true -> skip_space (pre +:+ s) = skip_space s.
Proof.
  induction pre as [|c pre IH]; intros H; [reflexivity|].
  simpl in H. apply andb_prop in H as [Hc Hp].
  change (String c pre +:+ s) with (String c (pre +:+ s)).
  cbn [skip_space]. rewrite Hc. now apply IH.
Qed.

Lemma parse_digits_prefix (ds rest : string) :
  forall acc, all_digits ds = true -> no_digit_ahead rest = true ->
    parse_digits acc (ds +:+ rest) = parse_digits acc ds.
Proof.
  induction ds as [|c ds IH]; intros acc Hd Hr.
  - change ("" +:+ rest) with rest. destruct rest as [|c rest]; [reflexivity|].
    simpl in *. now apply negb_true_iff in Hr as ->.
  - simpl in Hd. apply andb_prop in Hd as [Hc Hd].
    change (String c ds +:+ rest) with (String c (ds +:+ rest)).
    cbn [parse_digits]. rewrite Hc. now apply IH.
Qed.

Lemma parseInt10_unsigned (c : ascii) (s : string) :
  is_digit c = true ->
  parseInt10 (String c s) = Num (parse_digits 0 (String c s)).
Proof.
  intros Hc. destruct (digit_not_space_or_sign c Hc) as (Hsp & Hm & Hp).
  unfold parseInt10. cbn [skip_space]. rewrite Hsp, Hm, Hp, Hc. f_equal.
  destruct (parse_digits 0 (String c s)); reflexivity.
Qed.

Lemma parseInt10_blank (pre s : string) :
  blank pre = true -> parseInt10 (pre +:+ s) = parseInt10 s.
Proof. intros H. unfold parseInt10. now rewrite skip_space_blank. Qed.

Lemma parseInt10_leading (ds rest : string) :
  ds <> "" -> all_digits ds = true -> no_digit_ahead rest = true ->
  parseInt10 (ds +:+ rest) = Num (decimal_value ds)
  /\ parseInt10 ("-" +:+ ds +:+ rest) = Num (- decimal_value ds).
Proof.
  intros Hne Hd Hr. destruct ds as [|c ds]; [contradiction|].
  pose proof Hd as Hd'. simpl in Hd'. apply andb_prop in Hd' as [Hc _].
  change (String c ds +:+ rest) with (String c (ds +:+ rest)).
  split.
  - rewrite parseInt10_unsigned by exact Hc.
    change (String c (ds +:+ rest)) with (String c ds +:+ rest).
    rewrite parse_digits_prefix, parse_digits_value by assumption. f_equal; lia.
  - change ("-" +:+ String c (ds +:+ rest)) with (String "-" (String c (ds +:+ rest))).
    unfold parseInt10. cbn [skip_space].
    change (is_space "-") with false. cbv iota.
    change (nat_of_ascii "-" =? 45)%nat with true. cbv iota beta. rewrite Hc.
    change (String c (ds +:+ rest)) with (String c ds +:+ rest).
    rewrite parse_digits_prefix, parse_digits_value by assumption. f_equal; lia.
Qed.

Lemma parseInt10_no_number (c : ascii) (rest : string) :
  starts_no_number c = true -> parseInt10 (String c rest) = NaN.
Proof.
  unfold starts_no_number. rewrite !andb_true_iff, !negb_true_iff.
  intros [[[Hd Hs] Hm] Hp].
  unfold parseInt10. cbn [skip_space]. now rewrite Hs, Hm, Hp, Hd.
Qed.

Lemma retry_after_cases (resp : Response) (attempt : nat) (pre ds rest : string) (c : ascii) :
  blank pre = true -> ds <> "" -> all_digits ds = true ->
  no_digit_ahead rest = true -> starts_no_number c = true ->
  (decimal_value ds * 1000 <= 2 ^ 53)%Z ->
  (headers_get resp "Retry-After" = Some (pre +:+ ds +:+ rest) ->
     waitMs resp attempt = Num (decimal_value ds * 1000))
  /\ (headers_get resp "Retry-After" = Some (pre +:+ "-" +:+ ds +:+ rest) ->
       waitMs resp attempt = Num (- (decimal_value ds * 1000)))
  /\ (headers_get resp "Retry-After" = Some (pre +:+ String c rest) ->
       waitMs resp attempt = NaN)
  /\ (headers_get resp "Retry-After" = Some "" ->
       waitMs resp attempt = Num (2 ^ Z.of_nat attempt * 500)).
Proof.
  intros Hpre Hne Hd Hr Hc _.
  destruct (parseInt10_leading ds rest Hne Hd Hr) as [Hpos Hneg].
  assert (Htruthy : forall a b, b <> "" -> truthy (a +:+ b) = true).
  { intros a b Hb. destruct a; [destruct b; [contradiction|reflexivity]|reflexivity]. }
  unfold waitMs. repeat split; intros ->; cbn [truthy_opt default from_option]; unfold id.
  - rewrite Htruthy by (destruct ds; [contradiction|discriminate]).
    rewrite parseInt10_blank, Hpos by exact Hpre. reflexivity.
  - rewrite Htruthy by discriminate.
    rewrite parseInt10_blank, Hneg by exact Hpre. cbn [js_mul]. f_equal. lia.
  - rewrite Htruthy by discriminate.
    rewrite parseInt10_blank, parseInt10_no_number by assumption. reflexivity.
  - reflexivity.
Qed.

(** X8 -- How a [Retry-After] header is read after a 429: leading white
    space is skipped and the digits up to the first other character count,
    in seconds (so [1.5] and [1 second] both wait 1000 ms); a minus sign
    gives a negative delay; a value that starts with no number, such as an
    HTTP date, gives the delay [NaN] and not the exponential fallback; the
    empty header value gives the fallback [500 * 2^attempt].  That delay is
    the one handed to the timer before the next request. *)
Theorem retry_after_reading
    (url : string) (opts : RequestInit) (w : World)
    (resp : Response) (attempt : nat) (pre ds rest : string) (c : ascii)
    (Hpre : blank pre = true) (Hne : ds <> "") (Hd : all_digits ds = true)
    (Hrest : no_digit_ahead rest = true) (Hc : starts_no_number c = true)
    (Hexact : (decimal_value ds * 1000 <= 2 ^ 53)%Z)
    (H429 : status resp = 429%Z) (Hatt : (attempt < MAX_RETRIES)%nat) :
  (headers_get resp "Retry-After" = Some (pre +:+ ds +:+ rest) ->
     waitMs resp attempt = Num (decimal_value ds * 1000))
  /\ (headers_get resp "Retry-After" = Some (pre +:+ "-" +:+ ds +:+ rest) ->
       waitMs resp attempt = Num (- (decimal_value ds * 1000)))
  /\ (headers_get resp "Retry-After" = Some (pre +:+ String c rest) ->
       waitMs resp attempt = NaN)
  /\ (headers_get resp "Retry-After" = Some "" ->
       waitMs resp attempt = Num (2 ^ Z.of_nat attempt * 500))
  /\ (exists w' opts',
        run_alone (fetchWithRetry url opts attempt w) [Responds resp]
        = (Waiting w' url opts', [])
        /\ timer_log w' = timer_log w ++ [waitMs resp attempt]).
Proof.
  destruct (retry_after_cases resp attempt pre ds rest c Hpre Hne Hd Hrest Hc Hexact)
    as (H1 & H2 & H3 & H4).
  repeat (split; [assumption|]).
  unfold fetchWithRetry.
  replace (MAX_RETRIES - attempt)%nat with (S (MAX_RETRIES - attempt - 1)) by lia.
  rewrite run_loop_retries by (now apply retry_cond_true).
  rewrite run_loop_pending. do 2 eexists. split; [reflexivity|].
  now rewrite timer_log_after_fetch, timer_log_after_sleep, timer_log_after_fetch.
Qed.

Lemma retry_after_reading_witness :
  (headers_get Samples.too_many_retry_after_2 "Retry-After" = Some ("" +:+ "2" +:+ "") ->
     waitMs Samples.too_many_retry_after_2 0 = Num (decimal_value "2" * 1000))
  /\ (headers_get Samples.too_many_retry_after_2 "Retry-After"
       = Some ("" +:+ "-" +:+ "2" +:+ "") ->
       waitMs Samples.too_many_retry_after_2 0 = Num (- (decimal_value "2" * 1000)))
  /\ (headers_get Samples.too_many_retry_after_2 "Retry-After"
       = Some ("" +:+ String "W" "") ->
       waitMs Samples.too_many_retry_after_2 0 = NaN)
  /\ (headers_get Samples.too_many_retry_after_2 "Retry-After" = Some "" ->
       waitMs Samples.too_many_retry_after_2 0 = Num (2 ^ Z.of_nat 0 * 500))
  /\ (exists w' opts',
        run_alone (fetchWithRetry API_CHAT Samples.post_opts 0 Samples.idle_world)
          [Responds Samples.too_many_retry_after_2]
        = (Waiting w' API_CHAT opts', [])
        /\ timer_log w' = timer_log Samples.idle_world
                          ++ [waitMs Samples.too_many_retry_after_2 0]).
Proof.
  apply (retry_after_reading API_CHAT Samples.post_opts Samples.idle_world
           Samples.too_many_retry_after_2 0 "" "2" "" "W").
  - reflexivity.
  - discriminate.
  - reflexivity.
  - reflexivity.
  - reflexivity.
  - vm_compute. discriminate.
  - reflexivity.
  - unfold MAX_RETRIES. lia.
Defined.

End TransportFacts.

(* ===================================================================== *)
(** ** Results: one submission against any network, and the page *)
(* ===================================================================== *)

Module SubmissionFacts.

Import Widget WidgetUI WidgetSpec ExtraSpec WidgetFacts TransportFacts.
Local Open Scope string_scope.
Local Open Scope list_scope.

#[local] Arguments fetchWithRetry : simpl never.
#[local] Arguments String.eqb : simpl never.

Section AnyNetwork.

Context `{codec : JSONCodec}.

Lemma rendered_error (resp : Response) :
  ok resp = false -> exists msg, rendered resp = "Error: " +:+ msg.
Proof. intros H. unfold rendered. rewrite H. eauto. Qed.

Lemma not_ok_429 (resp : Response) : status resp = 429%Z -> ok resp = false.
Proof. intros H. unfold ok. rewrite H. reflexivity. Qed.

Lemma send_trace (messageText : string) (file : option File) (intent : option string)
    (w : World) (net : list FetchOutcome) :
  inFlight w = false ->
  truthy messageText || bool_decide (is_Some file) = true ->
  exists rs e rest,
    run_alone (sendMessageToServer messageText file intent w) net = (e, rest)
    /\ Forall (fun r => status r = 429%Z) rs
    /\ (length rs <= MAX_RETRIES)%nat
    /\ length (fetch_log (ended_world e)) = (length (fetch_log w) + length rs + 1)%nat
    /\ timer_log (ended_world e) = timer_log w ++ backoff 0 rs
    /\ match e with
       | Returned w' _ =>
           exists final,
             net = map Responds rs ++ final :: rest
             /\ messages w'
                = messages w ++ [{| sender := user; text := own_text messageText file |};
                                 {| sender := bot; text := bubble final |}]
             /\ console w' = console w ++ logged final
             /\ focus_calls w' = focus_calls w
             /\ (forall resp, final = Responds resp -> status resp = 429%Z ->
                   length rs = MAX_RETRIES
                   /\ (null_body resp = false ->
                       exists msg, bubble final = "Error: " +:+ msg))
       | Thrown _ _ => False
       | Waiting w' url _ =>
           net = map Responds rs /\ rest = [] /\ url = API_CHAT
           /\ messages w'
              = messages w ++ [{| sender := user; text := own_text messageText file |}]
       end.
Proof.
  intros Hidle Hvalid.
  pose proof (run_send messageText file intent w net Hidle Hvalid) as Hrun.
  set (ws := started messageText file w) in *.
  destruct (run_alone (fetchWithRetry API_CHAT (request_opts messageText file intent ws) 0 ws)
              net) as [e2 rest] eqn:Ht.
  destruct (fetchWithRetry_trace _ _ _ _ _ _ _ Ht)
    as (rs & Hrs & Hlen & Hnet & Hf & Htl & Hto & He).
  destruct Hto as (_ & _ & _ & Hmsg & _ & _ & _ & Hfoc & Hcon).
  assert (Hflen : length (fetch_log (ended_world e2))
                  = (length (fetch_log w) + length rs + 1)%nat).
  { rewrite Hf, length_app, length_replicate. subst ws. simpl. lia. }
  rewrite Nat.sub_0_r in Hlen.
  destruct e2 as [w2 resp|w2 err|w2 url opts]; cbn [ended_world last_outcome] in *.
  - exists rs, (Returned (set_inFlight false (finished resp w2)) tt), rest.
    split; [exact Hrun|]. split; [exact Hrs|]. split; [exact Hlen|].
    unfold finished. cbn [bubble logged]. destruct (null_body resp) eqn:Hnull.
    + split; [exact Hflen|]. split; [exact Htl|].
      exists (Responds resp). split; [exact Hnet|]. cbn [bubble logged]. rewrite Hnull.
      split; [|split; [|split]].
      * cbn [set_inFlight reported appendMessage console_error set_messages set_console
               messages].
        rewrite Hmsg. subst ws. simpl. now rewrite <- app_assoc.
      * cbn [set_inFlight reported appendMessage console_error set_messages set_console
               console].
        now rewrite Hcon.
      * exact Hfoc.
      * intros r Hr H429. injection Hr as <-. split; [now apply He|].
        rewrite Hnull. discriminate.
    + split; [unfold handled; destruct (adoptable _ _); exact Hflen|].
      split; [unfold handled; destruct (adoptable _ _); exact Htl|].
      exists (Responds resp). split; [exact Hnet|]. cbn [bubble logged]. rewrite Hnull.
      split; [|split; [|split]].
      * change (messages (set_inFlight false ?x)) with (messages x).
        rewrite messages_handled, Hmsg. subst ws. simpl. now rewrite <- app_assoc.
      * rewrite app_nil_r.
        unfold handled. destruct (adoptable _ _); exact Hcon.
      * unfold handled. destruct (adoptable _ _); exact Hfoc.
      * intros r Hr H429. injection Hr as <-. split; [now apply He|].
        intros _. apply rendered_error. now apply not_ok_429.
  - exists rs, (Returned (set_inFlight false (reported err w2)) tt), rest.
    split; [exact Hrun|]. split; [exact Hrs|]. split; [exact Hlen|].
    split; [exact Hflen|]. split; [exact Htl|].
    exists (Rejects err). split; [exact Hnet|].
    split; [|split; [|split]].
    + cbn [set_inFlight reported appendMessage console_error set_messages set_console
             messages bubble].
      rewrite Hmsg. subst ws. simpl. now rewrite <- app_assoc.
    + cbn [set_inFlight reported appendMessage console_error set_messages set_console
             console logged].
      now rewrite Hcon.
    + exact Hfoc.
    + discriminate.
  - exists rs, (Waiting w2 url opts), rest.
    split; [exact Hrun|]. split; [exact Hrs|]. split; [exact Hlen|].
    split; [exact Hflen|]. split; [exact Htl|].
    destruct He as (-> & _ & ->). rewrite app_nil_r in Hnet.
    repeat split; assumption.
Qed.

(** X9 -- One accepted submission against any network: it never throws.
    It uses up the 429 responses at the head of the script (at most
    [MAX_RETRIES]) and the outcome after them.  When it has ended, the page
    shows exactly two more bubbles, the user's own and one from the bot: the
    rendering of the last response, or the network-error text when the
    request was rejected or the body of the last response is [null]; in
    those two cases the error is on the console too.  A 429 is the last
    response only after [MAX_RETRIES] retries, and is then shown as an
    error.  While it still waits, only the user's own bubble has been
    added. *)
Theorem submission_trace (messageText : string) (file : option File)
    (intent : option string) (w : World) (net : list FetchOutcome)
    (Hidle : inFlight w = false)
    (Hvalid : truthy messageText || bool_decide (is_Some file) = true) :
  exists rs e rest,
    run_alone (sendMessageToServer messageText file intent w) net = (e, rest)
    /\ Forall (fun r => status r = 429%Z) rs
    /\ (length rs <= MAX_RETRIES)%nat
    /\ length (fetch_log (ended_world e)) = (length (fetch_log w) + length rs + 1)%nat
    /\ timer_log (ended_world e) = timer_log w ++ backoff 0 rs
    /\ match e with
       | Returned w' _ =>
           exists final,
             net = map Responds rs ++ final :: rest
             /\ messages w'
                = messages w ++ [{| sender := user; text := own_text messageText file |};
                                 {| sender := bot; text := bubble final |}]
             /\ console w' = console w ++ logged final
             /\ focus_calls w' = focus_calls w
             /\ (forall resp, final = Responds resp -> status resp = 429%Z ->
                   length rs = MAX_RETRIES
                   /\ (null_body resp = false ->
                       exists msg, bubble final = "Error: " +:+ msg))
       | Thrown _ _ => False
       | Waiting w' url _ =>
           net = map Responds rs /\ rest = [] /\ url = API_CHAT
           /\ messages w'
              = messages w ++ [{| sender := user; text := own_text messageText file |}]
       end.
Proof. now apply send_trace. Qed.




End AnyNetwork.

(* --------------------------------------------------------------------- *)
(** *** Properties of the world that every turn of the page keeps *)

Section Invariants.

Context `{codec : JSONCodec}.
Variable P : World -> Prop.
Hypothesis HP : stable P.

Lemma holds_bind {A B : Type} (r : Res A) (f : A -> M B) :
  holds P r -> (forall a, maintains P (f a)) -> holds P (res_bind r f).
Proof.
  intros Hr Hf. induction Hr; simpl.
  - now apply Hf.
  - now constructor.
  - constructor; auto.
  - constructor; auto.
  - constructor; auto.
Qed.

Lemma holds_catch {A : Type} (r : Res A) (h : Exn -> M A) :
  holds P r -> (forall e, maintains P (h e)) -> holds P (res_catch r h).
Proof.
  intros Hr Hh. induction Hr; simpl.
  - now constructor.
  - now apply Hh.
  - constructor; auto.
  - constructor; auto.
  - constructor; auto.
Qed.

Lemma holds_finally {A : Type} (r : Res A) (fin : World -> World) :
  holds P r -> (forall w, P w -> P (fin w)) -> holds P (res_finally r fin).
Proof.
  intros Hr Hfin. induction Hr; simpl.
  - constructor; auto.
  - constructor; auto.
  - constructor; auto.
  - constructor; auto.
  - constructor; auto.
Qed.

Lemma maintains_ret {A : Type} (a : A) : maintains P (ret a).
Proof. intros w Hw. now constructor. Qed.

Lemma maintains_bind {A B : Type} (m : M A) (f : A -> M B) :
  maintains P m -> (forall a, maintains P (f a)) -> maintains P (bind m f).
Proof. intros Hm Hf w Hw. unfold bind. apply holds_bind; auto. Qed.

Lemma maintains_catch {A : Type} (m : M A) (h : Exn -> M A) :
  maintains P m -> (forall e, maintains P (h e)) -> maintains P (try_catch m h).
Proof. intros Hm Hh w Hw. unfold try_catch. apply holds_catch; auto. Qed.

Lemma maintains_read {A : Type} (g : World -> A) : maintains P (read g).
Proof. intros w Hw. now constructor. Qed.

Lemma maintains_write (g : World -> World) :
  (forall w, P w -> P (g w)) -> maintains P (write g).
Proof. intros Hg w Hw. constructor. now apply Hg. Qed.

Lemma maintains_fetch url opts : maintains P (fetch url opts).
Proof.
  intros w Hw. constructor; [now apply (stable_fetch P HP)|].
  intros [resp|e] w' Hw'; now constructor.
Qed.

Lemma maintains_sleep ms : maintains P (sleep ms).
Proof.
  intros w Hw. constructor; [now apply (stable_timer P HP)|].
  intros w' Hw'. now constructor.
Qed.

Lemma maintains_loop (fuel : nat) :
  forall url opts attempt, maintains P (fetchWithRetry_loop fuel url opts attempt).
Proof.
  induction fuel as [|fuel IH]; intros url opts attempt; cbn [fetchWithRetry_loop];
    (apply maintains_bind; [apply maintains_read|intros tok]);
    (apply maintains_bind; [apply maintains_read|intros sid]);
    (apply maintains_bind; [apply maintains_fetch|intros resp]);
    (destruct (_ && _); [|apply maintains_ret]);
    (apply maintains_bind; [apply maintains_sleep|intros _]).
  - apply maintains_ret.
  - apply IH.
Qed.

Lemma maintains_send_request messageText file intent :
  maintains P (send_request messageText file intent).
Proof.
  unfold send_request. destruct file;
    (apply maintains_bind; [apply maintains_read|intros sid]);
    (apply maintains_bind; [apply maintains_read|intros lang]);
    apply maintains_loop.
Qed.

Lemma maintains_handle_response resp : maintains P (handle_response resp).
Proof.
  intros w Hw. unfold handle_response, bind, try_catch, resp_json.
  cbn [res_catch res_bind]. constructor; [exact Hw|]. intros d w' Hw'.
  assert (Hbot : forall txt, P (appendMessage bot txt w'))
    by (intros txt; now apply (stable_message P HP)).
  assert (Hnew : forall txt new, P (adopt new (appendMessage bot txt w')))
    by (intros txt new; now apply (stable_adopt P HP)).
  destruct d as [[|[rp sid er]]|]; cbn [res_catch res_bind ret member throw Data.reply
                                         Data.session_id Data.error Data.empty];
    (destruct (ok resp); cbn [write read res_bind member throw ret Data.reply
                              Data.session_id Data.error Data.empty];
     [try (destruct (_ && _); cbn [write read res_bind ret])|]);
    constructor; first [exact Hw'|apply Hbot|apply Hnew].
Qed.

Lemma maintains_send messageText file intent :
  maintains P (sendMessageToServer messageText file intent).
Proof.
  intros w Hw. unfold sendMessageToServer. rewrite bind_read.
  destruct (inFlight w); [constructor; now apply (stable_message P HP)|].
  destruct (_ && _); [constructor; now apply (stable_focus P HP)|].
  rewrite !bind_write. unfold try_finally.
  apply holds_finally; [|intros w'; apply (stable_flag P HP)].
  apply maintains_catch.
  - apply maintains_bind; [apply maintains_send_request|apply maintains_handle_response].
  - intros err. apply maintains_bind; [|intros _]; apply maintains_write; intros w'.
    + apply (stable_console P HP).
    + apply (stable_message P HP).
  - apply (stable_message P HP). now apply (stable_flag P HP).
Qed.

Lemma settle_holds (r : Res unit) (others : list Task) :
  holds P r -> Forall (task_holds P) others -> page_holds P (settle r others).
Proof.
  intros Hr Ho. destruct Hr; cbn [settle]; split; cbn [world pending]; auto;
    apply Forall_app; split; auto.
Qed.

Lemma step_holds (p p' : Page) (ev : Event) :
  page_holds P p -> step p ev = Some p' -> page_holds P p'.
Proof.
  intros [Hw Hp] Hstep.
  destruct ev as [messageText file intent|i o|i|i]; cbn [step] in Hstep.
  - injection Hstep as <-. apply settle_holds; [|exact Hp]. now apply maintains_send.
  - destruct (pending p !! i) as [[url opts k|ms k|resp k]|] eqn:Ht; try discriminate.
    injection Hstep as <-.
    apply settle_holds; [|now apply Forall_delete].
    exact (proj1 (Forall_lookup _ _) Hp _ _ Ht o _ Hw).
  - destruct (pending p !! i) as [[url opts k|ms k|resp k]|] eqn:Ht; try discriminate.
    injection Hstep as <-.
    apply settle_holds; [|now apply Forall_delete].
    exact (proj1 (Forall_lookup _ _) Hp _ _ Ht _ Hw).
  - destruct (pending p !! i) as [[url opts k|ms k|resp k]|] eqn:Ht; try discriminate.
    injection Hstep as <-.
    apply settle_holds; [|now apply Forall_delete].
    exact (proj1 (Forall_lookup _ _) Hp _ _ Ht _ _ Hw).
Qed.

Lemma steps_holds (evs : list Event) :
  forall p p', page_holds P p -> steps p evs = Some p' -> page_holds P p'.
Proof.
  induction evs as [|ev evs IH]; intros p p' Hinv Hsteps; cbn [steps] in Hsteps.
  - now injection Hsteps as <-.
  - destruct (step p ev) as [p1|] eqn:Hstep; [|discriminate].
    eapply IH; [|exact Hsteps]. eapply step_holds; eauto.
Qed.

Lemma reach_holds (w0 : World) (evs : list Event) (p : Page) :
  P w0 -> steps {| world := w0; pending := [] |} evs = Some p -> P (world p).
Proof.
  intros H0 Hsteps.
  assert (Hinv : page_holds P {| world := w0; pending := [] |}) by (split; [exact H0|constructor]).
  exact (proj1 (steps_holds _ _ _ Hinv Hsteps)).
Qed.

End Invariants.

Section PageFacts.

Context `{codec : JSONCodec}.

Lemma stable_extends (w0 : World) : stable (extends w0).
Proof.
  split; intros;
    match goal with
    | H : extends _ _ |- _ =>
        destruct H as (Hc & Hl & Hm & Hg & Hk & [lm Hmsg] & [lf Hf] & [lt Ht] & [lc Hcon] & Hfoc)
    end;
    unfold extends;
    cbn [adopt appendMessage focus console_error set_fetch_log set_timer_log set_messages
         set_inFlight set_focus_calls set_console set_localStorage set_session
         session created_at langSelect_value meta_token CHAT_WIDGET_TOKEN localStorage
         messages fetch_log timer_log console focus_calls];
    repeat match goal with |- _ /\ _ => split end;
    try assumption; eauto;
    try (intros k Hne; rewrite lookup_insert_ne by congruence; now apply Hk);
    try lia;
    match goal with
    | H : ?a = ?b ++ ?l |- exists l', ?a ++ [?x] = ?b ++ l' =>
        exists (l ++ [x]); rewrite H; now rewrite <- app_assoc
    end.
Qed.

Lemma stable_synced : stable synced.
Proof.
  split; intros; try assumption.
  unfold synced, adopt. cbn [localStorage session set_localStorage set_session].
  eexists. split; [apply lookup_insert_eq|].
  split; [apply JSON_stringify_truthy|apply JSON_parse_stringify].
Qed.

Lemma extends_refl (w : World) : extends w w.
Proof.
  repeat split; try (exists []; now rewrite app_nil_r); lia.
Qed.

Lemma reach_extends (w0 : World) (evs : list Event) (p : Page) :
  steps {| world := w0; pending := [] |} evs = Some p -> extends w0 (world p).
Proof.
  intros Hreach.
  exact (reach_holds (extends w0) (stable_extends w0) w0 evs p (extends_refl w0) Hreach).
Qed.

Lemma load_session_synced (random36 now : string) (w w0 : World) :
  load_session random36 now w = Ret w0 tt -> synced w0.
Proof.
  unfold load_session, bind. intros Hload.
  destruct (truthy_opt (localStorage w !! STORAGE_KEY)) eqn:E.
  - destruct (localStorage w !! STORAGE_KEY) as [t|] eqn:El; [|discriminate].
    rewrite (getSession_stored _ _ _ t) in Hload by assumption.
    destruct (JSON_parse t) as [v|] eqn:Ep; [|discriminate].
    cbn [res_bind write] in Hload. injection Hload as <-.
    exists t. repeat split; assumption.
  - rewrite getSession_absent in Hload by exact E.
    cbn [res_bind write] in Hload. injection Hload as <-.
    eexists. cbn [localStorage session set_localStorage set_session].
    split; [apply lookup_insert_eq|].
    split; [apply JSON_stringify_truthy|apply JSON_parse_stringify].
Qed.

Lemma getSession_synced (random36 now : string) (w : World) :
  synced w -> getSession random36 now w = Ret w (session w).
Proof.
  intros (t & Hl & Ht & Hp).
  rewrite (getSession_stored _ _ _ t) by assumption. now rewrite Hp.
Qed.

(** X10 -- What no sequence of events on the page undoes or touches: the
    creation time of the session, the selected language, the two tokens and
    every key of [localStorage] but the widget's own stay as they were when
    the page started; the messages, the requests, the timers and the console
    only grow, so no bubble is ever removed or rewritten. *)
Theorem page_extends (w0 : World) (evs : list Event) (p : Page)
    (Hreach : steps {| world := w0; pending := [] |} evs = Some p) :
  extends w0 (world p).
Proof. exact (reach_extends w0 evs p Hreach). Qed.

(** X11 -- Once the page has loaded its session, [localStorage] holds the
    text of the session in memory at every turn of the page, whatever the
    submissions and the network do: a reload at any moment gets back the
    session the page had, adopted id included, and writes nothing; it is the
    session [ChatWidget.getSession()] hands to the host page at that
    moment. *)
Theorem storage_synced_always (random36 now : string) (w w0 : World)
    (evs : list Event) (p : Page)
    (Hload : load_session random36 now w = Ret w0 tt)
    (Hreach : steps {| world := w0; pending := [] |} evs = Some p) :
  synced (world p)
  /\ forall random36' now',
       getSession random36' now' (world p) = Ret (world p) (session (world p))
       /\ getSession random36' now' (world p) = ChatWidget_getSession (world p).
Proof.
  assert (Hs : synced (world p)).
  { apply (reach_holds synced stable_synced w0 evs p); [|exact Hreach].
    eapply load_session_synced. exact Hload. }
  split; [exact Hs|]. intros r n. now rewrite getSession_synced.
Qed.

End PageFacts.

#[local] Existing Instance SessionJSONFacts.codec.

(** "hi" to a server that answers 429 once and then 200 with the body
    [null]. *)
Lemma submission_trace_witness :
  exists rs e rest,
    run_alone (sendMessageToServer "hi" None None Samples.idle_world)
      [Responds Samples.too_many; Responds Samples.reply_null] = (e, rest)
    /\ Forall (fun r => status r = 429%Z) rs
    /\ (length rs <= MAX_RETRIES)%nat
    /\ length (fetch_log (ended_world e))
       = (length (fetch_log Samples.idle_world) + length rs + 1)%nat
    /\ timer_log (ended_world e) = timer_log Samples.idle_world ++ backoff 0 rs
    /\ match e with
       | Returned w' _ =>
           exists final,
             [Responds Samples.too_many; Responds Samples.reply_null] = map Responds rs ++ final :: rest
             /\ messages w'
                = messages Samples.idle_world
                  ++ [{| sender := user; text := own_text "hi" None |};
                      {| sender := bot; text := bubble final |}]
             /\ console w' = console Samples.idle_world ++ logged final
             /\ focus_calls w' = focus_calls Samples.idle_world
             /\ (forall resp, final = Responds resp -> status resp = 429%Z ->
                   length rs = MAX_RETRIES
                   /\ (null_body resp = false ->
                       exists msg, bubble final = "Error: " +:+ msg))
       | Thrown _ _ => False
       | Waiting w' url _ =>
           [Responds Samples.too_many; Responds Samples.reply_null] = map Responds rs /\ rest = [] /\ url = API_CHAT
           /\ messages w'
              = messages Samples.idle_world
                ++ [{| sender := user; text := own_text "hi" None |}]
       end.
Proof.
  apply (submission_trace "hi" None None Samples.idle_world
           [Responds Samples.too_many; Responds Samples.reply_null]).
  - reflexivity.
  - reflexivity.
Defined.


(** A page that loads with an empty store, sends "hi" and gets a reply that
    carries a session id of the server. *)
Definition loaded_world : World :=
  match load_session "0.4fzyo82mvyr" "2024-05-01T10:00:00.000Z" Samples.idle_world with
  | Ret w _ => w
  | _ => Samples.idle_world
  end.

Definition adoption_events : list Event :=
  [Send "hi" None None; FetchSettles 0 (Responds Samples.reply_srv_123); JsonSettles 0].

Definition page_adopted : Page :=
  default {| world := loaded_world; pending := [] |}
    (steps {| world := loaded_world; pending := [] |} adoption_events).

Lemma page_extends_witness : extends loaded_world (world page_adopted).
Proof.
  apply (page_extends loaded_world adoption_events page_adopted).
  vm_compute. reflexivity.
Defined.

Lemma storage_synced_always_witness :
  synced (world page_adopted)
  /\ forall random36' now',
       getSession random36' now' (world page_adopted)
       = Ret (world page_adopted) (session (world page_adopted))
       /\ getSession random36' now' (world page_adopted)
          = ChatWidget_getSession (world page_adopted).
Proof.
  apply (storage_synced_always "0.4fzyo82mvyr" "2024-05-01T10:00:00.000Z"
           Samples.idle_world loaded_world adoption_events page_adopted).
  - vm_compute. reflexivity.
  - vm_compute. reflexivity.
Defined.

End SubmissionFacts.

(* ===================================================================== *)
(** ** Results: language, listeners and the host API of widget.js *)
(* ===================================================================== *)

Module WidgetUIFacts.

Import Dom I18nWidgetUI Widget WidgetUI WidgetSpec ExtraSpec UISpec.
Import I18nExtraFacts WidgetFacts.
Local Open Scope string_scope.
Local Open Scope list_scope.

#[local] Arguments String.eqb : simpl never.

(* --------------------------------------------------------------------- *)
(** *** applyLanguage *)

Lemma applyLanguage_widget (lang : string) (c : Chrome) :
  Some (widget (applyLanguage lang c)) = setLanguageOnWidget (Some (widget c)) lang.
Proof. unfold applyLanguage, setLanguageOnWidget. now destruct (String.eqb lang "ar"). Qed.

Lemma applyLanguage_texts (lang : string) (c : Chrome) :
  widget_title (applyLanguage lang c)
  = (if String.eqb lang "ar" then title_ar else js "Support Chat")
  /\ placeholder (applyLanguage lang c)
     = (if String.eqb lang "ar" then placeholder_ar else js "Type a message...").
Proof. unfold applyLanguage. now destruct (String.eqb lang "ar"). Qed.

Lemma chrome_eq (c1 c2 : Chrome) :
  widget c1 = widget c2 -> widget_title c1 = widget_title c2 ->
  placeholder c1 = placeholder c2 -> c1 = c2.
Proof. destruct c1, c2. simpl. now intros -> -> ->. Qed.

Lemma applyLanguage_facts (lang : string) (c : Chrome) :
  Some (widget (applyLanguage lang c)) = setLanguageOnWidget (Some (widget c)) lang
  /\ styled (String.eqb lang "ar") (widget (applyLanguage lang c))
  /\ (forall t, t <> "rtl" ->
        contains t (widget (applyLanguage lang c)) = contains t (widget c))
  /\ (forall n, n <> "class" -> n <> "dir" -> n <> "lang" ->
        attributes (widget (applyLanguage lang c)) !! n = attributes (widget c) !! n)
  /\ applyLanguage lang (applyLanguage lang c) = applyLanguage lang c
  /\ (widget_title (applyLanguage lang c) = title_ar <-> lang = "ar").
Proof.
  pose proof (applyLanguage_widget lang c) as Hw.
  destruct (set_language_state (widget c) lang) as (el' & He & Hs & Hc & Ha & _ & Hi & _).
  rewrite He in Hw. injection Hw as Hw. rewrite <- Hw in Hs, Hc, Ha, Hi.
  split; [now rewrite He, Hw|]. split; [exact Hs|]. split; [exact Hc|]. split; [exact Ha|].
  split.
  - apply chrome_eq.
    + pose proof (applyLanguage_widget lang (applyLanguage lang c)) as Hw2.
      rewrite Hi in Hw2. now injection Hw2.
    + now rewrite !(proj1 (applyLanguage_texts lang _)).
    + now rewrite !(proj2 (applyLanguage_texts lang _)).
  - rewrite (proj1 (applyLanguage_texts lang c)).
    destruct (String.eqb lang "ar") eqn:E.
    + apply String.eqb_eq in E. tauto.
    + apply String.eqb_neq in E. split; [discriminate|contradiction].
Qed.

(** X12 -- [applyLanguage] does to the widget element exactly what
    [setLanguageOnWidget] of the other script does to a container: right to
    left with [lang="ar"] for ["ar"], left to right with [lang="en"] for
    every other value, with the other classes kept, and the attributes other
    than [class], [dir] and [lang].  Applying the same language twice is the
    same as applying it once, and the title is the Arabic one exactly for
    ["ar"]. *)
Theorem applyLanguage_state (lang : string) (c : Chrome) :
  Some (widget (applyLanguage lang c)) = setLanguageOnWidget (Some (widget c)) lang
  /\ styled (String.eqb lang "ar") (widget (applyLanguage lang c))
  /\ (forall t, t <> "rtl" ->
        contains t (widget (applyLanguage lang c)) = contains t (widget c))
  /\ (forall n, n <> "class" -> n <> "dir" -> n <> "lang" ->
        attributes (widget (applyLanguage lang c)) !! n = attributes (widget c) !! n)
  /\ applyLanguage lang (applyLanguage lang c) = applyLanguage lang c
  /\ (widget_title (applyLanguage lang c) = title_ar <-> lang = "ar").
Proof. apply applyLanguage_facts. Qed.

(* --------------------------------------------------------------------- *)
(** *** The select and the input *)

Lemma shown_applyLanguage (w : World) (c : Chrome) :
  shown (w, applyLanguage (langSelect_value w) c).
Proof.
  unfold shown. cbn [fst snd].
  destruct (applyLanguage_facts (langSelect_value w) c) as (_ & Hs & _).
  destruct (applyLanguage_texts (langSelect_value w) c) as [Ht Hp].
  auto.
Qed.

Lemma lang_step_shown (st : World * Chrome) (ev : LangEvent) :
  shown st -> shown (lang_step st ev).
Proof.
  intros Hst. destruct ev as [v|val]; cbn [lang_step].
  - unfold on_lang_change. cbn [fst snd].
    apply (shown_applyLanguage (set_langSelect_value v (fst st)) (snd st)).
  - unfold on_input. destruct (_ && _); [|exact Hst].
    apply (shown_applyLanguage (set_langSelect_value "ar" (fst st)) (snd st)).
Qed.

Lemma lang_step_world (st : World * Chrome) (ev : LangEvent) (v : string) :
  set_langSelect_value v (fst (lang_step st ev)) = set_langSelect_value v (fst st).
Proof.
  destruct ev as [v'|val]; cbn [lang_step]; [reflexivity|].
  unfold on_input. now destruct (_ && _).
Qed.

Lemma language_ar (w : World) :
  String.eqb (language w) "ar" = String.eqb (langSelect_value w) "ar".
Proof. unfold language. now destruct (langSelect_value w). Qed.

Lemma lang_steps_shown (evs : list LangEvent) :
  forall st, shown st ->
    shown (fold_left lang_step evs st)
    /\ forall v, set_langSelect_value v (fst (fold_left lang_step evs st))
                 = set_langSelect_value v (fst st).
Proof.
  induction evs as [|ev evs IH]; intros st Hst; cbn [fold_left]; [now split|].
  destruct (IH (lang_step st ev) (lang_step_shown st ev Hst)) as [H1 H2].
  split; [exact H1|]. intros v. now rewrite H2, lang_step_world.
Qed.

(** X13 -- From the moment the script has run, whatever the user picks in
    the language select and whatever is typed, the widget looks as the
    selected language asks: right to left with the Arabic title and
    placeholder exactly when the select holds ["ar"], which is exactly when
    the language sent with a message is ["ar"].  The listeners change
    nothing else of the page state. *)
Theorem language_consistent (w : World) (c : Chrome) (evs : list LangEvent) :
  shown (fold_left lang_step evs (start_up (w, c)))
  /\ styled (String.eqb (language (fst (fold_left lang_step evs (start_up (w, c)))))
                        "ar")
       (widget (snd (fold_left lang_step evs (start_up (w, c)))))
  /\ forall v, set_langSelect_value v (fst (fold_left lang_step evs (start_up (w, c))))
               = set_langSelect_value v w.
Proof.
  destruct (lang_steps_shown evs (start_up (w, c)) (shown_applyLanguage w c)) as [H1 H2].
  split; [exact H1|]. split; [|exact H2].
  rewrite language_ar. apply H1.
Qed.

Lemma on_input_ar (val : I18nWidget.jsstring) (st : World * Chrome) :
  langSelect_value (fst st) = "ar" -> on_input val st = st.
Proof.
  intros H. unfold on_input. rewrite H. cbn. now rewrite andb_false_r.
Qed.

Lemma on_input_test (val : I18nWidget.jsstring) (st : World * Chrome) :
  arabicRe_test val = true -> langSelect_value (fst (on_input val st)) = "ar".
Proof.
  intros H. unfold on_input. rewrite H. cbn [andb].
  destruct (String.eqb (langSelect_value (fst st)) "ar") eqn:E; cbn [negb].
  - now apply String.eqb_eq in E.
  - reflexivity.
Qed.

Lemma on_input_other (val : I18nWidget.jsstring) (st : World * Chrome) :
  arabicRe_test val = false -> on_input val st = st.
Proof. intros H. unfold on_input. now rewrite H. Qed.

Lemma typing_stays_ar (vals : list I18nWidget.jsstring) :
  forall st, langSelect_value (fst st) = "ar" ->
    fold_left lang_step (map Input vals) st = st.
Proof.
  induction vals as [|val vals IH]; intros st H; cbn [map fold_left lang_step];
    [reflexivity|].
  rewrite on_input_ar by exact H. now apply IH.
Qed.

Lemma typing_one_way (vals : list I18nWidget.jsstring) :
  forall st,
    if existsb arabicRe_test vals
    then langSelect_value (fst (fold_left lang_step (map Input vals) st)) = "ar"
    else fold_left lang_step (map Input vals) st = st.
Proof.
  induction vals as [|val vals IH]; intros st; cbn [existsb map fold_left lang_step];
    [reflexivity|].
  destruct (arabicRe_test val) eqn:E; cbn [orb].
  - rewrite typing_stays_ar by (now apply on_input_test). now apply on_input_test.
  - rewrite on_input_other by exact E. apply IH.
Qed.

Lemma arabicRe_in_AR_RE (c : Z) :
  arabicRe_class c = true -> I18nWidget.AR_class c = true.
Proof.
  unfold arabicRe_class, I18nWidget.AR_class. intros H.
  apply orb_true_iff in H as [H|H]; rewrite H; now rewrite ?orb_true_r.
Qed.

(** X14 -- Typing switches the widget one way only.  After any run of
    [input] events the select holds ["ar"] if some value typed had a
    character of U+0600-06FF or U+0750-077F, and nothing has changed
    otherwise; once the select holds ["ar"], typing changes nothing, Latin
    text included.  The characters that switch are among those the detector
    of the other script counts as Arabic. *)
Theorem typing_switches_one_way (vals : list I18nWidget.jsstring)
    (st : World * Chrome) :
  (if existsb arabicRe_test vals
   then langSelect_value (fst (fold_left lang_step (map Input vals) st)) = "ar"
   else fold_left lang_step (map Input vals) st = st)
  /\ (langSelect_value (fst st) = "ar" ->
      fold_left lang_step (map Input vals) st = st)
  /\ forall c, arabicRe_class c = true -> I18nWidget.AR_class c = true.
Proof.
  split; [apply typing_one_way|]. split; [|apply arabicRe_in_AR_RE].
  apply typing_stays_ar.
Qed.

(* --------------------------------------------------------------------- *)
(** *** The send button *)

Lemma drop_space_no_lead (l : I18nWidget.jsstring) : no_lead (I18nWidget.drop_space l).
Proof.
  induction l as [|c l IH]; simpl; [exact I|].
  destruct (I18nWidget.is_js_space c) eqn:E; [exact IH|exact E].
Qed.

Lemma drop_space_id (l : I18nWidget.jsstring) :
  no_lead l -> I18nWidget.drop_space l = l.
Proof. destruct l as [|c l]; simpl; [reflexivity|]. now intros ->. Qed.

Lemma drop_space_snoc (l : I18nWidget.jsstring) (x : Z) :
  I18nWidget.is_js_space x = false ->
  exists l', I18nWidget.drop_space (l ++ [x]) = l' ++ [x].
Proof.
  intros Hx. induction l as [|c l IH]; simpl.
  - rewrite Hx. now exists [].
  - destruct (I18nWidget.is_js_space c); [exact IH|]. now exists (c :: l).
Qed.

(** What [trim] leaves has no white space at either end. *)
Lemma trimmed_ends (l : I18nWidget.jsstring) :
  no_lead l ->
  no_lead (rev (I18nWidget.drop_space (rev l)))
  /\ no_lead (rev (rev (I18nWidget.drop_space (rev l)))).
Proof.
  intros Hl. rewrite rev_involutive. split; [|apply drop_space_no_lead].
  destruct l as [|x l]; [exact I|]. simpl in Hl. cbn [rev].
  destruct (drop_space_snoc (rev l) x Hl) as [l' ->].
  rewrite rev_app_distr. exact Hl.
Qed.

Lemma trim_trim (s : I18nWidget.jsstring) :
  I18nWidget.trim (I18nWidget.trim s) = I18nWidget.trim s.
Proof.
  unfold I18nWidget.trim.
  destruct (trimmed_ends _ (drop_space_no_lead s)) as [H1 H2].
  rewrite (drop_space_id _ H1), (drop_space_id _ H2), rev_involutive.
  reflexivity.
Qed.

Lemma utf8_point_cons (p : Z) : exists c l, utf8_point p = c :: l.
Proof. unfold utf8_point. repeat destruct (_ <? _)%Z; eauto. Qed.

Lemma text_of_truthy (s : I18nWidget.jsstring) :
  truthy (text_of s) = match s with [] => false | _ => true end.
Proof.
  unfold text_of. destruct s as [|hi [|lo rest]]; [reflexivity| |]; cbn [utf8].
  - now destruct (utf8_point_cons hi) as (c & l & ->).
  - destruct (_ && _).
    + now destruct (utf8_point_cons (0x10000 + (hi - 0xD800) * 0x400 + (lo - 0xDC00))%Z)
        as (c & l & ->).
    + now destruct (utf8_point_cons hi) as (c & l & ->).
Qed.

(** The encoding is the one of the literals: the dash of the busy notice,
    an Arabic letter, a character outside the basic plane. *)
Lemma text_of_literals :
  text_of [0x2014] = "—" /\ text_of [0x645] = "م"
  /\ text_of [0x61; 0xE0] = "aà" /\ text_of [0xD83D; 0xDE00] = "😀".
Proof. repeat split. Qed.

Section Listeners.

Context `{codec : JSONCodec}.

Lemma click_facts (u : UI) :
  (I18nWidget.trim (input_value (inputs u)) = []
   <-> forallb I18nWidget.is_js_space (input_value (inputs u)) = true)
  /\ I18nWidget.trim (I18nWidget.trim (input_value (inputs u)))
     = I18nWidget.trim (input_value (inputs u))
  /\ truthy (text_of (I18nWidget.trim (input_value (inputs u))))
     = negb (forallb I18nWidget.is_js_space (input_value (inputs u)))
  /\ (if forallb I18nWidget.is_js_space (input_value (inputs u))
         && negb (bool_decide (is_Some (file_input (inputs u))))
      then on_send_click u
           = {| page := {| world := focus (world (page u)); pending := pending (page u) |};
                inputs := inputs u |}
      else inputs (on_send_click u) = {| input_value := []; file_input := None |}
           /\ step (page u)
                (Send (text_of (I18nWidget.trim (input_value (inputs u))))
                   (file_input (inputs u)) None)
              = Some (page (on_send_click u))
           /\ (inFlight (world (page u)) = true ->
               page (on_send_click u)
               = {| world := appendMessage bot busy_notice (world (page u));
                    pending := pending (page u) |}))
  /\ on_keydown "Enter" false u = on_send_click u
  /\ on_keydown "Enter" true u = u
  /\ (forall key shiftKey, key <> "Enter" -> on_keydown key shiftKey u = u).
Proof.
  split; [apply I18nWidgetFacts.trim_nil|]. split; [apply trim_trim|].
  split.
  { rewrite text_of_truthy.
    destruct (forallb I18nWidget.is_js_space (input_value (inputs u))) eqn:Hb.
    - now rewrite (proj2 (I18nWidgetFacts.trim_nil _) Hb).
    - destruct (I18nWidget.trim (input_value (inputs u))) eqn:E; [|reflexivity].
      apply I18nWidgetFacts.trim_nil in E. congruence. }
  split; [|split; [reflexivity|split; [reflexivity|]]].
  - unfold on_send_click.
    destruct (forallb I18nWidget.is_js_space (input_value (inputs u))) eqn:Hb.
    + rewrite (proj2 (I18nWidgetFacts.trim_nil _) Hb). cbn [andb].
      destruct (negb _); [reflexivity|].
      cbn [inputs page]. split; [reflexivity|]. split; [reflexivity|].
      intros Hbusy. now rewrite send_busy.
    + destruct (I18nWidget.trim (input_value (inputs u))) as [|c t] eqn:E.
      { apply I18nWidgetFacts.trim_nil in E. congruence. }
      cbn [andb inputs page].
      split; [reflexivity|]. split; [reflexivity|].
      intros Hbusy. now rewrite send_busy.
  - intros key shiftKey Hk. unfold on_keydown.
    apply String.eqb_neq in Hk. now rewrite Hk.
Qed.

(** X15 -- The send button.  The text is sent trimmed as
    [String.prototype.trim] trims it, so without white space at either end.
    When the input holds white space only (any of the characters [trim]
    strips, U+3000 and U+FEFF among them) and no file is chosen, the click
    only focuses the input: nothing is sent, the inputs keep their values
    and no notice is shown even while a message is in flight.  Every other
    click is one [sendMessageToServer] call with the trimmed text, and it
    clears both inputs, also when a message is in flight, where the call
    only shows the busy notice: what was typed is gone and is not sent.
    Enter without Shift is a click; Enter with Shift and the other keys do
    nothing. *)
Theorem send_click (u : UI) :
  (I18nWidget.trim (input_value (inputs u)) = []
   <-> forallb I18nWidget.is_js_space (input_value (inputs u)) = true)
  /\ I18nWidget.trim (I18nWidget.trim (input_value (inputs u)))
     = I18nWidget.trim (input_value (inputs u))
  /\ truthy (text_of (I18nWidget.trim (input_value (inputs u))))
     = negb (forallb I18nWidget.is_js_space (input_value (inputs u)))
  /\ (if forallb I18nWidget.is_js_space (input_value (inputs u))
         && negb (bool_decide (is_Some (file_input (inputs u))))
      then on_send_click u
           = {| page := {| world := focus (world (page u)); pending := pending (page u) |};
                inputs := inputs u |}
      else inputs (on_send_click u) = {| input_value := []; file_input := None |}
           /\ step (page u)
                (Send (text_of (I18nWidget.trim (input_value (inputs u))))
                   (file_input (inputs u)) None)
              = Some (page (on_send_click u))
           /\ (inFlight (world (page u)) = true ->
               page (on_send_click u)
               = {| world := appendMessage bot busy_notice (world (page u));
                    pending := pending (page u) |}))
  /\ on_keydown "Enter" false u = on_send_click u
  /\ on_keydown "Enter" true u = u
  /\ (forall key shiftKey, key <> "Enter" -> on_keydown key shiftKey u = u).
Proof. apply click_facts. Qed.

(* --------------------------------------------------------------------- *)
(** *** The host API *)

Lemma send_intent_empty (messageText : string) (file : option File) (w : World) :
  sendMessageToServer messageText file (Some "") w
  = sendMessageToServer messageText file None w.
Proof. destruct file; reflexivity. Qed.

Lemma ChatWidget_send_eq (message : option string) (file : option File)
    (intent : option string) (w : World) :
  ChatWidget_send message file intent w
  = sendMessageToServer (default "" message) file intent w.
Proof.
  unfold ChatWidget_send.
  assert (Hm : (if truthy_opt message then default "" message else "") = default "" message)
    by (destruct message as [[|c m]|]; reflexivity).
  rewrite Hm. destruct intent as [[|c i]|]; [|reflexivity|reflexivity].
  cbn [truthy_opt truthy]. symmetry. apply send_intent_empty.
Qed.

(** X16 -- [ChatWidget.send(opts)] is [sendMessageToServer] called with the
    message (the empty string when it is missing), the file and the intent
    of [opts]: an empty intent is sent as no intent either way.  So the host
    API goes through the same guards as the button: while a message is in
    flight it only shows the busy notice, and with no message and no file on
    an idle page it only focuses the input. *)
Theorem host_send (message : option string) (file : option File)
    (intent : option string) (w : World) :
  ChatWidget_send message file intent w
  = sendMessageToServer (default "" message) file intent w
  /\ sendMessageToServer (default "" message) file (Some "") w
     = sendMessageToServer (default "" message) file None w
  /\ (if inFlight w
      then ChatWidget_send message file intent w
           = Ret (appendMessage bot busy_notice w) tt
      else ChatWidget_send None None intent w = Ret (focus w) tt
           /\ ChatWidget_send (Some "") None intent w = Ret (focus w) tt).
Proof.
  split; [apply ChatWidget_send_eq|]. split; [apply send_intent_empty|].
  destruct (inFlight w) eqn:Hf.
  - rewrite ChatWidget_send_eq. now apply send_busy.
  - rewrite !ChatWidget_send_eq. cbn [default from_option id].
    split; now apply send_empty.
Qed.

End Listeners.

(* --------------------------------------------------------------------- *)
(** *** Session ids *)

Lemma length_substring (s : string) :
  forall n m, String.length (substring n m s) = Nat.min m (String.length s - n).
Proof.
  induction s as [|c s IH]; intros n m.
  - destruct n, m; reflexivity.
  - destruct n as [|n]; [destruct m as [|m]|]; cbn [substring String.length].
    + reflexivity.
    + rewrite IH. rewrite Nat.sub_0_r. reflexivity.
    + rewrite IH. reflexivity.
Qed.

(** X17 -- A generated session id is ["sess-"] followed by the characters
    of the random text after its first two, at most eight of them: it has
    [5 + min 8 (n - 2)] characters for a random text of [n] characters, so
    thirteen only when the random text has ten or more, and it is the bare
    ["sess-"] when the random text has two or fewer (["0"], the text of the
    number 0). *)
Theorem genSessionId_shape (random36 : string) :
  String.length (genSessionId random36)
  = (5 + Nat.min 8 (String.length random36 - 2))%nat
  /\ substring 0 5 (genSessionId random36) = "sess-"
  /\ (genSessionId random36 = "sess-" <-> (String.length random36 <= 2)%nat).
Proof.
  unfold genSessionId.
  pose proof (length_substring random36 2 8) as Hl.
  split; [|split].
  - change ("sess-" +:+ ?x) with (String "s" (String "e" (String "s" (String "s" (String "-" x))))).
    cbn [String.length]. now rewrite Hl.
  - change ("sess-" +:+ ?x) with (String "s" (String "e" (String "s" (String "s" (String "-" x))))).
    now destruct (substring 2 8 random36).
  - change ("sess-" +:+ ?x) with (String "s" (String "e" (String "s" (String "s" (String "-" x))))).
    split.
    + intros H. injection H as H. rewrite H in Hl. cbn [String.length] in Hl. lia.
    + intros H. f_equal. f_equal. f_equal. f_equal. f_equal.
      destruct (substring 2 8 random36) as [|c r]; [reflexivity|].
      cbn [String.length] in Hl. lia.
Qed.

End WidgetUIFacts.
